(** * Verification of the screening-test query pipelines

    Two independent programs are embedded here:

    - [dataTransform.js]: [transformData], the grouping / aggregation engine;
    - [src/HotelBookingDashboard.tsx]: [parsePartialDate], [rangesOverlap],
      the filter callback, the sort comparator, the pagination slice, the
      handlers and the URL state of the dashboard component.

    JavaScript values are embedded as follows.  A string is a [string] whose
    characters are code units below 256.  The numbers [transformData]
    computes with are the doubles of the language: primitive [float]s, with
    their rounding, their infinities and [NaN].  The prices and ratings of
    the dashboard, which are only compared, are rationals [Q].  [NaN] is
    written [None] where [parseInt] or the time value of a [Date] can
    produce it.  A thrown exception is the [Throw] case of [result].  What
    belongs to the host and not to the programs (the time zone, the
    prototypes of the built-in objects, the string form of a number, the
    size of the call stack) is a parameter. *)

From Stdlib Require Import ZArith QArith Qround Qminmax List String Ascii Bool Lia.
From Stdlib Require Import Permutation DecimalString Sorted OrderedTypeEx.
From Stdlib Require Floats.
Import ListNotations.

Local Open Scope Z_scope.

(** ** Exceptions *)

(** [Error], [TypeError] and [RangeError] objects by their message, and
    [Thrown] for any other value a callback throws. *)
Inductive exn : Type :=
| Error (message : string)
| TypeError (message : string)
| RangeError (message : string)
| Thrown (what : string).

Inductive result (A : Type) : Type :=
| Ok (a : A)
| Throw (e : exn).
Arguments Ok {A} a.
Arguments Throw {A} e.

Definition bind {A B : Type} (r : result A) (k : A -> result B) : result B :=
  match r with
  | Ok a => k a
  | Throw e => Throw e
  end.

Notation "x <- r ;; k" := (bind r (fun x => k))
  (at level 61, r at next level, right associativity).

(** [arr.map(f)], [arr.filter(p)] and [arr.reduce(f, init)] with a
    callback that may throw: the elements are visited from left to right
    and the first exception ends the loop. *)
Section Loops.

Context {A B : Type}.

Section Map.

Variable f : A -> result B.

Fixpoint mapM (l : list A) : result (list B) :=
  match l with
  | [] => Ok []
  | x :: t => y <- f x ;; ys <- mapM t ;; Ok (y :: ys)
  end.

End Map.

Fixpoint filterM (p : A -> result bool) (l : list A) : result (list A) :=
  match l with
  | [] => Ok []
  | x :: t => keep <- p x ;; kept <- filterM p t ;; Ok (if keep then x :: kept else kept)
  end.

End Loops.

Fixpoint reduceM {A B : Type} (f : B -> A -> result B) (l : list A) (acc : B) : result B :=
  match l with
  | [] => Ok acc
  | x :: t => acc' <- f acc x ;; reduceM f t acc'
  end.

(** ** Strings *)

Module JsString.

(** [s.split(sep)] for a one-character separator. *)
Fixpoint split (sep : ascii) (s : string) : list string :=
  match s with
  | EmptyString => [EmptyString]
  | String c rest =>
      if Ascii.eqb c sep then EmptyString :: split sep rest
      else match split sep rest with
           | [] => [String c EmptyString]
           | part :: parts => String c part :: parts
           end
  end.

(** [parts.join(sep)] on strings. *)
Fixpoint join (sep : string) (parts : list string) : string :=
  match parts with
  | [] => EmptyString
  | [p] => p
  | p :: rest => (p ++ sep ++ join sep rest)%string
  end.

Definition code (c : ascii) : Z := Z.of_N (N_of_ascii c).

(** White space and line terminators, as [parseInt] strips them. *)
Definition isWhiteSpace (c : ascii) : bool :=
  let n := code c in
  ((9 <=? n) && (n <=? 13)) || (n =? 32) || (n =? 160).

Fixpoint trimStart (s : string) : string :=
  match s with
  | String c rest => if isWhiteSpace c then trimStart rest else s
  | EmptyString => EmptyString
  end.

(** Value of a character as a digit, in any radix up to 36. *)
Definition digitValue (c : ascii) : option Z :=
  let n := code c in
  if (48 <=? n) && (n <=? 57) then Some (n - 48)
  else if (97 <=? n) && (n <=? 122) then Some (n - 87)
  else if (65 <=? n) && (n <=? 90) then Some (n - 55)
  else None.

(** The longest prefix of radix-[r] digits, read as a number; [None] when
    that prefix is empty. *)
Fixpoint digits (r : Z) (s : string) (acc : option Z) : option Z :=
  match s with
  | EmptyString => acc
  | String c rest =>
      match digitValue c with
      | Some d =>
          if d <? r
          then digits r rest (Some (match acc with Some a => a * r + d | None => d end))
          else acc
      | None => acc
      end
  end.

(** [parseInt(s)] with no radix argument: leading white space and one sign
    are skipped, a [0x] or [0X] prefix selects radix 16, and the result is
    [NaN] ([None]) when no digit follows. *)
Definition parseInt (s : string) : option Z :=
  let s1 := trimStart s in
  let '(sign, s2) :=
    match s1 with
    | String "-" rest => (-1, rest)
    | String "+" rest => (1, rest)
    | _ => (1, s1)
    end in
  let '(radix, s3) :=
    match s2 with
    | String "0" (String "x" rest) => (16, rest)
    | String "0" (String "X" rest) => (16, rest)
    | _ => (10, s2)
    end in
  option_map (Z.mul sign) (digits radix s3 None).

Definition lowerChar (c : ascii) : ascii :=
  let n := code c in
  if ((65 <=? n) && (n <=? 90))
     || ((192 <=? n) && (n <=? 222) && negb (n =? 215))
  then ascii_of_N (Z.to_N (n + 32)) else c.

Fixpoint toLowerCase (s : string) : string :=
  match s with
  | EmptyString => EmptyString
  | String c rest => String (lowerChar c) (toLowerCase rest)
  end.

(** [s.includes(sub)]. *)
Fixpoint includes (s sub : string) : bool :=
  prefix sub s ||
  match s with
  | EmptyString => false
  | String _ rest => includes rest sub
  end.

(** [a > b] on two strings: code units are compared from the left. *)
Definition gt (a b : string) : bool :=
  match String.compare a b with Gt => true | _ => false end.

Definition lt (a b : string) : bool := gt b a.

Definition isEmpty (s : string) : bool :=
  match s with EmptyString => true | _ => false end.

End JsString.

(** ** Numbers *)

Module JsNumber.

(** [a < b] and [a > b] on two numbers. *)
Definition lt (a b : Q) : bool :=
  match (a ?= b)%Q with Lt => true | _ => false end.

Definition gt (a b : Q) : bool := lt b a.

End JsNumber.

(** The doubles of the language are the primitive floats: binary64 with
    rounding to nearest, ties to even, two zeros, two infinities and one
    [NaN]. *)

Module Double.

Definition number : Type := PrimFloat.float.

(** The length of an array or of a string as a number.  The conversion is
    exact below 2^53, which no length reaches. *)
Definition ofNat (n : nat) : number :=
  PrimFloat.of_uint63 (Uint63.of_Z (Z.of_nat n)).

Definition isNaN (x : number) : bool := PrimFloat.is_nan x.

Definition isNegativeZero (x : number) : bool :=
  match PrimFloat.classify x with
  | FloatClass.NZero => true
  | _ => false
  end.

Definition isPositiveZero (x : number) : bool :=
  match PrimFloat.classify x with
  | FloatClass.PZero => true
  | _ => false
  end.

(** [Math.min] on the list of its arguments: [NaN] as soon as one argument
    is [NaN]; [-0] is below [+0]; no argument gives [+Infinity]. *)
Fixpoint minFrom (lowest : number) (coerced : list number) : number :=
  match coerced with
  | [] => lowest
  | n :: rest =>
      if isNaN n then PrimFloat.nan
      else if isNegativeZero n && isPositiveZero lowest then minFrom n rest
      else if PrimFloat.ltb n lowest then minFrom n rest
      else minFrom lowest rest
  end.

Definition Math_min (values : list number) : number :=
  minFrom PrimFloat.infinity values.

(** [Math.max], likewise: [+0] is above [-0]; no argument gives
    [-Infinity]. *)
Fixpoint maxFrom (highest : number) (coerced : list number) : number :=
  match coerced with
  | [] => highest
  | n :: rest =>
      if isNaN n then PrimFloat.nan
      else if isPositiveZero n && isNegativeZero highest then maxFrom n rest
      else if PrimFloat.ltb highest n then maxFrom n rest
      else maxFrom highest rest
  end.

Definition Math_max (values : list number) : number :=
  maxFrom PrimFloat.neg_infinity values.

End Double.

(** ** Dates

    The time value of a [Date] is a number of milliseconds since the epoch,
    or [NaN] for an invalid date.  The functions below are the ones the
    language defines for the [Date] constructor and [getDate].  The local
    time zone is the host's: [LocalTZA t isUTC] is the offset of local time
    from UTC, in milliseconds, in force at the time [t]; [t] is a UTC time
    value when [isUTC] holds and a local one otherwise.  With daylight
    saving the offset changes in the course of a year. *)

Module JsDate.

Definition Date : Type := option Z.

Definition msPerDay : Z := 86400000.

Definition DayFromYear (y : Z) : Z :=
  365 * (y - 1970) + (y - 1969) / 4 - (y - 1901) / 100 + (y - 1601) / 400.

Definition InLeapYear (y : Z) : bool :=
  ((y mod 4 =? 0) && negb (y mod 100 =? 0)) || (y mod 400 =? 0).

(** Days of the year that precede month [m] (0 = January). *)
Definition daysBeforeMonth (leap : bool) (m : Z) : Z :=
  let l := if leap then 1 else 0 in
  match m with
  | 0 => 0
  | 1 => 31
  | 2 => 59 + l
  | 3 => 90 + l
  | 4 => 120 + l
  | 5 => 151 + l
  | 6 => 181 + l
  | 7 => 212 + l
  | 8 => 243 + l
  | 9 => 273 + l
  | 10 => 304 + l
  | _ => 334 + l
  end.

(** [MakeDay]: months outside 0..11 carry into the year, and [date] is an
    offset from the first of the month, so day 0 is the last day of the
    month before. *)
Definition MakeDay (year month date : Z) : Z :=
  let ym := year + month / 12 in
  let mn := month mod 12 in
  DayFromYear ym + daysBeforeMonth (InLeapYear ym) mn + date - 1.

Definition MakeTime (hour min sec ms : Z) : Z :=
  hour * 3600000 + min * 60000 + sec * 1000 + ms.

Definition MakeDate (day time : Z) : Z := day * msPerDay + time.

Definition TimeClip (t : Z) : Date :=
  if Z.abs t <=? 8640000000000000 then Some t else None.

(** The year of a day number: the largest [y] with [DayFromYear y <= d]. *)
Definition YearFromDay (d : Z) : Z :=
  let y0 := 1970 + d * 400 / 146097 in
  if DayFromYear (y0 + 1) <=? d then y0 + 1
  else if DayFromYear y0 <=? d then y0
  else y0 - 1.

Definition MonthFromDayInYear (leap : bool) (n : Z) : Z :=
  if n <? daysBeforeMonth leap 1 then 0
  else if n <? daysBeforeMonth leap 2 then 1
  else if n <? daysBeforeMonth leap 3 then 2
  else if n <? daysBeforeMonth leap 4 then 3
  else if n <? daysBeforeMonth leap 5 then 4
  else if n <? daysBeforeMonth leap 6 then 5
  else if n <? daysBeforeMonth leap 7 then 6
  else if n <? daysBeforeMonth leap 8 then 7
  else if n <? daysBeforeMonth leap 9 then 8
  else if n <? daysBeforeMonth leap 10 then 9
  else if n <? daysBeforeMonth leap 11 then 10
  else 11.

(** [DateFromTime]: the day of the month, 1..31. *)
Definition DateFromTime (t : Z) : Z :=
  let d := t / msPerDay in
  let y := YearFromDay d in
  let n := d - DayFromYear y in
  let leap := InLeapYear y in
  n - daysBeforeMonth leap (MonthFromDayInYear leap n) + 1.

Section LocalTime.

Variable LocalTZA : Z -> bool -> Z.

Definition LocalTime (t : Z) : Z := t + LocalTZA t true.

Definition UTC (t : Z) : Z := t - LocalTZA t false.

(** [new Date(year, month, date, hours, minutes, seconds)]: the fields
    are read in local time; a year in 0..99 means 19xx. *)
Definition newDate (year month date hours minutes seconds : Z) : Date :=
  let yr := if (0 <=? year) && (year <=? 99) then 1900 + year else year in
  let local := MakeDate (MakeDay yr month date) (MakeTime hours minutes seconds 0) in
  TimeClip (UTC local).

(** [d.getDate()]. *)
Definition getDate (d : Date) : option Z :=
  option_map (fun t => DateFromTime (LocalTime t)) d.

End LocalTime.

(** A host whose local time is at a fixed offset from UTC, and the host
    at UTC. *)
Definition fixedOffset (ms : Z) : Z -> bool -> Z := fun _ _ => ms.

Definition utc : Z -> bool -> Z := fixedOffset 0.

(** Relational operators on two [Date] objects compare their time values;
    every comparison with [NaN] is false. *)
Definition le (a b : Date) : bool :=
  match a, b with
  | Some x, Some y => x <=? y
  | _, _ => false
  end.

Definition ge (a b : Date) : bool :=
  match a, b with
  | Some x, Some y => y <=? x
  | _, _ => false
  end.

Definition lt (a b : Date) : bool :=
  match a, b with
  | Some x, Some y => x <? y
  | _, _ => false
  end.

End JsDate.

(** ** Arrays *)

Module JsArray.

(** [arr.slice(start, end)]: a negative bound counts from the end of the
    array, and both bounds are clamped to [0 .. arr.length]. *)
Definition clampIndex (len i : Z) : Z :=
  if i <? 0 then Z.max (len + i) 0 else Z.min i len.

Definition slice {A : Type} (arr : list A) (start end_ : Z) : list A :=
  let len := Z.of_nat (List.length arr) in
  let k := clampIndex len start in
  let final := clampIndex len end_ in
  firstn (Z.to_nat (final - k)) (skipn (Z.to_nat k) arr).

(** [arr.every(p)] and [arr.includes(x)] on strings. *)
Definition every {A : Type} (p : A -> bool) (arr : list A) : bool := forallb p arr.

Definition includes (arr : list string) (x : string) : bool :=
  existsb (String.eqb x) arr.

End JsArray.

(** ** HotelBookingDashboard.tsx *)

Module Dashboard.

Import JsDate.

Record Availability : Type := { checkIn : string; checkOut : string }.

Record Hotel : Type := {
  id : Q;
  name : string;
  city : string;
  price : Q;
  rating : Q;
  amenities : list string;
  availability : Availability
}.

(** [keyof Hotel]. *)
Inductive HotelField : Type :=
| f_id | f_name | f_city | f_price | f_rating | f_amenities | f_availability.

Record FilterState : Type := {
  search : string;
  priceRange : Q * Q;
  filterAmenities : list string;
  minRating : Q;
  dateRange : Availability
}.

Inductive Order : Type := asc | desc.

Record SortConfig : Type := {
  field : HotelField;
  order : Order;
  secondary : option (HotelField * Order)
}.

Record DateRange : Type := { start : Date; end_ : Date }.

(** [n ? ... : ...] on the result of [parseInt]: [NaN] and 0 are falsy. *)
Definition truthy (n : option Z) : bool :=
  match n with
  | Some 0 => false
  | Some _ => true
  | None => false
  end.

(** [parts[i] ? parseInt(parts[i]) : null].  A missing or empty segment
    gives [null]; [null] and [NaN] are both [None] here, the code only
    tests the value for truthiness before it uses it. *)
Definition segment (parts : list string) (i : nat) : option Z :=
  match nth_error parts i with
  | Some s => if JsString.isEmpty s then None else JsString.parseInt s
  | None => None
  end.

(** The number held by a truthy value. *)
Definition num (n : option Z) : Z :=
  match n with
  | Some z => z
  | None => 0
  end.

Section Host.

(** Offset of local time from UTC, [Date.parse], and
    [Array.prototype.sort] of the host. *)
Variable LocalTZA : Z -> bool -> Z.
Variable Date_parse : string -> Date.
Variable Array_sort : (Hotel -> Hotel -> Z) -> list Hotel -> list Hotel.

Definition parsePartialDate (dateStr : string) : option DateRange :=
  if JsString.isEmpty dateStr then None
  else
    let parts := JsString.split "-" dateStr in
    let year := segment parts 0 in
    let month := segment parts 1 in
    let day := segment parts 2 in
    match year with
    | None => None
    | Some y =>
        if (y =? 0) || (y <? 1900) then None
        else if truthy day && truthy month then
          let date := newDate LocalTZA y (num month - 1) (num day) 0 0 0 in
          Some {| start := date; end_ := date |}
        else if truthy month then
          let lastDay := getDate LocalTZA (newDate LocalTZA y (num month) 0 0 0 0) in
          Some {| start := newDate LocalTZA y (num month - 1) 1 0 0 0;
                  end_ := match lastDay with
                          | Some ld => newDate LocalTZA y (num month - 1) ld 23 59 59
                          | None => None
                          end |}
        else
          Some {| start := newDate LocalTZA y 0 1 0 0 0;
                  end_ := newDate LocalTZA y 11 31 23 59 59 |}
    end.

Definition rangesOverlap (range1 range2 : DateRange) : bool :=
  le (start range1) (end_ range2) && ge (end_ range1) (start range2).

(** The date part of the filter callback: [true] where the callback goes
    on to [return true], [false] where it returns [false]. *)
Definition dateRangeMatches (dr : Availability) (hotelRange : DateRange) : bool :=
  if negb (JsString.isEmpty (checkIn dr)) then
    match parsePartialDate (checkIn dr) with
    | None => false
    | Some checkInRange =>
        if negb (JsString.isEmpty (checkOut dr)) then
          match parsePartialDate (checkOut dr) with
          | None => false
          | Some checkOutRange =>
              if ge (start checkInRange) (end_ checkOutRange) then false
              else
                let requestedRange :=
                  {| start := start checkInRange; end_ := end_ checkOutRange |} in
                rangesOverlap requestedRange hotelRange
          end
        else rangesOverlap checkInRange hotelRange
    end
  else if negb (JsString.isEmpty (checkOut dr)) then
    match parsePartialDate (checkOut dr) with
    | None => false
    | Some checkOutRange => rangesOverlap checkOutRange hotelRange
    end
  else true.

(** The callback of [HOTELS.filter]. *)
Definition hotelFilter (filters : FilterState) (hotel : Hotel) : bool :=
  let searchLower := JsString.toLowerCase (search filters) in
  if negb (JsString.isEmpty searchLower)
     && negb (JsString.includes (JsString.toLowerCase (name hotel)) searchLower)
     && negb (JsString.includes (JsString.toLowerCase (city hotel)) searchLower)
  then false
  else if JsNumber.lt (price hotel) (fst (priceRange filters))
          || JsNumber.gt (price hotel) (snd (priceRange filters))
  then false
  else if negb (Nat.eqb (List.length (filterAmenities filters)) 0)
          && negb (JsArray.every (fun a => JsArray.includes (amenities hotel) a)
                                 (filterAmenities filters))
  then false
  else if JsNumber.lt (rating hotel) (minRating filters) then false
  else
    let hotelRange :=
      {| start := Date_parse (checkIn (availability hotel));
         end_ := Date_parse (checkOut (availability hotel)) |} in
    dateRangeMatches (dateRange filters) hotelRange.

(** [a[f] > b[f]].  Numbers compare as numbers and strings by code
    units; an array is first turned into its comma-joined string and the
    availability object into the string [[object Object]]. *)
Definition fieldGt (f : HotelField) (a b : Hotel) : bool :=
  match f with
  | f_id => JsNumber.gt (id a) (id b)
  | f_name => JsString.gt (name a) (name b)
  | f_city => JsString.gt (city a) (city b)
  | f_price => JsNumber.gt (price a) (price b)
  | f_rating => JsNumber.gt (rating a) (rating b)
  | f_amenities =>
      JsString.gt (JsString.join "," (amenities a)) (JsString.join "," (amenities b))
  | f_availability => JsString.gt "[object Object]" "[object Object]"
  end.

Definition fieldLt (f : HotelField) (a b : Hotel) : bool := fieldGt f b a.

Definition compareBy (f : HotelField) (o : Order) (a b : Hotel) : Z :=
  match o with
  | asc => if fieldGt f a b then 1 else -1
  | desc => if fieldLt f a b then 1 else -1
  end.

(** The comparator handed to [results.sort]. *)
Definition sortCompare (sort : SortConfig) (a b : Hotel) : Z :=
  let primaryCompare := compareBy (field sort) (order sort) a b in
  match secondary sort with
  | Some (sf, so) =>
      if negb (primaryCompare =? 0) then primaryCompare
      else compareBy sf so a b
  | None => primaryCompare
  end.

Definition filteredHotels (HOTELS : list Hotel) (filters : FilterState)
           (sort : SortConfig) : list Hotel :=
  Array_sort (sortCompare sort) (filter (hotelFilter filters) HOTELS).

End Host.

(** Pagination.  The component fixes [itemsPerPage] to 10; the functions
    take it as an argument. *)
Definition itemsPerPage : Z := 10.

Definition totalPagesOf (pageSize : Z) {A : Type} (records : list A) : Z :=
  Qceiling (inject_Z (Z.of_nat (List.length records)) / inject_Z pageSize).

Definition paginate (pageSize currentPage : Z) {A : Type} (records : list A) : list A :=
  JsArray.slice records ((currentPage - 1) * pageSize) (currentPage * pageSize).

Definition totalPages {A : Type} (records : list A) : Z := totalPagesOf itemsPerPage records.

Definition paginatedHotels (currentPage : Z) {A : Type} (records : list A) : list A :=
  paginate itemsPerPage currentPage records.

End Dashboard.

(** ** Objects used as maps

    An object is the list of its own properties in creation order.  Reading
    [obj[key]] also sees the members every object created by [{}] inherits
    from [Object.prototype]. *)

Module JsObject.

Definition object (V : Type) : Type := list (string * V).

Definition prototypeNames : list string :=
  [ "constructor"; "hasOwnProperty"; "isPrototypeOf"; "propertyIsEnumerable";
    "toLocaleString"; "toString"; "valueOf"; "__defineGetter__";
    "__defineSetter__"; "__lookupGetter__"; "__lookupSetter__"; "__proto__" ]%string.

Definition isInherited (key : string) : bool :=
  existsb (String.eqb key) prototypeNames.

Fixpoint getOwn {V : Type} (obj : object V) (key : string) : option V :=
  match obj with
  | [] => None
  | (k, v) :: rest => if String.eqb k key then Some v else getOwn rest key
  end.

(** [obj[key] = v]: an existing own property keeps its place. *)
Fixpoint set {V : Type} (obj : object V) (key : string) (v : V) : object V :=
  match obj with
  | [] => [(key, v)]
  | (k, w) :: rest =>
      if String.eqb k key then (k, v) :: rest else (k, w) :: set rest key v
  end.

(** [obj[key] = v] on an object created by [{}], for a value [v] that is
    no object.  The name [__proto__] is an accessor of [Object.prototype]:
    assigning [null] changes the prototype, assigning another such value
    does nothing, and in both cases the object gets no own property. *)
Definition assign {V : Type} (obj : object V) (key : string) (v : V) : object V :=
  if String.eqb key "__proto__" then obj else set obj key v.

Fixpoint allDigits (s : string) : bool :=
  match s with
  | EmptyString => true
  | String c rest =>
      (48 <=? JsString.code c) && (JsString.code c <=? 57) && allDigits rest
  end.

(** The array index a property name denotes, if any: a decimal numeral
    with no leading zero, below 2^32 - 1. *)
Definition arrayIndex (key : string) : option Z :=
  match key with
  | EmptyString => None
  | String c rest =>
      if allDigits key && (negb (JsString.code c =? 48) || JsString.isEmpty rest) then
        match JsString.digits 10 key None with
        | Some n => if n <? 4294967295 then Some n else None
        | None => None
        end
      else None
  end.

Fixpoint insertIndexed {V : Type} (n : Z) (p : string * V)
         (l : list (Z * (string * V))) : list (Z * (string * V)) :=
  match l with
  | [] => [(n, p)]
  | (m, q) :: rest =>
      if n <=? m then (n, p) :: l else (m, q) :: insertIndexed n p rest
  end.

Fixpoint indexed {V : Type} (obj : object V) : list (Z * (string * V)) :=
  match obj with
  | [] => []
  | (k, v) :: rest =>
      match arrayIndex k with
      | Some n => insertIndexed n (k, v) (indexed rest)
      | None => indexed rest
      end
  end.

Definition named {V : Type} (obj : object V) : list (string * V) :=
  filter (fun p => match arrayIndex (fst p) with Some _ => false | None => true end) obj.

(** [Object.entries(obj)]: array-index names first, in ascending numeric
    order, then the other names in creation order. *)
Definition entries {V : Type} (obj : object V) : list (string * V) :=
  map snd (indexed obj) ++ named obj.

End JsObject.

(** ** dataTransform.js *)

Module DataTransform.

Import JsObject.
Local Open Scope string_scope.

(** Records are data: primitive values, arrays, and objects that hold data
    properties.  A [VBuiltin] is a function or another object of the host,
    such as [Object.prototype.toString], which a path can reach through a
    prototype; it is known by a name. *)
#[warnings="-register-all"]
Inductive value : Type :=
| VUndefined
| VNull
| VBool (b : bool)
| VNum (x : Double.number)
| VStr (s : string)
| VArr (elems : list value)
| VObj (props : list (string * value))
| VBuiltin (name : string).

Definition isNullish (v : value) : bool :=
  match v with
  | VUndefined | VNull => true
  | _ => false
  end.

(** What the host decides.  The objects of the data are plain objects,
    whose prototype is [Object.prototype].  [Number_toString] is the
    string form of a number.  [inheritedGet v key] is the read [v[key]] when [key] names no
    own data property of [v]: it goes up the prototype chain of [v] and may
    run an accessor, which may throw.  [callToString v] is the string
    conversion of a value that runs a function: [toString] or [valueOf] of
    a built-in object, or a function the data holds.  [spreadFits n] tells
    whether a call with [n] spread arguments fits the call stack. *)
Record Host : Type := {
  Number_toString : Double.number -> string;
  inheritedGet : value -> string -> result value;
  callToString : value -> result string;
  spreadFits : nat -> bool
}.

Inductive GroupBy : Type :=
| Single (key : string)
| Multiple (keys : list string).

Record SortBy : Type := {
  sortField : string;
  sortOrder : option string
}.

(** The options object.  [aggregations] lists the own properties of the
    object given by the caller, [[]] when the caller gives none; an absent
    options object has no [groupBy].  [filterFn] is a callback of the
    caller: it answers for a record or throws. *)
Record Options : Type := {
  groupBy : option GroupBy;
  aggregations : object string;
  sortBy : option SortBy;
  filterFn : option (value -> result bool)
}.

(** One element of the returned array: the object
    [{ ...groupIdentity, aggregates, items, count }], and the reads
    [grp.items], [grp.aggregates] and [grp.count] of its own properties. *)
Definition Group : Type := object value.

Definition items (grp : Group) : list value :=
  match getOwn grp "items" with
  | Some (VArr elems) => elems
  | _ => []
  end.

Definition aggregates (grp : Group) : object value :=
  match getOwn grp "aggregates" with
  | Some (VObj props) => props
  | _ => []
  end.

Definition count (grp : Group) : value :=
  match getOwn grp "count" with
  | Some v => v
  | None => VUndefined
  end.

(** [filterFn ? arr.filter(filterFn) : arr]. *)
Definition filteredItems (filterFn : option (value -> result bool)) (arr : list value)
  : result (list value) :=
  match filterFn with
  | Some f => filterM f arr
  | None => Ok arr
  end.

(** [values.reduce((sum, v) => sum + v, 0)]. *)
Definition sumOf (values : list Double.number) : Double.number :=
  fold_left PrimFloat.add values PrimFloat.zero.

(** [vals.filter(val => typeof val === 'number')]. *)
Fixpoint numbers (vals : list value) : list Double.number :=
  match vals with
  | [] => []
  | VNum x :: rest => x :: numbers rest
  | _ :: rest => numbers rest
  end.

(** The stable sort of [result.sort(cmp)]: an element goes before the
    first one it does not follow.  It follows another when the comparator
    is above 0; [NaN] counts as 0.  Every stable sort gives this order
    when the comparator is consistent; when it is not, which takes a
    [NaN] among the values compared, the language leaves the order to
    the host, and this is the order of one host. *)
Fixpoint insertBy {A : Type} (cmp : A -> A -> Double.number) (x : A) (l : list A)
  : list A :=
  match l with
  | [] => [x]
  | y :: rest =>
      if PrimFloat.ltb PrimFloat.zero (cmp x y) then y :: insertBy cmp x rest
      else x :: l
  end.

Definition sortWith {A : Type} (cmp : A -> A -> Double.number) (l : list A) : list A :=
  fold_right (insertBy cmp) [] l.

Section WithHost.

Variable host : Host.

(** [acc?.[key]]: [undefined] on [null] and [undefined]; an own property
    of an object, an element or the length of an array, a character or the
    length of a string; every other read is the host's. *)
Definition getProp (acc : value) (key : string) : result value :=
  match acc with
  | VUndefined | VNull => Ok VUndefined
  | VObj props =>
      match getOwn props key with
      | Some v => Ok v
      | None => inheritedGet host acc key
      end
  | VArr elems =>
      match arrayIndex key with
      | Some n =>
          match nth_error elems (Z.to_nat n) with
          | Some v => Ok v
          | None => inheritedGet host acc key
          end
      | None =>
          if String.eqb key "length"
          then Ok (VNum (Double.ofNat (List.length elems)))
          else inheritedGet host acc key
      end
  | VStr s =>
      match arrayIndex key with
      | Some n =>
          match String.get (Z.to_nat n) s with
          | Some c => Ok (VStr (String c EmptyString))
          | None => inheritedGet host acc key
          end
      | None =>
          if String.eqb key "length"
          then Ok (VNum (Double.ofNat (String.length s)))
          else inheritedGet host acc key
      end
  | VBool _ | VNum _ | VBuiltin _ => inheritedGet host acc key
  end.

(** The string form of a value.  An array is the comma-join of its
    elements.  An object with no own [toString] has the one of
    [Object.prototype], which gives [[object Object]]; an own [toString]
    that is no function is passed over, [valueOf] is tried, and when that
    is no function of the data either the conversion throws. *)
Fixpoint toString (v : value) : result string :=
  match v with
  | VUndefined => Ok "undefined"
  | VNull => Ok "null"
  | VBool true => Ok "true"
  | VBool false => Ok "false"
  | VNum x => Ok (Number_toString host x)
  | VStr s => Ok s
  | VArr elems =>
      parts <- mapM (fun e => match e with
                              | VUndefined | VNull => Ok EmptyString
                              | _ => toString e
                              end) elems ;;
      Ok (JsString.join "," parts)
  | VObj props =>
      match getOwn props "toString" with
      | None => Ok "[object Object]"
      | Some (VBuiltin _) => callToString host v
      | Some _ =>
          match getOwn props "valueOf" with
          | Some (VBuiltin _) => callToString host v
          | _ => Throw (TypeError "Cannot convert object to primitive value")
          end
      end
  | VBuiltin _ => callToString host v
  end.

(** The string an array element contributes to [join]: empty for
    [undefined] and [null], the string form of the value otherwise. *)
Definition joinElement (v : value) : result string :=
  if isNullish v then Ok EmptyString else toString v.

Definition getNestedValue (obj : value) (path : string) : result value :=
  reduceM getProp (JsString.split "." path) obj.

Definition groupKeys (groupBy : GroupBy) : list string :=
  match groupBy with
  | Single key => [key]
  | Multiple keys => keys
  end.

(** [keys.map(key => getNestedValue(item, key)).join('|')]: every path is
    resolved, then every value is turned into a string. *)
Definition createGroupKey (groupBy : GroupBy) (item : value) : result string :=
  vals <- mapM (getNestedValue item) (groupKeys groupBy) ;;
  parts <- mapM joinElement vals ;;
  Ok (JsString.join "|" parts).

(** The callback of [items.reduce]: [if (!acc[key]) acc[key] = [];
    acc[key].push(item)].  An own property holds an array, which is
    truthy; an inherited member is truthy too and has no [push]. *)
Definition groupStep (groupBy : GroupBy) (acc : object (list value)) (item : value)
  : result (object (list value)) :=
  key <- createGroupKey groupBy item ;;
  match getOwn acc key with
  | Some members => Ok (set acc key (members ++ [item])%list)
  | None =>
      if isInherited key
      then Throw (TypeError "acc[key].push is not a function")
      else Ok (set acc key [item])
  end.

Definition groupItems (groupBy : GroupBy) (items : list value)
  : result (object (list value)) :=
  reduceM (groupStep groupBy) items [].

(** [k.split('.').pop()]. *)
Definition lastSegment (k : string) : string :=
  last (JsString.split "." k) EmptyString.

(** The callback of [keys.reduce] in the map over the groups, with the
    position [i] it is called with. *)
Definition identityStep (parts : list string) (st : object value * nat) (k : string)
  : object value * nat :=
  let '(acc, i) := st in
  (assign acc (lastSegment k)
          (match nth_error parts i with
           | Some s => VStr s
           | None => VUndefined
           end),
   S i).

Definition groupIdentity (groupBy : GroupBy) (key : string) : object value :=
  fst (fold_left (identityStep (JsString.split "|" key)) (groupKeys groupBy) ([], O)).

(** [acc[field] = null].  On the name [__proto__] the assignment gives
    [acc] no own property and sets its prototype to [null]: the list then
    holds the pair of [__proto__] and [null], which stands for that
    prototype.  No other assignment of the program changes a prototype. *)
Definition assignNull (acc : object value) (field : string) : object value :=
  set acc field VNull.

Definition hasNullPrototype (obj : object value) : bool :=
  match getOwn obj "__proto__" with
  | Some VNull => true
  | _ => false
  end.

(** [groupItems.map(item => getNestedValue(item, field))
    .filter(val => typeof val === 'number')]. *)
Definition fieldValues (field : string) (groupItems : list value)
  : result (list Double.number) :=
  vals <- mapM (fun item => getNestedValue item field) groupItems ;;
  Ok (numbers vals).

(** The callback of [Object.entries(aggregations).reduce].  [Math.min] and
    [Math.max] are called with the values spread as arguments, which
    throws when they do not fit the call stack. *)
Definition aggregateStep (groupItems : list value) (acc : object value)
           (entry : string * string) : result (object value) :=
  let '(field, aggFn) := entry in
  values <- fieldValues field groupItems ;;
  match values with
  | [] => Ok (assignNull acc field)
  | _ :: _ =>
      if String.eqb aggFn "sum" then
        Ok (assign acc field (VNum (sumOf values)))
      else if String.eqb aggFn "avg" then
        Ok (assign acc field
                   (VNum (PrimFloat.div (sumOf values)
                                        (Double.ofNat (List.length values)))))
      else if String.eqb aggFn "min" then
        if spreadFits host (List.length values)
        then Ok (assign acc field (VNum (Double.Math_min values)))
        else Throw (RangeError "Maximum call stack size exceeded")
      else if String.eqb aggFn "max" then
        if spreadFits host (List.length values)
        then Ok (assign acc field (VNum (Double.Math_max values)))
        else Throw (RangeError "Maximum call stack size exceeded")
      else if String.eqb aggFn "count" then
        Ok (assign acc field (VNum (Double.ofNat (List.length values))))
      else Throw (Error ("Unknown aggregation: " ++ aggFn))
  end.

(** [{ ...groupIdentity, aggregates, items: groupItems,
    count: groupItems.length }].  The own properties of [groupIdentity] are
    copied in the order [Object.entries] lists them, then the three named
    properties are defined: one that [groupIdentity] already gave keeps its
    place and takes the new value. *)
Definition groupObject (groupIdentity aggregates : object value)
           (groupItems : list value) : Group :=
  set (set (set (entries groupIdentity) "aggregates" (VObj aggregates))
           "items" (VArr groupItems))
      "count" (VNum (Double.ofNat (List.length groupItems))).

(** The callback of [Object.entries(groups).map]. *)
Definition summarize (groupBy : GroupBy) (aggs : object string)
           (entry : string * list value) : result Group :=
  let '(key, groupItems) := entry in
  aggregates <- reduceM (aggregateStep groupItems) (entries aggs) [] ;;
  Ok (groupObject (groupIdentity groupBy key) aggregates groupItems).

(** [a.aggregates[field] ?? 0] as the operand of the subtraction.  The
    aggregates object holds numbers and [null] only.  For a name it does
    not hold, the read gives [undefined], or a member inherited from
    [Object.prototype], which the subtraction turns into [NaN]; it
    inherits none when its prototype is [null]. *)
Definition aggregateOrZero (field : string) (g : Group) : Double.number :=
  match getOwn (aggregates g) field with
  | Some (VNum x) => x
  | Some _ => PrimFloat.zero
  | None =>
      if isInherited field && negb (hasNullPrototype (aggregates g))
      then PrimFloat.nan else PrimFloat.zero
  end.

Definition sortGroups (sortBy : option SortBy) (result : list Group) : list Group :=
  match sortBy with
  | Some sb =>
      if JsString.isEmpty (sortField sb) then result
      else
        let valOf := aggregateOrZero (sortField sb) in
        let ascending :=
          match sortOrder sb with
          | Some o => String.eqb o "asc"
          | None => true
          end in
        sortWith (fun a b => if ascending then PrimFloat.sub (valOf a) (valOf b)
                             else PrimFloat.sub (valOf b) (valOf a)) result
  | None => result
  end.

Definition isFalsyGroupBy (g : option GroupBy) : bool :=
  match g with
  | None => true
  | Some (Single key) => JsString.isEmpty key
  | Some (Multiple _) => false
  end.

Definition transformData (arr : value) (options : Options) : result (list Group) :=
  match arr with
  | VArr elems =>
      match groupBy options with
      | Some g =>
          if isFalsyGroupBy (groupBy options)
          then Throw (Error "options.groupBy is required")
          else
            items <- filteredItems (filterFn options) elems ;;
            groups <- groupItems g items ;;
            result <- mapM (summarize g (aggregations options)) (entries groups) ;;
            Ok (sortGroups (sortBy options) result)
      | None => Throw (Error "options.groupBy is required")
      end
  | _ => Throw (Error "First argument must be an array")
  end.

End WithHost.

End DataTransform.

(** * Sample records *)

Module DashboardSamples.

Import Dashboard.
Local Open Scope string_scope.

(** Two hotels with the same price and different ratings. *)
Definition mountainStay : Hotel :=
  {| id := 3; name := "Mountain Stay"; city := "Chiang Mai"; price := 100;
     rating := 48 # 10; amenities := ["WiFi"; "Gym"; "Spa"];
     availability := {| checkIn := "2025-01-05"; checkOut := "2025-01-30" |} |}.

Definition riverside : Hotel :=
  {| id := 6; name := "Riverside"; city := "Bangkok"; price := 100;
     rating := 42 # 10; amenities := ["WiFi"];
     availability := {| checkIn := "2025-01-05"; checkOut := "2025-01-30" |} |}.

Definition byPriceThenRating : SortConfig :=
  {| field := f_price; order := asc; secondary := Some (f_rating, asc) |}.

Definition stayInJanuary : Availability :=
  {| checkIn := "2025-01-10"; checkOut := "2025-01-20" |}.

(** [Date.parse] on a date-only string [YYYY-MM-DD]: midnight UTC of that
    day.  The sample records hold no other form; other forms are [NaN]
    here. *)
Definition isoDate (s : string) : JsDate.Date :=
  match JsString.split "-" s with
  | [y; m; d] =>
      if (String.length y =? 4)%nat && (String.length m =? 2)%nat
         && (String.length d =? 2)%nat
         && JsObject.allDigits y && JsObject.allDigits m && JsObject.allDigits d
      then
        match JsString.digits 10 y None, JsString.digits 10 m None,
              JsString.digits 10 d None with
        | Some yy, Some mm, Some dd =>
            let leap := JsDate.InLeapYear yy in
            let monthLength :=
              JsDate.daysBeforeMonth leap mm
              - JsDate.daysBeforeMonth leap (mm - 1) in
            if ((1 <=? mm) && (mm <=? 11) && (1 <=? dd) && (dd <=? monthLength)
                || (mm =? 12) && (1 <=? dd) && (dd <=? 31))%Z
            then JsDate.TimeClip (JsDate.MakeDate (JsDate.MakeDay yy (mm - 1) dd) 0)
            else None
        | _, _, _ => None
        end
      else None
  | _ => None
  end.

Definition hotel (id : Z) (name city : string) (price : Z) (rating : Q)
           (amenities : list string) (checkIn checkOut : string) : Hotel :=
  {| id := inject_Z id; name := name; city := city; price := inject_Z price;
     rating := rating; amenities := amenities;
     availability := {| checkIn := checkIn; checkOut := checkOut |} |}.

Definition HOTELS : list Hotel :=
  [ hotel 1 "Agoda Palace" "Bangkok" 120 (45 # 10) ["WiFi"; "Pool"; "Gym"]
          "2025-01-15" "2025-01-20";
    hotel 2 "Seaside View" "Phuket" 80 (42 # 10) ["WiFi"; "Beach"]
          "2025-01-10" "2025-01-25";
    hotel 3 "Mountain Stay" "Chiang Mai" 100 (48 # 10) ["WiFi"; "Gym"; "Spa"]
          "2025-01-05" "2025-01-30";
    hotel 4 "Urban Loft" "Bangkok" 150 (46 # 10) ["WiFi"; "Pool"]
          "2025-01-12" "2025-01-18";
    hotel 5 "Tropical Resort" "Phuket" 200 (49 # 10) ["WiFi"; "Pool"; "Beach"; "Spa"]
          "2025-01-08" "2025-01-22" ].

(** The initial filter state of the component. *)
Definition noFilter : FilterState :=
  {| search := ""; priceRange := (0%Q, 300%Q); filterAmenities := []; minRating := 0%Q;
     dateRange := {| checkIn := ""; checkOut := "" |} |}.

(** The names of the hotels a filter state keeps, at UTC. *)
Definition namesKept (filters : FilterState) : list string :=
  map name (filter (hotelFilter JsDate.utc isoDate filters) HOTELS).

End DashboardSamples.

(** * Specification vocabulary and sample data for transformData *)

Module DataTransformSpec.

Import JsObject DataTransform.
Local Open Scope string_scope.

Section Grouping.

Variable host : Host.
Variable g : GroupBy.

(** The group key of [item] is computed and is [k]. *)
Definition keyIs (k : string) (item : value) : bool :=
  match createGroupKey host g item with
  | Ok k' => String.eqb k' k
  | Throw _ => false
  end.

(** The records of [items] whose group key is [k], in input order. *)
Definition bucket (k : string) (items : list value) : list value :=
  filter (keyIs k) items.

(** What the accumulator of the grouping loop holds once [items] have
    been visited: the group key of every record was computed, and there
    is one own property for each key met, holding the records with that
    key in input order. *)
Record grouped (items : list value) (acc : object (list value)) : Prop := {
  grouped_keyed : forall item, In item items ->
                               exists k, createGroupKey host g item = Ok k;
  grouped_keys : NoDup (map fst acc);
  grouped_get : forall k,
      getOwn acc k = match bucket k items with
                     | [] => None
                     | ms => Some ms
                     end;
  grouped_all : Permutation (List.concat (map snd acc)) items
}.

End Grouping.

(** The group key of every record of [items] is computed: no read and no
    string conversion throws. *)
Definition keysComputed (host : Host) (g : GroupBy) (items : list value) : bool :=
  forallb (fun item => match createGroupKey host g item with
                       | Ok _ => true
                       | Throw _ => false
                       end) items.

(** The closed set of aggregation kinds, and the two whose statistic is
    computed by a call with the values spread as arguments. *)
Definition knownKind (kind : string) : bool :=
  existsb (String.eqb kind) ["sum"; "avg"; "min"; "max"; "count"].

Definition spreads (kind : string) : bool :=
  String.eqb kind "min" || String.eqb kind "max".

Definition hasNaN (values : list Double.number) : bool :=
  existsb Double.isNaN values.

(** In the representation the operations of the doubles are specified
    on: a finite number that is not 0, or an infinity, of sign [s]. *)
Definition signed (s : bool) (x : SpecFloat.spec_float) : Prop :=
  (exists m e, x = SpecFloat.S754_finite s m e) \/ x = SpecFloat.S754_infinity s.

(** The statistic of kind [kind] over the numeric values [values], as the
    specification words it: [null] over no value; otherwise the total of
    the values, added in doubles from 0 in member order; that total
    divided by the number of values; a least or a greatest of the values,
    which is [NaN] when a value is [NaN]; or the number of values. *)
Inductive statistic : string -> list Double.number -> value -> Prop :=
| statistic_null kind :
    statistic kind [] VNull
| statistic_sum values :
    values <> [] ->
    statistic "sum" values (VNum (fold_left PrimFloat.add values PrimFloat.zero))
| statistic_avg values :
    values <> [] ->
    statistic "avg" values
              (VNum (PrimFloat.div (fold_left PrimFloat.add values PrimFloat.zero)
                                   (Double.ofNat (List.length values))))
| statistic_min values x :
    values <> [] ->
    (hasNaN values = true -> Double.isNaN x = true) ->
    (hasNaN values = false ->
     In x values /\ forall v, In v values -> PrimFloat.leb x v = true) ->
    statistic "min" values (VNum x)
| statistic_max values x :
    values <> [] ->
    (hasNaN values = true -> Double.isNaN x = true) ->
    (hasNaN values = false ->
     In x values /\ forall v, In v values -> PrimFloat.leb v x = true) ->
    statistic "max" values (VNum x)
| statistic_count values :
    values <> [] ->
    statistic "count" values (VNum (Double.ofNat (List.length values))).

(** The outcome of a step, by the values of the field and the kind. *)
Inductive stepOutcome (host : Host) (acc : object value) (field kind : string)
          (values : list Double.number) : result (object value) -> Prop :=
| outcome_null :
    values = [] -> stepOutcome host acc field kind values (Ok (assignNull acc field))
| outcome_value v :
    values <> [] -> knownKind kind = true ->
    (spreads kind = true -> spreadFits host (List.length values) = true) ->
    statistic kind values v ->
    stepOutcome host acc field kind values (Ok (assign acc field v))
| outcome_stack :
    values <> [] -> spreads kind = true ->
    spreadFits host (List.length values) = false ->
    stepOutcome host acc field kind values
                (Throw (RangeError "Maximum call stack size exceeded"))
| outcome_unknown :
    values <> [] -> knownKind kind = false ->
    stepOutcome host acc field kind values (Throw (Error ("Unknown aggregation: " ++ kind))).

Definition isNumber (v : value) : bool :=
  match v with
  | VNum _ => true
  | _ => false
  end.

(** [s] holds the character [c]. *)
Fixpoint contains (c : ascii) (s : string) : bool :=
  match s with
  | EmptyString => false
  | String d rest => Ascii.eqb d c || contains c rest
  end.

(** The string the path [path] contributes to the group key of [item],
    when the path resolves and the value has a string form. *)
Definition keyPart (host : Host) (item : value) (path : string) : result string :=
  v <- getNestedValue host item path ;; joinElement host v.

(** No record of [items] has the delimiter in the string its field [path]
    contributes to the group key. *)
Definition noDelimiter (host : Host) (path : string) (items : list value) : bool :=
  forallb (fun item =>
             match keyPart host item path with
             | Ok part => negb (contains "|" part)
             | Throw _ => false
             end)
          items.

(** The strings the paths of [groupBy] contribute to the key of [item]
    hold no delimiter. *)
Definition noDelimiterInKey (host : Host) (g : GroupBy) (item : value) : bool :=
  forallb (fun path =>
             match keyPart host item path with
             | Ok part => negb (contains "|" part)
             | Throw _ => false
             end)
          (groupKeys g).

(** The group key of every record of [items] is computed and names no
    member of [Object.prototype]. *)
Definition noInheritedKey (host : Host) (g : GroupBy) (items : list value) : bool :=
  forallb (fun item => match createGroupKey host g item with
                       | Ok k => negb (isInherited k)
                       | Throw _ => false
                       end) items.

(** Every field of the aggregations resolves on every record of [items]:
    no read throws. *)
Definition fieldsResolve (host : Host) (aggs : object string) (items : list value)
  : bool :=
  forallb (fun item =>
             forallb (fun entry => match getNestedValue host item (fst entry) with
                                   | Ok _ => true
                                   | Throw _ => false
                                   end) aggs)
          items.

(** In the group of every record of [items], every field of the
    aggregations resolves on every member and, where it has numeric
    values, its kind is one of the five and its statistic fits the call
    stack. *)
Definition aggregatesComputed (host : Host) (g : GroupBy) (aggs : object string)
           (items : list value) : bool :=
  forallb (fun item =>
             match createGroupKey host g item with
             | Ok k =>
                 forallb (fun entry =>
                            match fieldValues host (fst entry) (bucket host g k items) with
                            | Ok [] => true
                            | Ok values =>
                                knownKind (snd entry)
                                && (negb (spreads (snd entry))
                                    || spreadFits host (List.length values))
                            | Throw _ => false
                            end) aggs
             | Throw _ => false
             end)
          items.

(** The condition under which the call returns, once the filter has
    returned [items]: [groupBy] is truthy, no group key names a member of
    [Object.prototype], and the aggregates are computed. *)
Definition returns (host : Host) (g : GroupBy) (opts : Options) (items : list value)
  : bool :=
  negb (isFalsyGroupBy (Some g))
  && noInheritedKey host g items
  && aggregatesComputed host g (aggregations opts) items.

(** A call with up to [n] spread arguments fits the call stack. *)
Definition spreadsFit (host : Host) (n : nat) : bool :=
  forallb (spreadFits host) (seq 1 n).

(** The options [opts] with another [groupBy], and with no [sortBy]. *)
Definition withGroupBy (g : GroupBy) (opts : Options) : Options :=
  {| groupBy := Some g; aggregations := aggregations opts;
     sortBy := sortBy opts; filterFn := filterFn opts |}.

Definition withoutSortBy (opts : Options) : Options :=
  {| groupBy := groupBy opts; aggregations := aggregations opts;
     sortBy := None; filterFn := filterFn opts |}.

Definition isArray (v : value) : bool :=
  match v with
  | VArr _ => true
  | _ => false
  end.

(** Whether [sortBy] asks for ascending order: [order] is ['asc'] or absent. *)
Definition isAscending (sb : SortBy) : bool :=
  match sortOrder sb with
  | Some o => String.eqb o "asc"
  | None => true
  end.

(** The names the result object defines after the spread of
    [groupIdentity], and [__proto__], which no assignment makes an own
    property. *)
Definition isReservedName (name : string) : bool :=
  existsb (String.eqb name) ["aggregates"; "items"; "count"; "__proto__"].

End DataTransformSpec.

(** * Sample host and sample data for transformData *)

Module TransformSamples.

Import JsObject DataTransform DataTransformSpec.
Import PrimFloat.
Local Open Scope float_scope.
Local Open Scope string_scope.

(** The string form of a whole number; the samples hold no other
    number, and the fraction of another one is dropped. *)
Definition wholeNumberToString (x : float) : string :=
  match FloatOps.Prim2SF x with
  | SpecFloat.S754_zero _ => "0"
  | SpecFloat.S754_infinity false => "Infinity"
  | SpecFloat.S754_infinity true => "-Infinity"
  | SpecFloat.S754_nan => "NaN"
  | SpecFloat.S754_finite s m e =>
      let z := if (0 <=? e)%Z then (Zpos m * 2 ^ e)%Z else (Zpos m / 2 ^ (- e))%Z in
      NilZero.string_of_int (Z.to_int (if s then (- z)%Z else z))
  end.

(** The reads the examples make beyond own properties.  An object made
    by a literal inherits the members of [Object.prototype]; a built-in
    function has a [name]. *)
Definition sampleGet (v : value) (key : string) : result value :=
  match v with
  | VObj _ =>
      if String.eqb key "constructor" then Ok (VBuiltin "Object")
      else if String.eqb key "__proto__" then Ok (VBuiltin "Object.prototype")
      else if isInherited key then Ok (VBuiltin key)
      else Ok VUndefined
  | VBuiltin "Object.prototype" => Ok VUndefined
  | VBuiltin name =>
      if String.eqb key "name" then Ok (VStr name) else Ok VUndefined
  | _ => Ok VUndefined
  end.

Definition sampleToString (v : value) : result string :=
  match v with
  | VBuiltin "Object.prototype" => Ok "[object Object]"
  | VBuiltin name => Ok ("function " ++ name ++ "() { [native code] }")
  | _ => Throw (TypeError "Cannot convert object to primitive value")
  end.

Definition sampleHost : Host :=
  {| Number_toString := wholeNumberToString;
     inheritedGet := sampleGet;
     callToString := sampleToString;
     spreadFits := fun n => (Z.of_nat n <=? 100000)%Z |}.

(** The same host with a call stack that holds two arguments. *)
Definition smallStackHost : Host :=
  {| Number_toString := wholeNumberToString;
     inheritedGet := sampleGet;
     callToString := sampleToString;
     spreadFits := fun n => (Z.of_nat n <=? 2)%Z |}.

(** The bookings of the test section of [dataTransform.js]. *)
Definition booking (id : float) (category city country : string) (price : float)
           (extra : string) (n : float) : value :=
  VObj [ ("id", VNum id); ("category", VStr category);
         ("location", VObj [("city", VStr city); ("country", VStr country)]);
         ("price", VNum price); (extra, VNum n) ].

Definition booking1 : value := booking 1 "Hotel" "Bangkok" "TH" 120 "nights" 2.
Definition booking2 : value := booking 2 "Flight" "Tokyo" "JP" 450 "passengers" 1.
Definition booking3 : value := booking 3 "Hotel" "Bangkok" "TH" 80 "nights" 3.
Definition booking4 : value := booking 4 "Hotel" "Dubai" "AE" 200 "nights" 1.
Definition booking5 : value := booking 5 "Flight" "Bangkok" "TH" 300 "passengers" 2.

Definition bookings : list value :=
  [booking1; booking2; booking3; booking4; booking5].

Definition groupedBy (g : GroupBy) (aggs : object string) : Options :=
  {| groupBy := Some g; aggregations := aggs; sortBy := None; filterFn := None |}.

Definition emptyCategory : value := VObj [("id", VNum 1); ("category", VStr "")].
Definition noCategory : value := VObj [("id", VNum 2)].

Definition barInCategory : value :=
  VObj [("category", VStr "a|b"); ("location", VObj [("city", VStr "c")])].
Definition barInCity : value :=
  VObj [("category", VStr "a"); ("location", VObj [("city", VStr "b|c")])].

Definition categoryConstructor : value :=
  VObj [("id", VNum 1); ("category", VStr "constructor"); ("price", VNum 120)].


Definition twoTo53 : float := 9007199254740992.
Definition one : float := 1.

(** A record whose category is an object with an own [toString] that is
    no function. *)
Definition categoryWithToString : value :=
  VObj [("category", VObj [("toString", VNum one)])].

Definition hotelWithoutPrice : value := VObj [("category", VStr "Hotel")].
Definition hotelWithPrice : value :=
  VObj [("category", VStr "Hotel"); ("price", VNum 120)].

(** The records with a price above 100, the filter of the fourth test of
    [dataTransform.js]: [item => item.price > 100]. *)
Definition priceAbove100 (item : value) : result bool :=
  price <- getProp sampleHost item "price" ;;
  match price with
  | VNum x => Ok (PrimFloat.ltb 100 x)
  | _ => Ok false
  end.

(** A filter that throws on the records of Dubai. *)
Definition rejectDubai (item : value) : result bool :=
  city <- getNestedValue sampleHost item "location.city" ;;
  match city with
  | VStr "Dubai" => Throw (Thrown "no Dubai")
  | _ => Ok true
  end.

(** The fourth test of [dataTransform.js], and the group of the hotels it
    returns. *)
Definition expensiveByCategory : Options :=
  {| groupBy := Some (Single "category"); aggregations := [("price", "sum")];
     sortBy := None; filterFn := Some priceAbove100 |}.

Definition hotelsAbove100 : Group :=
  [ ("category", VStr "Hotel");
    ("aggregates", VObj [("price", VNum 320)]);
    ("items", VArr [booking1; booking4]);
    ("count", VNum 2) ].

(** The first test of [dataTransform.js]. *)
Definition byPriceDescending : Options :=
  {| groupBy := Some (Single "category");
     aggregations := [("price", "sum"); ("nights", "avg")];
     sortBy := Some {| sortField := "price"; sortOrder := Some "desc" |};
     filterFn := None |}.

(** The third test of [dataTransform.js] and the first group it returns. *)
Definition byCategoryAndCity : Options :=
  groupedBy (Multiple ["category"; "location.city"]) [("price", "min")].

Definition hotelsInBangkok : Group :=
  [ ("category", VStr "Hotel"); ("city", VStr "Bangkok");
    ("aggregates", VObj [("price", VNum 80)]);
    ("items", VArr [booking1; booking3]);
    ("count", VNum 2) ].

(** A record whose field [count] is grouped on. *)
Definition withCount (n : float) : value := VObj [("count", VNum n)].

End TransformSamples.

(** * HotelBookingDashboard.tsx: state, handlers and URL *)

Module DashboardState.

Import Dashboard.
Local Open Scope string_scope.

(** [a === b] on two field names. *)
Definition fieldEqb (a b : HotelField) : bool :=
  match a, b with
  | f_id, f_id | f_name, f_name | f_city, f_city | f_price, f_price
  | f_rating, f_rating | f_amenities, f_amenities
  | f_availability, f_availability => true
  | _, _ => false
  end.

(** The state update of [handleSort]. *)
Definition handleSort (clicked : HotelField) (prev : SortConfig) : SortConfig :=
  {| field := clicked;
     order := if fieldEqb (field prev) clicked
                 && match order prev with asc => true | desc => false end
              then desc else asc;
     secondary := if negb (fieldEqb (field prev) clicked)
                  then Some (field prev, order prev)
                  else None |}.

(** The state update of [handleAmenityToggle]. *)
Definition handleAmenityToggle (amenity : string) (prev : FilterState) : FilterState :=
  {| search := search prev;
     priceRange := priceRange prev;
     filterAmenities :=
       if JsArray.includes (filterAmenities prev) amenity
       then filter (fun a => negb (String.eqb a amenity)) (filterAmenities prev)
       else (filterAmenities prev ++ [amenity])%list;
     minRating := minRating prev;
     dateRange := dateRange prev |}.

(** The state update that stores the debounced search text. *)
Definition setSearch (debouncedSearch : string) (prev : FilterState) : FilterState :=
  {| search := debouncedSearch;
     priceRange := priceRange prev;
     filterAmenities := filterAmenities prev;
     minRating := minRating prev;
     dateRange := dateRange prev |}.

(** The state [handleClearFilters] sets, which is also the state of a
    first visit. *)
Definition defaultFilters : FilterState :=
  {| search := ""; priceRange := (0%Q, 300%Q); filterAmenities := [];
     minRating := 0%Q; dateRange := {| checkIn := ""; checkOut := "" |} |}.

Definition activeFilterCount (filters : FilterState) : Z :=
  (if negb (JsString.isEmpty (search filters)) then 1 else 0)
  + (if JsNumber.gt (fst (priceRange filters)) 0
        || JsNumber.lt (snd (priceRange filters)) 300 then 1 else 0)
  + (if negb (Nat.eqb (List.length (filterAmenities filters)) 0) then 1 else 0)
  + (if JsNumber.gt (minRating filters) 0 then 1 else 0)
  + (if negb (JsString.isEmpty (checkIn (dateRange filters)))
        || negb (JsString.isEmpty (checkOut (dateRange filters))) then 1 else 0).

(** The updates of the page buttons: [Math.max(1, p - 1)] and
    [Math.min(totalPages, p + 1)]. *)
Definition previousPage (p : Z) : Z := Z.max 1 (p - 1).

Definition nextPage (totalPages p : Z) : Z := Z.min totalPages (p + 1).

(** The values [currentPage] takes.  It starts at 1 ([useState(1)]) and
    every handler of a filter sets it back to 1; the two page buttons,
    which are rendered only when [totalPages > 1], are the only other
    updates, with the [totalPages] of the render they are clicked in. *)
Inductive reachablePage : Z -> Prop :=
| page_first : reachablePage 1
| page_previous (p : Z) : reachablePage p -> reachablePage (previousPage p)
| page_next (totalPages p : Z) :
    (1 < totalPages)%Z -> reachablePage p -> reachablePage (nextPage totalPages p).

(** [new Set(arr)] read back as an array: the first occurrence of each
    string, in order. *)
Fixpoint distinct (arr : list string) : list string :=
  match arr with
  | [] => []
  | x :: rest => x :: filter (fun y => negb (String.eqb y x)) (distinct rest)
  end.

(** [arr.sort()] on strings: ascending by code units. *)
Fixpoint insertSorted (x : string) (sorted : list string) : list string :=
  match sorted with
  | [] => [x]
  | y :: rest => if JsString.gt x y then y :: insertSorted x rest else x :: sorted
  end.

Definition sortStrings (arr : list string) : list string :=
  fold_right insertSorted [] arr.

Definition allAmenities (HOTELS : list Hotel) : list string :=
  sortStrings (distinct (flat_map amenities HOTELS)).

(** The query of the URL is the list of the pairs set on it, and is read
    back as that list; [get] gives the value of the first pair with the
    name. *)
Definition paramGet (params : list (string * string)) (name : string) : option string :=
  JsObject.getOwn params name.

Section Url.

(** [String(n)] and [Number(s)] of the host; [NaN] is [None]. *)
Variable Number_toString : Q -> string.
Variable Number_ofString : string -> option Q.

(** The parameters the effect of [useHotelFilters] writes to the URL. *)
Definition urlParams (filters : FilterState) : list (string * string) :=
  ((if negb (JsString.isEmpty (search filters))
    then [("search", search filters)] else [])
   ++ (if JsNumber.gt (fst (priceRange filters)) 0
       then [("minPrice", Number_toString (fst (priceRange filters)))] else [])
   ++ (if JsNumber.lt (snd (priceRange filters)) 300
       then [("maxPrice", Number_toString (snd (priceRange filters)))] else [])
   ++ (if negb (Nat.eqb (List.length (filterAmenities filters)) 0)
       then [("amenities", JsString.join "," (filterAmenities filters))] else [])
   ++ (if JsNumber.gt (minRating filters) 0
       then [("minRating", Number_toString (minRating filters))] else [])
   ++ (if negb (JsString.isEmpty (checkIn (dateRange filters)))
       then [("checkIn", checkIn (dateRange filters))] else [])
   ++ (if negb (JsString.isEmpty (checkOut (dateRange filters)))
       then [("checkOut", checkOut (dateRange filters))] else []))%list.

(** [Number(params.get(name)) || fallback]: an absent parameter reads as
    0, and 0 and [NaN] give the fallback. *)
Definition numberOr (fallback : Q) (param : option string) : Q :=
  match param with
  | None => fallback
  | Some s =>
      match Number_ofString s with
      | Some q => if Qeq_bool q 0 then fallback else q
      | None => fallback
      end
  end.

(** [params.get(name) || '']. *)
Definition stringOrEmpty (param : option string) : string :=
  match param with
  | Some s => s
  | None => ""
  end.

(** [getInitialFilters] on the parameters of the URL and on the filter
    state read from the stored item, if there is one. *)
Definition getInitialFilters (params : list (string * string))
           (stored : option FilterState) : FilterState :=
  match params with
  | [] =>
      match stored with
      | Some filters => filters
      | None => defaultFilters
      end
  | _ :: _ =>
      {| search := stringOrEmpty (paramGet params "search");
         priceRange := (numberOr 0 (paramGet params "minPrice"),
                        numberOr 300 (paramGet params "maxPrice"));
         filterAmenities :=
           match paramGet params "amenities" with
           | Some s => filter (fun a => negb (JsString.isEmpty a)) (JsString.split "," s)
           | None => []
           end;
         minRating := numberOr 0 (paramGet params "minRating");
         dateRange := {| checkIn := stringOrEmpty (paramGet params "checkIn");
                         checkOut := stringOrEmpty (paramGet params "checkOut") |} |}
  end.

End Url.

(** [String(n)] on a whole number, for the sample data. *)
Definition wholeNumberToString (q : Q) : string :=
  NilZero.string_of_int (Z.to_int (Qfloor q)).

(** [Number(s)] on a decimal numeral, for the sample data. *)
Definition wholeNumberOfString (s : string) : option Q :=
  if negb (JsString.isEmpty s) && JsObject.allDigits s
  then option_map inject_Z (JsString.digits 10 s None)
  else None.

(** The number of days of month [m] (1 to 12) of year [y] in the
    calendar. *)
Definition daysInMonth (y m : Z) : Z :=
  match m with
  | 2 => if JsDate.InLeapYear y then 29 else 28
  | 4 | 6 | 9 | 11 => 30
  | _ => 31
  end.

(** The host reads the local midnight [local] back on its own day:
    the date of that local time is valid and its local time is the
    midnight or a later time of the same day.  It is later where the
    midnight falls in the hour a change of offset skips. *)
Definition keepsDay (LocalTZA : Z -> bool -> Z) (local : Z) : bool :=
  match JsDate.TimeClip (JsDate.UTC LocalTZA local) with
  | Some t =>
      let later := (JsDate.LocalTime LocalTZA t - local)%Z in
      ((0 <=? later) && (later <? JsDate.msPerDay))%Z
  | None => false
  end.

(** The offsets of America/New_York around 2025: five hours behind UTC,
    and four from 2025-03-09T07:00:00Z to 2025-11-02T06:00:00Z.  A local
    time that the change of March skips is read with the offset before
    the change, one that the change of November repeats with the earlier
    of its two instants. *)
Definition newYork2025 (t : Z) (isUTC : bool) : Z :=
  let summerFrom := 1741503600000%Z in
  let summerTo := 1762063200000%Z in
  let instant := if isUTC then t else (t + 14400000)%Z in
  if ((summerFrom <=? instant) && (instant <? summerTo))%Z
  then (-14400000)%Z else (-18000000)%Z.

(** A filter state with every filter active, and one with the maximum
    price at 0. *)
Definition busyFilters : FilterState :=
  {| search := "Bangkok"; priceRange := (100%Q, 150%Q);
     filterAmenities := ["Pool"; "WiFi"]; minRating := 4%Q;
     dateRange := {| checkIn := "2025-01-16"; checkOut := "2025-01-17" |} |}.

Definition freeOnly : FilterState :=
  {| search := ""; priceRange := (0%Q, 0%Q); filterAmenities := [];
     minRating := 0%Q; dateRange := {| checkIn := ""; checkOut := "" |} |}.

Definition twentyThree : list Z :=
  [1; 2; 3; 4; 5; 6; 7; 8; 9; 10; 11; 12; 13; 14; 15; 16; 17; 18; 19; 20; 21; 22; 23].

End DashboardState.


(** * Splitting and joining strings *)

Module StringProofs.

Import DataTransformSpec.
Local Open Scope string_scope.

Lemma split_not_nil (sep : ascii) (s : string) : JsString.split sep s <> [].
Proof.
  destruct s as [| c rest]; cbn; [discriminate |].
  destruct (Ascii.eqb c sep); [discriminate |].
  destruct (JsString.split sep rest); discriminate.
Qed.

Lemma split_append (sep : ascii) (a b : string) :
  JsString.split sep (a ++ String sep b)
  = (JsString.split sep a ++ JsString.split sep b)%list.
Proof.
  induction a as [| c a IH]; cbn.
  - rewrite Ascii.eqb_refl. reflexivity.
  - rewrite IH. destruct (Ascii.eqb c sep); [reflexivity |].
    pose proof (split_not_nil sep a) as Hne.
    destruct (JsString.split sep a); [congruence | reflexivity].
Qed.

Lemma contains_append (c : ascii) (a b : string) :
  contains c (a ++ b) = contains c a || contains c b.
Proof.
  induction a as [| d a IH]; cbn; [reflexivity |].
  rewrite IH, orb_assoc. reflexivity.
Qed.

Lemma split_no_separator (sep : ascii) (s : string) :
  contains sep s = false -> JsString.split sep s = [s].
Proof.
  induction s as [| c s IH]; cbn; [reflexivity |].
  intro H. apply orb_false_iff in H. destruct H as [Hc Hs].
  rewrite Hc, (IH Hs). reflexivity.
Qed.

(** Splitting a join gives the parts back when no part holds the
    separator. *)
Lemma split_join (sep : ascii) (parts : list string) :
  parts <> [] ->
  forallb (fun part => negb (contains sep part)) parts = true ->
  JsString.split sep (JsString.join (String sep EmptyString) parts) = parts.
Proof.
  induction parts as [| p rest IH]; [congruence |].
  intros _ H. cbn [forallb] in H. apply andb_true_iff in H. destruct H as [Hp Hrest].
  apply negb_true_iff in Hp.
  destruct rest as [| p' rest'].
  - cbn. apply split_no_separator. exact Hp.
  - change (JsString.join (String sep EmptyString) (p :: p' :: rest'))
      with (p ++ String sep (JsString.join (String sep EmptyString) (p' :: rest'))).
    rewrite split_append, (split_no_separator _ _ Hp), IH; [reflexivity | discriminate | exact Hrest].
Qed.

(** No part of a split holds the separator. *)
Lemma split_parts_clean (sep : ascii) (s : string) :
  Forall (fun part => contains sep part = false) (JsString.split sep s).
Proof.
  induction s as [| c rest IH]; cbn [JsString.split].
  - repeat constructor.
  - destruct (Ascii.eqb c sep) eqn:E.
    + constructor; [reflexivity | exact IH].
    + destruct (JsString.split sep rest) as [| part parts].
      * repeat constructor. cbn. rewrite E. reflexivity.
      * inversion IH; subst. constructor; [| assumption].
        cbn. rewrite E. assumption.
Qed.

End StringProofs.

(** * Properties of the dashboard *)

Module DashboardProofs.

Import JsDate Dashboard DashboardSamples DashboardState.
Local Open Scope string_scope.

(** ** The sort comparator *)

Lemma compareBy_cases (f : HotelField) (o : Order) (a b : Hotel) :
  compareBy f o a b = 1 \/ compareBy f o a b = -1.
Proof.
  unfold compareBy; destruct o.
  - destruct (fieldGt f a b); auto.
  - destruct (fieldLt f a b); auto.
Qed.

(** The comparator never answers 0, so its secondary branch is never
    taken: a sort configuration with a secondary key compares exactly like
    the same configuration without one. *)
Lemma sortCompare_secondary_unused (f : HotelField) (o : Order)
      (sec : HotelField * Order) (a b : Hotel) :
  sortCompare {| field := f; order := o; secondary := Some sec |} a b
  = sortCompare {| field := f; order := o; secondary := None |} a b.
Proof.
  unfold sortCompare; cbn [field order secondary]; destruct sec as [sf so].
  destruct (compareBy_cases f o a b) as [E | E]; rewrite E; reflexivity.
Qed.

(** C1 (code defect).  For two records that tie on the primary field
    (neither is greater than the other), the comparator answers -1 in both
    directions, whatever the secondary key and its direction: it never
    answers 0 on the primary key, so the secondary comparison is never
    made and the tie is not ordered by the secondary field. *)
Theorem sortCompare_tie_ignores_secondary
        (f : HotelField) (o : Order) (sec : HotelField * Order) (a b : Hotel) :
  fieldGt f a b = false ->
  fieldGt f b a = false ->
  sortCompare {| field := f; order := o; secondary := Some sec |} a b = -1
  /\ sortCompare {| field := f; order := o; secondary := Some sec |} b a = -1.
Proof.
  intros Hab Hba. rewrite !sortCompare_secondary_unused.
  unfold sortCompare, compareBy, fieldLt. cbn [field order secondary].
  destruct o; rewrite Hab, Hba; split; reflexivity.
Qed.

Lemma sortCompare_tie_ignores_secondary_witness :
  sortCompare byPriceThenRating mountainStay riverside = -1
  /\ sortCompare byPriceThenRating riverside mountainStay = -1.
Proof.
  apply (sortCompare_tie_ignores_secondary f_price asc (f_rating, asc)
           mountainStay riverside); reflexivity.
Defined.

(** ** parsePartialDate *)

Lemma segment_0 (s : string) :
  segment (JsString.split "-" s) 0
  = JsString.parseInt (hd EmptyString (JsString.split "-" s)).
Proof.
  unfold segment.
  destruct (JsString.split "-" s) as [| p ps]; [reflexivity |].
  cbn [nth_error hd]. destruct p; reflexivity.
Qed.

Lemma split_empty_input (s : string) :
  JsString.isEmpty s = true -> JsString.split "-" s = [EmptyString].
Proof. destruct s; [reflexivity | discriminate]. Qed.

(** C2, counterexample: at UTC, ["2025-13"] is not rejected; month 13
    carries into the next year and the result is January 2026. *)
Lemma parsePartialDate_month_13 :
  parsePartialDate utc "2025-13"
  = Some {| start := Some 1767225600000; end_ := Some 1769903999000 |}.
Proof. reflexivity. Qed.

(** C2, as amended.  [parsePartialDate] is total and returns [null]
    exactly when [parseInt] of the text before the first dash is [NaN] or
    is below 1900; what follows the first dash never causes a [null].
    ["abc"] and ["1899-05"] give [null]. *)
Theorem parsePartialDate_null_iff (LocalTZA : Z -> bool -> Z) (dateStr : string) :
  (parsePartialDate LocalTZA dateStr = None
   <-> forall y, JsString.parseInt (hd EmptyString (JsString.split "-" dateStr)) = Some y
                 -> y < 1900)
  /\ parsePartialDate LocalTZA "abc" = None
  /\ parsePartialDate LocalTZA "1899-05" = None.
Proof.
  split; [| split; reflexivity].
  unfold parsePartialDate.
  destruct (JsString.isEmpty dateStr) eqn:He.
  - rewrite (split_empty_input _ He). cbn. split; [discriminate | reflexivity].
  - rewrite segment_0.
    destruct (JsString.parseInt (hd EmptyString (JsString.split "-" dateStr))) as [y |].
    + destruct ((y =? 0) || (y <? 1900))%Z eqn:Hy.
      * split; [| reflexivity]. intros _ y' E; inversion E; subst y'.
        apply orb_true_iff in Hy; destruct Hy as [H | H]; lia.
      * apply orb_false_iff in Hy; destruct Hy as [H0 H1].
        split.
        -- intro H.
           destruct (truthy (segment (JsString.split "-" dateStr) 2)
                     && truthy (segment (JsString.split "-" dateStr) 1));
             [discriminate |].
           destruct (truthy (segment (JsString.split "-" dateStr) 1)); discriminate.
        -- intro H. specialize (H y eq_refl). lia.
    + split; [discriminate | reflexivity].
Qed.

Lemma year_guard_false (y : Z) : (1900 <= y)%Z -> ((y =? 0) || (y <? 1900))%Z = false.
Proof.
  intro H. apply orb_false_iff. split; [apply Z.eqb_neq | apply Z.ltb_ge]; lia.
Qed.

Lemma segment_nonempty_text (text : string) (i : nat) (n : Z) :
  segment (JsString.split "-" text) i = Some n -> JsString.isEmpty text = false.
Proof.
  destruct text; [| reflexivity]. destruct i as [| [| i]]; discriminate.
Qed.

(** A segment is falsy when it is absent or empty, or when [parseInt] of
    it is [NaN] or 0. *)
Lemma segment_falsy_iff (parts : list string) (i : nat) :
  truthy (segment parts i) = false
  <-> match nth_error parts i with
      | None => True
      | Some s => s = "" \/ JsString.parseInt s = None
                  \/ JsString.parseInt s = Some 0%Z
      end.
Proof.
  unfold segment. destruct (nth_error parts i) as [s |]; [| cbn; tauto].
  destruct s as [| c rest]; [cbn; tauto |].
  cbn [JsString.isEmpty].
  destruct (JsString.parseInt (String c rest)) as [[| n | n] |]; cbn [truthy];
    split; intro H; auto; try discriminate;
    destruct H as [H | [H | H]]; discriminate.
Qed.

(** The result for a text with a year from 1900 on and a falsy month. *)
Lemma parsePartialDate_year (LocalTZA : Z -> bool -> Z) (dateStr : string) (y : Z) :
  segment (JsString.split "-" dateStr) 0 = Some y ->
  (1900 <= y)%Z ->
  truthy (segment (JsString.split "-" dateStr) 1) = false ->
  parsePartialDate LocalTZA dateStr
  = Some {| start := newDate LocalTZA y 0 1 0 0 0;
            end_ := newDate LocalTZA y 11 31 23 59 59 |}.
Proof.
  intros Hy Hy1900 Hmo. unfold parsePartialDate.
  rewrite (segment_nonempty_text _ _ _ Hy), Hy, Hmo, (year_guard_false _ Hy1900).
  rewrite andb_false_r. reflexivity.
Qed.

(** The result for a text with a year from 1900 on, a truthy month and a
    falsy day. *)
Lemma parsePartialDate_month (LocalTZA : Z -> bool -> Z) (dateStr : string) (y : Z) :
  segment (JsString.split "-" dateStr) 0 = Some y ->
  (1900 <= y)%Z ->
  truthy (segment (JsString.split "-" dateStr) 1) = true ->
  truthy (segment (JsString.split "-" dateStr) 2) = false ->
  let month := num (segment (JsString.split "-" dateStr) 1) in
  parsePartialDate LocalTZA dateStr
  = Some {| start := newDate LocalTZA y (month - 1) 1 0 0 0;
            end_ := match getDate LocalTZA (newDate LocalTZA y month 0 0 0 0) with
                    | Some lastDay => newDate LocalTZA y (month - 1) lastDay 23 59 59
                    | None => None
                    end |}.
Proof.
  intros Hy Hy1900 Hmo Hd month. unfold parsePartialDate.
  rewrite (segment_nonempty_text _ _ _ Hy), Hy, Hmo, Hd, (year_guard_false _ Hy1900).
  reflexivity.
Qed.

(** C10.  A segment of a text is falsy when it is absent or empty or when
    [parseInt] of it is [NaN] or 0, and a falsy month or day counts as
    absent, for every text whose year is 1900 or later.  With a falsy
    month the result is the interval of the whole year, from January 1
    at 0:00:00 to December 31 at 23:59:59, which is the result for the
    text of the year alone, whatever the day segment.  With a month other
    than 0 and a falsy day the result is the interval of the month, which
    is the result for the year and the month alone.  In neither case is
    the result [null].  So ["2025-00"] and ["2025-"] give the year 2025
    and ["2025-05-00"] gives May 2025; at UTC that is
    2025-05-01T00:00:00 to 2025-05-31T23:59:59. *)
Theorem parsePartialDate_zero_segment
        (LocalTZA : Z -> bool -> Z) (dateStr yearText : string) (y : Z) :
  let parts := JsString.split "-" dateStr in
  nth_error parts 0 = Some yearText ->
  segment parts 0 = Some y ->
  (1900 <= y)%Z ->
  (forall i,
      truthy (segment parts i) = false
      <-> match nth_error parts i with
          | None => True
          | Some s => s = "" \/ JsString.parseInt s = None
                      \/ JsString.parseInt s = Some 0%Z
          end)
  /\ (truthy (segment parts 1) = false ->
      parsePartialDate LocalTZA dateStr
      = Some {| start := newDate LocalTZA y 0 1 0 0 0;
                end_ := newDate LocalTZA y 11 31 23 59 59 |}
      /\ parsePartialDate LocalTZA dateStr = parsePartialDate LocalTZA yearText)
  /\ (forall monthText,
         nth_error parts 1 = Some monthText ->
         truthy (segment parts 1) = true ->
         truthy (segment parts 2) = false ->
         let month := num (segment parts 1) in
         parsePartialDate LocalTZA dateStr
         = Some {| start := newDate LocalTZA y (month - 1) 1 0 0 0;
                   end_ := match getDate LocalTZA (newDate LocalTZA y month 0 0 0 0) with
                           | Some lastDay =>
                               newDate LocalTZA y (month - 1) lastDay 23 59 59
                           | None => None
                           end |}
         /\ parsePartialDate LocalTZA dateStr
            = parsePartialDate LocalTZA (yearText ++ "-" ++ monthText))
  /\ parsePartialDate LocalTZA "2025-" = parsePartialDate LocalTZA "2025"
  /\ parsePartialDate utc "2025-05-00"
     = Some {| start := Some 1746057600000%Z; end_ := Some 1748735999000%Z |}
  /\ parsePartialDate utc "2025-00"
     = Some {| start := Some 1735689600000%Z; end_ := Some 1767225599000%Z |}.
Proof.
  intros parts Hfirst Hy Hy1900.
  pose proof (StringProofs.split_parts_clean "-" dateStr) as Hclean. fold parts in Hclean.
  assert (Hyear : DataTransformSpec.contains "-" yearText = false).
  { destruct parts as [| p0 rest]; [discriminate |].
    inversion Hfirst; subst p0. inversion Hclean; assumption. }
  assert (Hseg : forall l, segment (yearText :: l) 0 = Some y).
  { intro l. unfold segment in Hy |- *. rewrite Hfirst in Hy. exact Hy. }
  split; [intro i; apply segment_falsy_iff |].
  split; [| split; [| repeat split; reflexivity]].
  - intro Hmo. split; [apply parsePartialDate_year; assumption |].
    rewrite (parsePartialDate_year LocalTZA dateStr y Hy Hy1900 Hmo).
    symmetry. apply parsePartialDate_year; [| exact Hy1900 |];
      rewrite (StringProofs.split_no_separator _ _ Hyear); [apply Hseg | reflexivity].
  - intros monthText Hsecond Hmo Hd month.
    split; [apply parsePartialDate_month; assumption |].
    rewrite (parsePartialDate_month LocalTZA dateStr y Hy Hy1900 Hmo Hd).
    assert (Hmonth : DataTransformSpec.contains "-" monthText = false).
    { destruct parts as [| p0 [| p1 rest]]; try discriminate.
      inversion Hsecond; subst p1. inversion Hclean as [| ? ? _ Hrest]; subst.
      inversion Hrest; assumption. }
    assert (Hsplit : JsString.split "-" (yearText ++ "-" ++ monthText)
                     = [yearText; monthText]).
    { change (yearText ++ "-" ++ monthText)
        with (yearText ++ String "-" monthText).
      rewrite StringProofs.split_append.
      rewrite (StringProofs.split_no_separator _ _ Hyear).
      rewrite (StringProofs.split_no_separator _ _ Hmonth). reflexivity. }
    assert (Hsame : segment [yearText; monthText] 1 = segment parts 1).
    { unfold segment. rewrite Hsecond. reflexivity. }
    symmetry.
    pose proof (parsePartialDate_month LocalTZA (yearText ++ "-" ++ monthText) y) as E.
    rewrite Hsplit, Hsame in E. apply E; [apply Hseg | exact Hy1900 | exact Hmo |].
    reflexivity.
Qed.

Lemma parsePartialDate_zero_segment_witness :
  parsePartialDate utc "2025-00-15"
  = Some {| start := newDate utc 2025 0 1 0 0 0;
            end_ := newDate utc 2025 11 31 23 59 59 |}
  /\ parsePartialDate utc "2025-00-15" = parsePartialDate utc "2025".
Proof.
  apply (parsePartialDate_zero_segment utc "2025-00-15" "2025" 2025);
    (reflexivity || lia).
Defined.

(** ** The date criterion of the filter *)

Lemma le_true_inv (a b : Date) :
  le a b = true -> exists x y, a = Some x /\ b = Some y /\ (x <= y)%Z.
Proof.
  destruct a as [x |], b as [y |]; cbn; try discriminate.
  intro H; exists x, y; repeat split; lia.
Qed.

Lemma ge_true_inv (a b : Date) :
  ge a b = true -> exists x y, a = Some x /\ b = Some y /\ (y <= x)%Z.
Proof.
  destruct a as [x |], b as [y |]; cbn; try discriminate.
  intro H; exists x, y; repeat split; lia.
Qed.

(** On two valid dates [a >= b] is the negation of [a < b]. *)
Lemma ge_lt_valid (x y : Z) : ge (Some x) (Some y) = negb (lt (Some x) (Some y)).
Proof. cbn. destruct (Z.leb_spec y x), (Z.ltb_spec x y); (reflexivity || lia). Qed.

Lemma isEmpty_false_iff (s : string) : JsString.isEmpty s = false <-> s <> "".
Proof. destruct s; cbn; split; congruence. Qed.

(** C8.  With both filter texts supplied, the date criterion holds exactly
    when both texts parse, the start of the check-in interval is strictly
    before the end of the check-out interval, and the interval from the
    one to the other overlaps the availability of the record.  The
    criterion is a total boolean function: in every other case it is
    [false]. *)
Theorem dateRangeMatches_both_supplied
        (LocalTZA : Z -> bool -> Z) (dr : Availability) (hotelRange : DateRange) :
  checkIn dr <> "" ->
  checkOut dr <> "" ->
  (dateRangeMatches LocalTZA dr hotelRange = true
   <-> exists checkInRange checkOutRange,
         parsePartialDate LocalTZA (checkIn dr) = Some checkInRange
         /\ parsePartialDate LocalTZA (checkOut dr) = Some checkOutRange
         /\ lt (start checkInRange) (end_ checkOutRange) = true
         /\ rangesOverlap {| start := start checkInRange; end_ := end_ checkOutRange |}
                          hotelRange = true).
Proof.
  intros Hin Hout.
  apply isEmpty_false_iff in Hin. apply isEmpty_false_iff in Hout.
  unfold dateRangeMatches. rewrite Hin, Hout. cbn [negb].
  destruct (parsePartialDate LocalTZA (checkIn dr)) as [ci |].
  2:{ split; [discriminate | intros (? & ? & E & _); discriminate]. }
  destruct (parsePartialDate LocalTZA (checkOut dr)) as [co |].
  2:{ split; [discriminate | intros (? & ? & _ & E & _); discriminate]. }
  destruct (ge (start ci) (end_ co)) eqn:Hge.
  - split; [discriminate |].
    intros (ci' & co' & E1 & E2 & Hlt & _).
    inversion E1; inversion E2; subst ci' co'.
    apply ge_true_inv in Hge. destruct Hge as (x & y & Ex & Ey & Hxy).
    rewrite Ex, Ey in Hlt. cbn in Hlt. apply Z.ltb_lt in Hlt. lia.
  - split.
    + intro Hov. exists ci, co. repeat split; try assumption.
      unfold rangesOverlap in Hov. cbn [start end_] in Hov.
      apply andb_true_iff in Hov. destruct Hov as [H1 H2].
      apply le_true_inv in H1. destruct H1 as (x & ? & Ex & _ & _).
      apply ge_true_inv in H2. destruct H2 as (y & ? & Ey & _ & _).
      rewrite Ex, Ey in Hge |- *. rewrite ge_lt_valid in Hge.
      destruct (lt (Some x) (Some y)); [reflexivity | discriminate].
    + intros (ci' & co' & E1 & E2 & _ & Hov).
      inversion E1; inversion E2; subst ci' co'. exact Hov.
Qed.

Lemma dateRangeMatches_both_supplied_witness :
  dateRangeMatches utc stayInJanuary
    {| start := Some 1736899200000; end_ := Some 1737331200000 |} = true
  <-> exists checkInRange checkOutRange,
        parsePartialDate utc (checkIn stayInJanuary) = Some checkInRange
        /\ parsePartialDate utc (checkOut stayInJanuary) = Some checkOutRange
        /\ lt (start checkInRange) (end_ checkOutRange) = true
        /\ rangesOverlap {| start := start checkInRange; end_ := end_ checkOutRange |}
                         {| start := Some 1736899200000; end_ := Some 1737331200000 |}
           = true.
Proof.
  apply (dateRangeMatches_both_supplied utc stayInJanuary); cbn; discriminate.
Defined.

(** ** Pagination *)

Lemma totalPagesOf_div (pageSize : Z) (A : Type) (records : list A) :
  (0 < pageSize)%Z ->
  totalPagesOf pageSize records
  = (- (- Z.of_nat (List.length records) / pageSize))%Z.
Proof.
  intro Hp. unfold totalPagesOf, Qceiling, Qfloor.
  destruct pageSize as [| p | p]; try lia.
  cbn. rewrite Z.mul_1_r. reflexivity.
Qed.

Lemma reachablePage_positive (p : Z) : reachablePage p -> (1 <= p)%Z.
Proof.
  induction 1 as [| p _ IH | pages p Hpages _ IH];
    unfold previousPage, nextPage; lia.
Qed.

(** C9.  The page number is 1 at first and the page buttons keep it at 1
    or above.  For a positive page size, every page from 1 on that is
    above [totalPages] gives the empty slice, and the slice is a total
    function: no page raises an error.  [totalPages] is the ceiling of
    [count / pageSize], the least number of pages that holds every
    record, and it is 0 for no records.  The pages that the component
    never reaches are given too: page 0 is empty, and a page below 0 is
    empty exactly when [count <= - page * pageSize]. *)
Theorem paginate_out_of_range
        (A : Type) (records : list A) (pageSize currentPage : Z) :
  (0 < pageSize)%Z ->
  reachablePage currentPage ->
  let count := Z.of_nat (List.length records) in
  let pages := totalPagesOf pageSize records in
  (1 <= currentPage)%Z
  /\ ((pages < currentPage)%Z -> paginate pageSize currentPage records = [])
  /\ (forall page, (1 <= page)%Z -> (pages < page)%Z ->
                   paginate pageSize page records = [])
  /\ ((pages - 1) * pageSize < count <= pages * pageSize)%Z
  /\ totalPagesOf pageSize (@nil A) = 0%Z
  /\ paginate pageSize 0 records = []
  /\ (forall page, (page < 0)%Z ->
                   (paginate pageSize page records = []
                    <-> (count <= - page * pageSize)%Z)).
Proof.
  intros Hp Hreach count pages.
  assert (Hpages : pages = (- (- count / pageSize))%Z)
    by (apply totalPagesOf_div; exact Hp).
  pose proof (Z.div_mod (- count) pageSize ltac:(lia)) as Hdm.
  pose proof (Z.mod_pos_bound (- count) pageSize Hp) as Hmod.
  assert (Hbounds : ((pages - 1) * pageSize < count <= pages * pageSize)%Z) by nia.
  assert (Hc : (0 <= count)%Z) by (unfold count; lia).
  assert (Habove : forall page, (1 <= page)%Z -> (pages < page)%Z ->
                                paginate pageSize page records = []).
  { intros page H1 Hgt.
    unfold paginate, JsArray.slice, JsArray.clampIndex. fold count.
    assert (count <= (page - 1) * pageSize)%Z by nia.
    destruct (Z.ltb_spec ((page - 1) * pageSize) 0); [lia |].
    destruct (Z.ltb_spec (page * pageSize) 0); [nia |].
    replace (Z.to_nat (Z.min (page * pageSize) count
                       - Z.min ((page - 1) * pageSize) count)) with O by lia.
    reflexivity. }
  pose proof (reachablePage_positive _ Hreach) as Hpos.
  split; [exact Hpos |].
  split; [apply Habove; exact Hpos |].
  split; [exact Habove |].
  split; [exact Hbounds |].
  split; [rewrite totalPagesOf_div by exact Hp; reflexivity |].
  split.
  - unfold paginate, JsArray.slice, JsArray.clampIndex. fold count.
    replace ((0 - 1) * pageSize)%Z with (- pageSize)%Z by lia.
    replace (0 * pageSize)%Z with 0%Z by lia.
    destruct (Z.ltb_spec (- pageSize) 0); [| lia].
    destruct (Z.ltb_spec 0 0); [lia |].
    replace (Z.to_nat (Z.min 0 count - Z.max (count + - pageSize) 0)) with O by lia.
    reflexivity.
  - intros page Hneg.
    unfold paginate, JsArray.slice, JsArray.clampIndex. fold count.
    destruct (Z.ltb_spec ((page - 1) * pageSize) 0); [| nia].
    destruct (Z.ltb_spec (page * pageSize) 0); [| nia].
    set (from := Z.max (count + (page - 1) * pageSize) 0).
    set (to := Z.max (count + page * pageSize) 0).
    assert (Hlen : List.length (firstn (Z.to_nat (to - from))
                                       (skipn (Z.to_nat from) records))
                   = Z.to_nat (to - from)).
    { rewrite length_firstn, length_skipn. unfold from, to, count. nia. }
    split.
    + intro E. rewrite E in Hlen. cbn in Hlen. unfold from, to in Hlen. nia.
    + intro Hle. replace (Z.to_nat (to - from)) with O by (unfold from, to; nia).
      reflexivity.
Qed.

Lemma paginate_out_of_range_witness :
  (1 <= 1)%Z
  /\ ((totalPagesOf 10 (@nil Hotel) < 1)%Z -> paginate 10 1 (@nil Hotel) = []).
Proof.
  pose proof (paginate_out_of_range Hotel [] 10 1 ltac:(lia) page_first) as H.
  exact (conj (proj1 H) (proj1 (proj2 H))).
Defined.

(** ** The filter on the sample hotels

    The cases listed at the end of the component, and two date ranges. *)

Example filter_search_Bangkok :
  namesKept {| search := "Bangkok"; priceRange := (0%Q, 300%Q); filterAmenities := [];
               minRating := 0%Q; dateRange := {| checkIn := ""; checkOut := "" |} |}
  = ["Agoda Palace"; "Urban Loft"].
Proof. reflexivity. Qed.

Example filter_price_100_150 :
  namesKept {| search := ""; priceRange := (100%Q, 150%Q); filterAmenities := [];
               minRating := 0%Q; dateRange := {| checkIn := ""; checkOut := "" |} |}
  = ["Agoda Palace"; "Mountain Stay"; "Urban Loft"].
Proof. reflexivity. Qed.

Example filter_amenities_Pool_Spa :
  namesKept {| search := ""; priceRange := (0%Q, 300%Q); filterAmenities := ["Pool"; "Spa"];
               minRating := 0%Q; dateRange := {| checkIn := ""; checkOut := "" |} |}
  = ["Tropical Resort"].
Proof. reflexivity. Qed.

Example filter_dates_in_order :
  namesKept {| search := ""; priceRange := (0%Q, 300%Q); filterAmenities := [];
               minRating := 0%Q;
               dateRange := {| checkIn := "2025-01-06"; checkOut := "2025-01-09" |} |}
  = ["Mountain Stay"; "Tropical Resort"].
Proof. reflexivity. Qed.

Example filter_dates_inverted :
  namesKept {| search := ""; priceRange := (0%Q, 300%Q); filterAmenities := [];
               minRating := 0%Q;
               dateRange := {| checkIn := "2025-01-20"; checkOut := "2025-01-10" |} |}
  = [].
Proof. reflexivity. Qed.

End DashboardProofs.


(** * Properties of transformData *)

Module DataTransformProofs.

Import JsObject DataTransform DataTransformSpec TransformSamples.
Local Open Scope string_scope.

#[local] Arguments isInherited : simpl never.

(** ** Loops that may throw *)

Lemma bind_Ok_inv (A B : Type) (r : result A) (k : A -> result B) (b : B) :
  bind r k = Ok b -> exists a, r = Ok a /\ k a = Ok b.
Proof. destruct r as [a | e]; cbn; [eauto | discriminate]. Qed.

Lemma bind_Throw_inv (A B : Type) (r : result A) (k : A -> result B) (e : exn) :
  bind r k = Throw e -> r = Throw e \/ exists a, r = Ok a /\ k a = Throw e.
Proof. destruct r as [a | e']; cbn; [eauto | intro H; inversion H; left; reflexivity]. Qed.

Lemma mapM_Ok_Forall2 (A B : Type) (f : A -> result B) (l : list A) (out : list B) :
  mapM f l = Ok out <-> Forall2 (fun x y => f x = Ok y) l out.
Proof.
  revert out; induction l as [| x t IH]; cbn; intros out; split; intro H.
  - inversion H; constructor.
  - inversion H; reflexivity.
  - apply bind_Ok_inv in H. destruct H as (y & Hy & H).
    apply bind_Ok_inv in H. destruct H as (ys & Hys & H).
    inversion H; subst. constructor; [exact Hy | apply IH; exact Hys].
  - inversion H as [| ? y ? ys Hy Hys]; subst.
    rewrite Hy. cbn. rewrite (proj2 (IH ys) Hys). reflexivity.
Qed.

Lemma mapM_total (A B : Type) (f : A -> result B) (l : list A) :
  (forall x, In x l -> exists y, f x = Ok y) -> exists out, mapM f l = Ok out.
Proof.
  induction l as [| x t IH]; cbn; intro H; [eauto |].
  destruct (H x (or_introl eq_refl)) as (y & ->).
  destruct IH as (ys & ->); [intros; apply H; auto |]. cbn. eauto.
Qed.

Lemma mapM_Ok_all (A B : Type) (f : A -> result B) (l : list A) (out : list B) :
  mapM f l = Ok out -> forall x, In x l -> exists y, In y out /\ f x = Ok y.
Proof.
  intro H. apply mapM_Ok_Forall2 in H.
  induction H as [| a b l l' Hab _ IH]; cbn; [tauto |].
  intros x [<- | Hin]; [eauto |]. destruct (IH x Hin) as (y & ? & ?); eauto.
Qed.

Lemma mapM_Throw_inv (A B : Type) (f : A -> result B) (l : list A) (e : exn) :
  mapM f l = Throw e -> exists x, In x l /\ f x = Throw e.
Proof.
  induction l as [| x t IH]; cbn; [discriminate |].
  destruct (f x) as [y | e'] eqn:Hx; cbn.
  - destruct (mapM f t) as [ys | e'']; cbn; [discriminate |].
    intro H; inversion H; subst.
    destruct IH as (x' & Hin & Hx'); [reflexivity |]. eauto.
  - intro H; inversion H; subst. exists x; auto.
Qed.

Lemma mapM_ext (A B : Type) (f h : A -> result B) (l : list A) :
  (forall x, In x l -> f x = h x) -> mapM f l = mapM h l.
Proof.
  induction l as [| x t IH]; cbn; intro H; [reflexivity |].
  rewrite (H x (or_introl eq_refl)), IH; [reflexivity |].
  intros; apply H; auto.
Qed.

Lemma filterM_Ok_inv (A : Type) (p : A -> result bool) (l out : list A) :
  filterM p l = Ok out ->
  out = filter (fun x => match p x with Ok true => true | _ => false end) l
  /\ forall x, In x l -> exists b, p x = Ok b.
Proof.
  revert out; induction l as [| x t IH]; cbn; intros out H.
  - inversion H. split; [reflexivity | intros ? []].
  - apply bind_Ok_inv in H. destruct H as (keep & Hk & H).
    apply bind_Ok_inv in H. destruct H as (kept & Hkept & H).
    inversion H; subst out; clear H.
    destruct (IH _ Hkept) as [-> Hall]. rewrite Hk. split.
    + destruct keep; reflexivity.
    + intros y [<- | Hin]; eauto.
Qed.

Lemma filterM_Throw_inv (A : Type) (p : A -> result bool) (l : list A) (e : exn) :
  filterM p l = Throw e -> exists x, In x l /\ p x = Throw e.
Proof.
  induction l as [| x t IH]; cbn; [discriminate |].
  destruct (p x) as [keep | e'] eqn:Hx; cbn.
  - destruct (filterM p t) as [kept | e'']; cbn; [discriminate |].
    intro H; inversion H; subst.
    destruct IH as (x' & Hin & Hx'); [reflexivity |]. eauto.
  - intro H; inversion H; subst. exists x; auto.
Qed.

Lemma filterM_total (A : Type) (p : A -> result bool) (l : list A) :
  (forall x, In x l -> exists b, p x = Ok b) -> exists out, filterM p l = Ok out.
Proof.
  induction l as [| x t IH]; cbn; intro H; [eauto |].
  destruct (H x (or_introl eq_refl)) as (b & ->).
  destruct IH as (kept & ->); [intros; apply H; auto |]. cbn. eauto.
Qed.

Lemma reduceM_app (A B : Type) (f : B -> A -> result B) (l l' : list A) (acc : B) :
  reduceM f (l ++ l')%list acc = (mid <- reduceM f l acc ;; reduceM f l' mid).
Proof.
  revert acc; induction l as [| x t IH]; cbn; intro acc; [reflexivity |].
  destruct (f acc x) as [acc' | e]; cbn; [apply IH | reflexivity].
Qed.

Lemma reduceM_Throw_inv (A B : Type) (f : B -> A -> result B) (l : list A)
      (acc : B) (e : exn) :
  reduceM f l acc = Throw e -> exists x a, In x l /\ f a x = Throw e.
Proof.
  revert acc; induction l as [| x t IH]; cbn; intro acc; [discriminate |].
  destruct (f acc x) as [acc' | e'] eqn:Hx; cbn.
  - intro H. destruct (IH _ H) as (x' & a & Hin & Hx'). eauto.
  - intro H; inversion H; subst. exists x, acc; auto.
Qed.

Lemma reduceM_Ok_all (A B : Type) (f : B -> A -> result B) (l : list A) (acc out : B) :
  reduceM f l acc = Ok out ->
  forall x, In x l -> exists a a', f a x = Ok a'.
Proof.
  revert acc; induction l as [| y t IH]; cbn; intros acc H x Hin; [contradiction |].
  apply bind_Ok_inv in H. destruct H as (acc' & Hy & H).
  destruct Hin as [-> | Hin]; eauto.
Qed.

Lemma reduceM_total (A B : Type) (f : B -> A -> result B) (l : list A) (acc : B) :
  (forall a x, In x l -> exists a', f a x = Ok a') ->
  exists out, reduceM f l acc = Ok out.
Proof.
  revert acc; induction l as [| x t IH]; cbn; intros acc H; [eauto |].
  destruct (H acc x (or_introl eq_refl)) as (acc' & ->). cbn.
  apply IH. intros; apply H; auto.
Qed.

(** ** Objects *)

Section Objects.

Context {V : Type}.
Implicit Types (obj : object V) (key : string) (v : V).

Lemma getOwn_set_same obj key v : getOwn (set obj key v) key = Some v.
Proof.
  induction obj as [| [k w] rest IH]; cbn.
  - rewrite String.eqb_refl; reflexivity.
  - destruct (String.eqb k key) eqn:E; cbn; rewrite E; auto.
Qed.

Lemma getOwn_set_other obj key key' v :
  key <> key' -> getOwn (set obj key v) key' = getOwn obj key'.
Proof.
  intro Hne. induction obj as [| [k w] rest IH]; cbn.
  - apply String.eqb_neq in Hne. rewrite Hne; reflexivity.
  - destruct (String.eqb k key) eqn:E; cbn.
    + apply String.eqb_eq in E; subst k.
      apply String.eqb_neq in Hne. rewrite Hne; reflexivity.
    + rewrite IH; reflexivity.
Qed.

Lemma getOwn_In obj key v : getOwn obj key = Some v -> In (key, v) obj.
Proof.
  induction obj as [| [k w] rest IH]; cbn; [discriminate |].
  destruct (String.eqb k key) eqn:E.
  - apply String.eqb_eq in E; subst k. intro H; inversion H; auto.
  - auto.
Qed.

Lemma getOwn_None_iff obj key :
  getOwn obj key = None <-> ~ In key (map fst obj).
Proof.
  induction obj as [| [k w] rest IH]; cbn; [tauto |].
  destruct (String.eqb k key) eqn:E.
  - apply String.eqb_eq in E. split; [discriminate | intro H; exfalso; apply H; auto].
  - apply String.eqb_neq in E. rewrite IH. tauto.
Qed.

Lemma getOwn_None_not_In obj key :
  getOwn obj key = None -> ~ In key (map fst obj).
Proof. apply getOwn_None_iff. Qed.

Lemma In_getOwn obj key v :
  NoDup (map fst obj) -> In (key, v) obj -> getOwn obj key = Some v.
Proof.
  induction obj as [| [k w] rest IH]; cbn; [tauto |].
  intros Hnd [Heq | Hin].
  - inversion Heq; subst. rewrite String.eqb_refl; reflexivity.
  - inversion Hnd as [| ? ? Hnotin Hnd']; subst.
    destruct (String.eqb k key) eqn:E; [| auto].
    apply String.eqb_eq in E; subst k.
    exfalso; apply Hnotin. change key with (fst (key, v)). apply in_map; exact Hin.
Qed.

Lemma set_keys_present obj key v w :
  getOwn obj key = Some w -> map fst (set obj key v) = map fst obj.
Proof.
  induction obj as [| [k u] rest IH]; cbn; [discriminate |].
  destruct (String.eqb k key) eqn:E; cbn; [reflexivity |].
  intro H. rewrite IH by exact H. reflexivity.
Qed.

Lemma set_absent obj key v :
  getOwn obj key = None -> set obj key v = (obj ++ [(key, v)])%list.
Proof.
  induction obj as [| [k u] rest IH]; cbn; [reflexivity |].
  destruct (String.eqb k key) eqn:E; [discriminate |].
  intro H. rewrite IH by exact H. reflexivity.
Qed.

Lemma set_NoDup obj key v :
  NoDup (map fst obj) -> NoDup (map fst (set obj key v)).
Proof.
  intro Hnd. destruct (getOwn obj key) as [w |] eqn:E.
  - rewrite (set_keys_present _ _ _ _ E). exact Hnd.
  - rewrite (set_absent _ _ _ E), map_app. cbn.
    apply (Permutation_NoDup (l := key :: map fst obj)).
    + apply Permutation_cons_append.
    + constructor; [apply getOwn_None_not_In; exact E | exact Hnd].
Qed.

(** An assignment makes an own property of every name but [__proto__]. *)
Lemma getOwn_assign_same obj key v :
  key <> "__proto__" -> getOwn (assign obj key v) key = Some v.
Proof.
  intro Hne. unfold assign. apply String.eqb_neq in Hne. rewrite Hne.
  apply getOwn_set_same.
Qed.

Lemma getOwn_assign_other obj key key' v :
  key <> key' -> getOwn (assign obj key v) key' = getOwn obj key'.
Proof.
  intro Hne. unfold assign.
  destruct (String.eqb key "__proto__"); [reflexivity |].
  apply getOwn_set_other. exact Hne.
Qed.

Lemma assign_NoDup obj key v :
  NoDup (map fst obj) -> NoDup (map fst (assign obj key v)).
Proof.
  intro Hnd. unfold assign.
  destruct (String.eqb key "__proto__"); [exact Hnd | apply set_NoDup; exact Hnd].
Qed.

Lemma insertIndexed_perm (n : Z) (p : string * V) (l : list (Z * (string * V))) :
  Permutation (map snd (insertIndexed n p l)) (p :: map snd l).
Proof.
  induction l as [| [m q] rest IH]; cbn; [reflexivity |].
  destruct (n <=? m)%Z; cbn; [reflexivity |].
  rewrite IH. apply perm_swap.
Qed.

(** [Object.entries] lists every own property once. *)
Lemma entries_perm obj : Permutation (entries obj) obj.
Proof.
  unfold entries, named.
  induction obj as [| [k v] rest IH]; cbn; [reflexivity |].
  destruct (arrayIndex k); cbn.
  - rewrite insertIndexed_perm. cbn. apply perm_skip, IH.
  - rewrite <- Permutation_middle. apply perm_skip, IH.
Qed.

Lemma entries_In obj (p : string * V) : In p (entries obj) <-> In p obj.
Proof.
  split; apply Permutation_in; [| symmetry]; apply entries_perm.
Qed.

Lemma entries_NoDup obj : NoDup (map fst obj) -> NoDup (map fst (entries obj)).
Proof.
  apply Permutation_NoDup, Permutation_map. symmetry; apply entries_perm.
Qed.

(** The copy [Object.entries] gives holds the same own properties. *)
Lemma getOwn_entries obj key :
  NoDup (map fst obj) -> getOwn (entries obj) key = getOwn obj key.
Proof.
  intro Hnd. destruct (getOwn obj key) as [v |] eqn:E.
  - apply In_getOwn; [apply entries_NoDup; exact Hnd |].
    apply entries_In, getOwn_In, E.
  - apply getOwn_None_iff. intro Hin.
    apply (proj1 (getOwn_None_iff _ _) E).
    apply (Permutation_in _ (Permutation_map fst (entries_perm obj))). exact Hin.
Qed.

End Objects.

(** ** Grouping *)

Section Grouping.

Variable host : Host.
Variable g : GroupBy.

Local Abbreviation keyOf := (createGroupKey host g).
Local Abbreviation keyIs := (DataTransformSpec.keyIs host g).
Local Abbreviation bucket := (DataTransformSpec.bucket host g).
Local Abbreviation grouped := (DataTransformSpec.grouped host g).
Local Abbreviation grouped_keyed := (DataTransformSpec.grouped_keyed host g).
Local Abbreviation grouped_keys := (DataTransformSpec.grouped_keys host g).
Local Abbreviation grouped_get := (DataTransformSpec.grouped_get host g).
Local Abbreviation grouped_all := (DataTransformSpec.grouped_all host g).

Lemma keyIs_Ok (item : value) (k k' : string) :
  keyOf item = Ok k -> keyIs k' item = String.eqb k k'.
Proof. intro H. unfold DataTransformSpec.keyIs. rewrite H. reflexivity. Qed.

Lemma keyIs_true (item : value) (k : string) :
  keyIs k item = true <-> keyOf item = Ok k.
Proof.
  unfold DataTransformSpec.keyIs. destruct (keyOf item) as [k' | e].
  - rewrite String.eqb_eq. split; congruence.
  - split; discriminate.
Qed.

Lemma bucket_In (k : string) (items : list value) (item : value) :
  In item (bucket k items) <-> In item items /\ keyOf item = Ok k.
Proof.
  unfold DataTransformSpec.bucket. rewrite filter_In, keyIs_true. reflexivity.
Qed.

Lemma bucket_snoc (k : string) (items : list value) (item : value) :
  bucket k (items ++ [item])%list
  = (bucket k items ++ if keyIs k item then [item] else [])%list.
Proof.
  unfold DataTransformSpec.bucket. rewrite filter_app. cbn.
  destruct (keyIs k item); reflexivity.
Qed.

Lemma grouped_get_Some items acc k ms :
  grouped items acc -> getOwn acc k = Some ms -> ms = bucket k items /\ ms <> [].
Proof.
  intros G H. rewrite (grouped_get _ _ G) in H.
  destruct (bucket k items); [discriminate |].
  inversion H; subst. split; [reflexivity | discriminate].
Qed.

Lemma grouped_get_None items acc k :
  grouped items acc -> getOwn acc k = None -> bucket k items = [].
Proof.
  intros G H. rewrite (grouped_get _ _ G) in H.
  destruct (bucket k items); [reflexivity | discriminate].
Qed.

Lemma grouped_nil : grouped [] [].
Proof. constructor; cbn; [intros ? [] | constructor | reflexivity | reflexivity]. Qed.

Lemma concat_set_present (acc : object (list value)) k ms x :
  getOwn acc k = Some ms ->
  Permutation (List.concat (map snd (set acc k (ms ++ [x])%list)))
              (List.concat (map snd acc) ++ [x])%list.
Proof.
  induction acc as [| [k' ms'] rest IH]; cbn; [discriminate |].
  destruct (String.eqb k' k) eqn:E; cbn.
  - intro H; inversion H; subst.
    rewrite <- !app_assoc. apply Permutation_app_head, Permutation_app_comm.
  - intro H. rewrite (IH H), app_assoc. reflexivity.
Qed.

(** A step of the grouping loop returns when the key of the record is
    computed and names no inherited member it would be read as. *)
Lemma groupStep_Ok_inv acc item acc' :
  groupStep host g acc item = Ok acc' ->
  exists k, keyOf item = Ok k
            /\ match getOwn acc k with
               | Some members => acc' = set acc k (members ++ [item])%list
               | None => isInherited k = false /\ acc' = set acc k [item]
               end.
Proof.
  unfold groupStep. intro H. apply bind_Ok_inv in H. destruct H as (k & Hk & H).
  exists k. split; [exact Hk |].
  destruct (getOwn acc k) as [members |].
  - inversion H; reflexivity.
  - destruct (isInherited k); [discriminate |]. inversion H; auto.
Qed.

Lemma groupStep_Throw_inv acc item e :
  groupStep host g acc item = Throw e ->
  keyOf item = Throw e
  \/ exists k, keyOf item = Ok k /\ getOwn acc k = None /\ isInherited k = true
               /\ e = TypeError "acc[key].push is not a function".
Proof.
  unfold groupStep. intro H. apply bind_Throw_inv in H.
  destruct H as [H | (k & Hk & H)]; [left; exact H | right].
  exists k. destruct (getOwn acc k) as [members |]; [discriminate |].
  destruct (isInherited k); [| discriminate].
  inversion H. auto.
Qed.

Lemma groupStep_grouped items acc item acc' :
  grouped items acc ->
  groupStep host g acc item = Ok acc' ->
  grouped (items ++ [item])%list acc'.
Proof.
  intros G H. apply groupStep_Ok_inv in H. destruct H as (key & Hkey & H).
  assert (Hkeyed : forall it, In it (items ++ [item])%list ->
                              exists k, keyOf it = Ok k).
  { intros it Hin. apply in_app_or in Hin.
    destruct Hin as [Hin | [<- | []]]; [apply (grouped_keyed _ _ G), Hin | eauto]. }
  destruct (getOwn acc key) as [members |] eqn:Hget.
  - subst acc'.
    destruct (grouped_get_Some _ _ _ _ G Hget) as [Hm Hne].
    constructor.
    + exact Hkeyed.
    + apply set_NoDup, (grouped_keys _ _ G).
    + intro k. rewrite bucket_snoc, (keyIs_Ok _ _ k Hkey).
      destruct (String.eqb key k) eqn:E.
      * apply String.eqb_eq in E; subst k.
        rewrite getOwn_set_same, <- Hm.
        destruct members; [congruence | reflexivity].
      * apply String.eqb_neq in E.
        rewrite getOwn_set_other by exact E.
        rewrite app_nil_r. apply (grouped_get _ _ G).
    + rewrite (concat_set_present _ _ _ _ Hget).
      apply Permutation_app_tail, (grouped_all _ _ G).
  - destruct H as [_ ->].
    pose proof (grouped_get_None _ _ _ G Hget) as Hb.
    constructor.
    + exact Hkeyed.
    + apply set_NoDup, (grouped_keys _ _ G).
    + intro k. rewrite bucket_snoc, (keyIs_Ok _ _ k Hkey).
      destruct (String.eqb key k) eqn:E.
      * apply String.eqb_eq in E; subst k.
        rewrite getOwn_set_same, Hb. reflexivity.
      * apply String.eqb_neq in E.
        rewrite getOwn_set_other by exact E.
        rewrite app_nil_r. apply (grouped_get _ _ G).
    + rewrite (set_absent _ _ _ Hget), map_app, concat_app. cbn.
      apply Permutation_app_tail, (grouped_all _ _ G).
Qed.

Lemma reduceM_grouped items rest acc out :
  grouped items acc ->
  reduceM (groupStep host g) rest acc = Ok out ->
  grouped (items ++ rest)%list out.
Proof.
  revert items acc; induction rest as [| item rest IH]; cbn; intros items acc G H.
  - inversion H; subst. rewrite app_nil_r. exact G.
  - apply bind_Ok_inv in H. destruct H as (acc' & Hstep & H).
    replace (items ++ item :: rest)%list with ((items ++ [item]) ++ rest)%list
      by (rewrite <- app_assoc; reflexivity).
    eapply IH; [| exact H]. eapply groupStep_grouped; eassumption.
Qed.

(** The grouping loop, when it returns, has put every record in the
    bucket of its key. *)
Lemma groupItems_grouped items groups :
  groupItems host g items = Ok groups -> grouped items groups.
Proof.
  intro H. apply (reduceM_grouped [] items [] groups grouped_nil H).
Qed.

(** A step of the grouping loop returns exactly when the key of the
    record is computed and names no member of [Object.prototype]. *)
Lemma groupStep_Ok_iff items acc item :
  grouped items acc ->
  (forall it k, In it items -> keyOf it = Ok k -> isInherited k = false) ->
  ((exists acc', groupStep host g acc item = Ok acc')
   <-> exists k, keyOf item = Ok k /\ isInherited k = false).
Proof.
  intros G Hprev. split.
  - intros (acc' & H). apply groupStep_Ok_inv in H. destruct H as (k & Hk & H).
    exists k. split; [exact Hk |].
    destruct (getOwn acc k) as [members |] eqn:Hget; [| apply H].
    destruct (grouped_get_Some _ _ _ _ G Hget) as [Hm Hne].
    destruct members as [| m ms]; [congruence |].
    assert (Hin : In m (bucket k items)) by (rewrite <- Hm; left; reflexivity).
    apply bucket_In in Hin. destruct Hin as [Hin Hkm]. exact (Hprev m k Hin Hkm).
  - intros (k & Hk & Hno). unfold groupStep. rewrite Hk. cbn [bind].
    destruct (getOwn acc k); [eauto |]. rewrite Hno. eauto.
Qed.

Lemma reduceM_group_Ok_iff items rest acc :
  grouped items acc ->
  (forall it k, In it items -> keyOf it = Ok k -> isInherited k = false) ->
  ((exists out, reduceM (groupStep host g) rest acc = Ok out)
   <-> forall it, In it rest -> exists k, keyOf it = Ok k /\ isInherited k = false).
Proof.
  revert items acc; induction rest as [| item rest IH]; cbn; intros items acc G Hprev.
  - split; [tauto | eauto].
  - pose proof (groupStep_Ok_iff items acc item G Hprev) as Hstep.
    destruct (groupStep host g acc item) as [acc' | e] eqn:E; cbn.
    + assert (Hitem : exists k, keyOf item = Ok k /\ isInherited k = false)
        by (apply Hstep; eauto).
      assert (G' : grouped (items ++ [item])%list acc')
        by (eapply groupStep_grouped; eassumption).
      assert (Hprev' : forall it k, In it (items ++ [item])%list ->
                                    keyOf it = Ok k -> isInherited k = false).
      { intros it k Hin Hk. apply in_app_or in Hin.
        destruct Hin as [Hin | [<- | []]]; [eauto |].
        destruct Hitem as (k' & Hk' & Hno). congruence. }
      rewrite (IH _ _ G' Hprev'). split.
      * intros H it [<- | Hin]; auto.
      * intros H it Hin. apply H. right. exact Hin.
    + split; [intros (? & H); discriminate |].
      intro H. exfalso.
      assert (Hitem : exists k, keyOf item = Ok k /\ isInherited k = false)
        by (apply H; auto).
      apply Hstep in Hitem. destruct Hitem as (? & ?); discriminate.
Qed.

Lemma groupItems_Ok_iff items :
  (exists groups, groupItems host g items = Ok groups)
  <-> forall it, In it items -> exists k, keyOf it = Ok k /\ isInherited k = false.
Proof.
  apply (reduceM_group_Ok_iff [] items [] grouped_nil). intros it k [].
Qed.

(** What the grouping loop throws: the exception of a key that is not
    computed, or the [TypeError] of a key that names an inherited
    member. *)
Lemma groupItems_Throw_inv items e :
  groupItems host g items = Throw e ->
  (exists item, In item items /\ keyOf item = Throw e)
  \/ (e = TypeError "acc[key].push is not a function"
      /\ exists item k, In item items /\ keyOf item = Ok k /\ isInherited k = true).
Proof.
  unfold groupItems. intro H. apply reduceM_Throw_inv in H.
  destruct H as (item & acc & Hin & Hstep).
  apply groupStep_Throw_inv in Hstep.
  destruct Hstep as [Hk | (k & Hk & _ & Hinh & ->)]; [left | right]; eauto 6.
Qed.

Lemma keysComputed_spec items :
  keysComputed host g items = true
  <-> forall it, In it items -> exists k, keyOf it = Ok k.
Proof.
  unfold keysComputed. rewrite forallb_forall.
  split; intros H it Hin; specialize (H it Hin).
  - destruct (keyOf it) as [k | e]; [eauto | discriminate].
  - destruct H as (k & ->). reflexivity.
Qed.

End Grouping.

(** ** The order of the doubles *)

Section FloatOrder.

Import SpecFloat.
Local Open Scope Z_scope.

Ltac lexsolve :=
  repeat match goal with
         | |- context [Z.compare ?a ?b] => destruct (Z.compare_spec a b)
         | H : context [Z.compare ?a ?b] |- _ => destruct (Z.compare_spec a b)
         | |- context [Pos.compare_cont Eq ?a ?b] =>
             change (Pos.compare_cont Eq a b) with (Pos.compare a b);
             destruct (Pos.compare_spec a b)
         | H : context [Pos.compare_cont Eq ?a ?b] |- _ =>
             change (Pos.compare_cont Eq a b) with (Pos.compare a b) in H;
             destruct (Pos.compare_spec a b)
         end; cbn in *; try congruence; try lia.

Lemma SFleb_trans (x y z : spec_float) :
  SFleb x y = true -> SFleb y z = true -> SFleb x z = true.
Proof.
  unfold SFleb.
  destruct x as [sx | sx | | sx mx ex], y as [sy | sy | | sy my ey],
           z as [sz | sz | | sz mz ez]; cbn; try congruence;
    repeat match goal with s : bool |- _ => destruct s end; cbn; try congruence;
    intros H1 H2; lexsolve.
Qed.

Lemma SFltb_leb (x y : spec_float) : SFltb x y = true -> SFleb x y = true.
Proof.
  unfold SFltb, SFleb. destruct (SFcompare x y) as [[] |]; congruence.
Qed.

Lemma SFleb_total (x y : spec_float) :
  x <> S754_nan -> y <> S754_nan -> SFltb x y = false -> SFleb y x = true.
Proof.
  unfold SFltb, SFleb.
  destruct x as [sx | sx | | sx mx ex], y as [sy | sy | | sy my ey]; cbn;
    try congruence;
    repeat match goal with s : bool |- _ => destruct s end; cbn; try congruence;
    intros _ _ H; lexsolve.
Qed.

Lemma SFleb_refl (x : spec_float) : x <> S754_nan -> SFleb x x = true.
Proof.
  unfold SFleb. destruct x as [sx | sx | | sx mx ex]; cbn; try congruence;
    destruct sx; cbn; try congruence; intros _; lexsolve.
Qed.

Lemma is_nan_spec (a : PrimFloat.float) :
  PrimFloat.is_nan a = true <-> FloatOps.Prim2SF a = S754_nan.
Proof.
  unfold PrimFloat.is_nan. rewrite FloatAxioms.eqb_spec. unfold SFeqb.
  destruct (FloatOps.Prim2SF a) as [s | s | | s m e]; cbn.
  - split; discriminate.
  - destruct s; cbn; split; discriminate.
  - split; reflexivity.
  - destruct s; cbn; rewrite Z.compare_refl;
      change (Pos.compare_cont Eq m m) with (Pos.compare m m);
      rewrite Pos.compare_refl; cbn; split; discriminate.
Qed.

Lemma is_nan_false (a : PrimFloat.float) :
  PrimFloat.is_nan a = false <-> FloatOps.Prim2SF a <> S754_nan.
Proof.
  rewrite <- is_nan_spec. destruct (PrimFloat.is_nan a); split; congruence.
Qed.

Lemma is_nan_eq (a : PrimFloat.float) : PrimFloat.is_nan a = true -> a = PrimFloat.nan.
Proof.
  intro H. apply is_nan_spec in H. apply FloatAxioms.Prim2SF_inj. rewrite H. reflexivity.
Qed.

Lemma leb_trans (a b c : PrimFloat.float) :
  PrimFloat.leb a b = true -> PrimFloat.leb b c = true -> PrimFloat.leb a c = true.
Proof. rewrite !FloatAxioms.leb_spec. apply SFleb_trans. Qed.

Lemma ltb_leb (a b : PrimFloat.float) :
  PrimFloat.ltb a b = true -> PrimFloat.leb a b = true.
Proof. rewrite FloatAxioms.ltb_spec, FloatAxioms.leb_spec. apply SFltb_leb. Qed.

Lemma leb_total (a b : PrimFloat.float) :
  PrimFloat.is_nan a = false -> PrimFloat.is_nan b = false ->
  PrimFloat.ltb a b = false -> PrimFloat.leb b a = true.
Proof.
  rewrite !is_nan_false, FloatAxioms.ltb_spec, FloatAxioms.leb_spec.
  apply SFleb_total.
Qed.

Lemma leb_refl (a : PrimFloat.float) :
  PrimFloat.is_nan a = false -> PrimFloat.leb a a = true.
Proof. rewrite is_nan_false, FloatAxioms.leb_spec. apply SFleb_refl. Qed.

Lemma leb_not_nan (a b : PrimFloat.float) :
  PrimFloat.leb a b = true -> PrimFloat.is_nan a = false /\ PrimFloat.is_nan b = false.
Proof.
  rewrite FloatAxioms.leb_spec, !is_nan_false. unfold SFleb.
  destruct (FloatOps.Prim2SF a), (FloatOps.Prim2SF b); cbn; try discriminate;
    split; discriminate.
Qed.

Lemma isNegativeZero_spec (a : PrimFloat.float) :
  Double.isNegativeZero a = true -> FloatOps.Prim2SF a = S754_zero true.
Proof.
  unfold Double.isNegativeZero. rewrite FloatAxioms.classify_spec.
  unfold FloatAxioms.SF64classify, SFclassify.
  destruct (FloatOps.Prim2SF a) as [[] | [] | | [] m e]; try discriminate;
    try reflexivity; destruct (Z.eqb _ _); discriminate.
Qed.

Lemma isPositiveZero_spec (a : PrimFloat.float) :
  Double.isPositiveZero a = true -> FloatOps.Prim2SF a = S754_zero false.
Proof.
  unfold Double.isPositiveZero. rewrite FloatAxioms.classify_spec.
  unfold FloatAxioms.SF64classify, SFclassify.
  destruct (FloatOps.Prim2SF a) as [[] | [] | | [] m e]; try discriminate;
    try reflexivity; destruct (Z.eqb _ _); discriminate.
Qed.

Lemma zeros_leb (a b : PrimFloat.float) (s t : bool) :
  FloatOps.Prim2SF a = S754_zero s -> FloatOps.Prim2SF b = S754_zero t ->
  PrimFloat.leb a b = true.
Proof. intros Ha Hb. rewrite FloatAxioms.leb_spec, Ha, Hb. reflexivity. Qed.

Lemma infinity_leb (v : PrimFloat.float) :
  PrimFloat.leb PrimFloat.infinity v = true -> v = PrimFloat.infinity.
Proof.
  rewrite FloatAxioms.leb_spec. intro H. apply FloatAxioms.Prim2SF_inj.
  change (FloatOps.Prim2SF PrimFloat.infinity) with (S754_infinity false) in *.
  unfold SFleb in H.
  destruct (FloatOps.Prim2SF v) as [s | s | | s m e]; cbn in H; try discriminate.
  destruct s; [discriminate | reflexivity].
Qed.

Lemma leb_neg_infinity (v : PrimFloat.float) :
  PrimFloat.leb v PrimFloat.neg_infinity = true -> v = PrimFloat.neg_infinity.
Proof.
  rewrite FloatAxioms.leb_spec. intro H. apply FloatAxioms.Prim2SF_inj.
  change (FloatOps.Prim2SF PrimFloat.neg_infinity) with (S754_infinity true) in *.
  unfold SFleb in H.
  destruct (FloatOps.Prim2SF v) as [s | s | | s m e]; cbn in H; try discriminate;
    destruct s; (reflexivity || discriminate).
Qed.

End FloatOrder.

Lemma hasNaN_cons (n : Double.number) (rest : list Double.number) :
  hasNaN (n :: rest) = false -> Double.isNaN n = false /\ hasNaN rest = false.
Proof. unfold hasNaN. cbn. apply orb_false_iff. Qed.

Lemma hasNaN_In (values : list Double.number) (v : Double.number) :
  hasNaN values = false -> In v values -> PrimFloat.is_nan v = false.
Proof.
  unfold hasNaN. intros H Hin.
  destruct (PrimFloat.is_nan v) eqn:E; [| reflexivity].
  assert (existsb Double.isNaN values = true) by (apply existsb_exists; eauto).
  congruence.
Qed.

Lemma minFrom_NaN (values : list Double.number) (lowest : Double.number) :
  hasNaN values = true -> Double.minFrom lowest values = PrimFloat.nan.
Proof.
  revert lowest; induction values as [| n rest IH]; cbn; intros lowest H;
    [discriminate |].
  destruct (Double.isNaN n) eqn:En; [reflexivity |]. cbn in H.
  destruct (Double.isNegativeZero n && Double.isPositiveZero lowest); [apply IH, H |].
  destruct (PrimFloat.ltb n lowest); apply IH, H.
Qed.

Lemma minFrom_least (values : list Double.number) (lowest : Double.number) :
  PrimFloat.is_nan lowest = false ->
  hasNaN values = false ->
  let r := Double.minFrom lowest values in
  (r = lowest \/ In r values)
  /\ PrimFloat.leb r lowest = true
  /\ forall v, In v values -> PrimFloat.leb r v = true.
Proof.
  revert lowest; induction values as [| n rest IH]; cbn [Double.minFrom];
    intros lowest Hl Hv.
  - cbn. split; [auto |]. split; [apply leb_refl, Hl | intros ? []].
  - apply hasNaN_cons in Hv. destruct Hv as [Hn Hrest]. rewrite Hn.
    assert (Hcase : forall (Hle : PrimFloat.leb n lowest = true),
               let r := Double.minFrom n rest in
               (r = lowest \/ In r (n :: rest))
               /\ PrimFloat.leb r lowest = true
               /\ forall v, In v (n :: rest) -> PrimFloat.leb r v = true).
    { intros Hle. destruct (IH n Hn Hrest) as (Hin & Hrn & Hall).
      split; [right; destruct Hin as [-> | Hin]; [left | right]; auto |].
      split; [eapply leb_trans; eassumption |].
      intros v [<- | Hin']; auto. }
    destruct (Double.isNegativeZero n && Double.isPositiveZero lowest) eqn:Ez.
    { apply andb_true_iff in Ez. destruct Ez as [E1 E2].
      apply Hcase. eapply zeros_leb;
        [apply isNegativeZero_spec, E1 | apply isPositiveZero_spec, E2]. }
    destruct (PrimFloat.ltb n lowest) eqn:Elt.
    { apply Hcase, ltb_leb, Elt. }
    destruct (IH lowest Hl Hrest) as (Hin & Hrl & Hall).
    split; [destruct Hin as [-> | Hin]; [left | right; right]; auto |].
    split; [exact Hrl |].
    intros v [<- | Hin']; [| auto].
    apply (leb_trans _ lowest); [exact Hrl | apply leb_total; assumption].
Qed.

(** [Math.min] over values with no [NaN] is one of them and is below
    each; with a [NaN] among them it is [NaN]. *)
Lemma Math_min_spec (values : list Double.number) :
  values <> [] ->
  (hasNaN values = true -> Double.isNaN (Double.Math_min values) = true)
  /\ (hasNaN values = false ->
      In (Double.Math_min values) values
      /\ forall v, In v values -> PrimFloat.leb (Double.Math_min values) v = true).
Proof.
  intro Hne. unfold Double.Math_min. split.
  - intro H. rewrite (minFrom_NaN _ _ H). reflexivity.
  - intro H. destruct (minFrom_least values PrimFloat.infinity eq_refl H)
      as (Hin & _ & Hall).
    split; [| exact Hall].
    destruct Hin as [E | Hin]; [| exact Hin].
    destruct values as [| v0 rest]; [congruence |].
    pose proof (Hall v0 (or_introl eq_refl)) as H0. rewrite E in H0 |- *.
    apply infinity_leb in H0. subst v0. left; reflexivity.
Qed.

Lemma maxFrom_NaN (values : list Double.number) (highest : Double.number) :
  hasNaN values = true -> Double.maxFrom highest values = PrimFloat.nan.
Proof.
  revert highest; induction values as [| n rest IH]; cbn; intros highest H;
    [discriminate |].
  destruct (Double.isNaN n) eqn:En; [reflexivity |]. cbn in H.
  destruct (Double.isPositiveZero n && Double.isNegativeZero highest); [apply IH, H |].
  destruct (PrimFloat.ltb highest n); apply IH, H.
Qed.

Lemma maxFrom_greatest (values : list Double.number) (highest : Double.number) :
  PrimFloat.is_nan highest = false ->
  hasNaN values = false ->
  let r := Double.maxFrom highest values in
  (r = highest \/ In r values)
  /\ PrimFloat.leb highest r = true
  /\ forall v, In v values -> PrimFloat.leb v r = true.
Proof.
  revert highest; induction values as [| n rest IH]; cbn [Double.maxFrom];
    intros highest Hl Hv.
  - cbn. split; [auto |]. split; [apply leb_refl, Hl | intros ? []].
  - apply hasNaN_cons in Hv. destruct Hv as [Hn Hrest]. rewrite Hn.
    assert (Hcase : forall (Hle : PrimFloat.leb highest n = true),
               let r := Double.maxFrom n rest in
               (r = highest \/ In r (n :: rest))
               /\ PrimFloat.leb highest r = true
               /\ forall v, In v (n :: rest) -> PrimFloat.leb v r = true).
    { intros Hle. destruct (IH n Hn Hrest) as (Hin & Hrn & Hall).
      split; [right; destruct Hin as [-> | Hin]; [left | right]; auto |].
      split; [eapply leb_trans; eassumption |].
      intros v [<- | Hin']; auto. }
    destruct (Double.isPositiveZero n && Double.isNegativeZero highest) eqn:Ez.
    { apply andb_true_iff in Ez. destruct Ez as [E1 E2].
      apply Hcase. eapply zeros_leb;
        [apply isNegativeZero_spec, E2 | apply isPositiveZero_spec, E1]. }
    destruct (PrimFloat.ltb highest n) eqn:Elt.
    { apply Hcase, ltb_leb, Elt. }
    destruct (IH highest Hl Hrest) as (Hin & Hrl & Hall).
    split; [destruct Hin as [-> | Hin]; [left | right; right]; auto |].
    split; [exact Hrl |].
    intros v [<- | Hin']; [| auto].
    apply (leb_trans n highest); [apply leb_total; assumption | exact Hrl].
Qed.

Lemma Math_max_spec (values : list Double.number) :
  values <> [] ->
  (hasNaN values = true -> Double.isNaN (Double.Math_max values) = true)
  /\ (hasNaN values = false ->
      In (Double.Math_max values) values
      /\ forall v, In v values -> PrimFloat.leb v (Double.Math_max values) = true).
Proof.
  intro Hne. unfold Double.Math_max. split.
  - intro H. rewrite (maxFrom_NaN _ _ H). reflexivity.
  - intro H. destruct (maxFrom_greatest values PrimFloat.neg_infinity eq_refl H)
      as (Hin & _ & Hall).
    split; [| exact Hall].
    destruct Hin as [E | Hin]; [| exact Hin].
    destruct values as [| v0 rest]; [congruence |].
    pose proof (Hall v0 (or_introl eq_refl)) as H0. rewrite E in H0 |- *.
    apply leb_neg_infinity in H0. subst v0. left; reflexivity.
Qed.

(** ** The sign of a difference *)

Section Subtraction.

Import SpecFloat.
Local Open Scope Z_scope.

Local Abbreviation prec := FloatOps.prec.
Local Abbreviation emax := FloatOps.emax.
Local Abbreviation emin := (SpecFloat.emin prec emax).
Local Abbreviation fexp := (SpecFloat.fexp prec emax).

Lemma digits2_pos_bounds (m : positive) :
  2 ^ (Zpos (digits2_pos m) - 1) <= Zpos m < 2 ^ Zpos (digits2_pos m).
Proof.
  induction m as [p IH | p IH |]; cbn [digits2_pos].
  - rewrite Pos2Z.inj_succ.
    replace (Z.succ (Zpos (digits2_pos p)) - 1) with (Z.succ (Zpos (digits2_pos p) - 1)) by lia.
    rewrite !Z.pow_succ_r by lia. lia.
  - rewrite Pos2Z.inj_succ.
    replace (Z.succ (Zpos (digits2_pos p)) - 1) with (Z.succ (Zpos (digits2_pos p) - 1)) by lia.
    rewrite !Z.pow_succ_r by lia. lia.
  - cbn. lia.
Qed.

Lemma shr_1_m (mrs : shr_record) :
  0 <= shr_m mrs -> shr_m (shr_1 mrs) = shr_m mrs / 2.
Proof.
  destruct mrs as [m r s]. cbn [shr_m]. intro H.
  destruct m as [| p | p]; [reflexivity | | lia].
  destruct p as [p | p |]; cbn [shr_1 shr_m].
  - apply (Z.div_unique _ _ _ 1); lia.
  - apply (Z.div_unique _ _ _ 0); lia.
  - reflexivity.
Qed.

Lemma iter_shr_1_m (p : positive) (mrs : shr_record) :
  0 <= shr_m mrs ->
  shr_m (iter_pos shr_1 p mrs) = shr_m mrs / 2 ^ Zpos p.
Proof.
  revert mrs; induction p as [p IH | p IH |]; intros mrs H; cbn [iter_pos].
  - assert (H1 : 0 <= shr_m (shr_1 mrs)) by (rewrite shr_1_m by exact H; apply Z.div_pos; lia).
    assert (H2 : 0 <= shr_m (iter_pos shr_1 p (shr_1 mrs)))
      by (rewrite IH by exact H1; apply Z.div_pos; lia).
    rewrite IH by exact H2. rewrite IH by exact H1. rewrite shr_1_m by exact H.
    rewrite !Z.div_div by lia.
    f_equal. rewrite Pos2Z.inj_xI. rewrite <- Z.pow_add_r by lia.
    replace (2 * Zpos p + 1) with (1 + (Zpos p + Zpos p)) by lia.
    rewrite (Z.pow_add_r 2 1) by lia. reflexivity.
  - assert (H2 : 0 <= shr_m (iter_pos shr_1 p mrs))
      by (rewrite IH by exact H; apply Z.div_pos; lia).
    rewrite IH by exact H2. rewrite IH by exact H.
    rewrite Z.div_div by lia.
    f_equal. rewrite Pos2Z.inj_xO. rewrite <- Z.pow_add_r by lia. f_equal. lia.
  - rewrite shr_1_m by exact H. reflexivity.
Qed.

Lemma shr_record_of_loc_m (m : Z) (l : location) : shr_m (shr_record_of_loc m l) = m.
Proof. destruct l as [| []]; reflexivity. Qed.

(** Rounding to the format keeps a positive mantissa positive when the
    exponent is not below the least one. *)
Lemma shr_fexp_pos (m e : Z) (l : location) :
  0 < m -> emin <= e ->
  0 < shr_m (fst (shr_fexp prec emax m e l)) /\ emin <= snd (shr_fexp prec emax m e l).
Proof.
  intros Hm He. unfold shr_fexp, shr.
  destruct m as [| p | p]; try lia. cbn [Zdigits2].
  pose proof (digits2_pos_bounds p) as Hd.
  set (d := Zpos (digits2_pos p)) in *.
  assert (Hd1 : 1 <= d) by (unfold d; lia).
  destruct (SpecFloat.fexp prec emax (d + e) - e) as [| n | n] eqn:En; cbn [fst snd];
    rewrite ?shr_record_of_loc_m; try lia.
  rewrite iter_shr_1_m by (rewrite shr_record_of_loc_m; lia).
  rewrite shr_record_of_loc_m.
  unfold SpecFloat.fexp in En.
  assert (Hn : Zpos n = d - prec) by (unfold FloatOps.prec in *; lia).
  split; [| lia].
  apply Z.div_str_pos. split; [apply Z.pow_pos_nonneg; lia |].
  eapply Z.le_trans; [| apply Hd].
  apply Z.pow_le_mono_r; [lia |]. unfold FloatOps.prec in Hn. lia.
Qed.

Lemma round_nearest_even_ge (m : Z) (l : location) : m <= round_nearest_even m l.
Proof. destruct l as [| []]; cbn; try lia. destruct (Z.even m); lia. Qed.

Lemma binary_round_aux_signed (s : bool) (m e : Z) (l : location) :
  0 < m -> emin <= e -> signed s (binary_round_aux prec emax s m e l).
Proof.
  intros Hm He. unfold binary_round_aux.
  pose proof (shr_fexp_pos m e l Hm He) as [H1 H2].
  destruct (shr_fexp prec emax m e l) as [mrs' e']. cbn [fst snd] in H1, H2.
  assert (H3 : 0 < round_nearest_even (shr_m mrs') (loc_of_shr_record mrs'))
    by (pose proof (round_nearest_even_ge (shr_m mrs') (loc_of_shr_record mrs')); lia).
  pose proof (shr_fexp_pos _ e' loc_Exact H3 H2) as [H4 H5].
  destruct (shr_fexp prec emax _ e' loc_Exact) as [mrs'' e'']. cbn [fst snd] in H4, H5.
  destruct (shr_m mrs'') as [| q | q]; try lia.
  destruct (e'' <=? emax - prec); [left; eauto | right; reflexivity].
Qed.

Lemma binary_round_signed (s : bool) (m : positive) (e : Z) :
  emin <= e -> signed s (binary_round prec emax s m e).
Proof.
  intro He. unfold binary_round, shl_align.
  destruct (SpecFloat.fexp prec emax (Zpos (digits2_pos m) + e) - e) as [| n | n] eqn:En;
    apply binary_round_aux_signed; try lia.
  unfold SpecFloat.fexp. lia.
Qed.

Lemma SFltb_zero_signed (s : bool) (x : spec_float) :
  signed s x -> SFltb (S754_zero false) x = negb s.
Proof.
  intros [(m & e & ->) | ->]; destruct s; reflexivity.
Qed.

Lemma iter_xO (m d : positive) : Zpos (Pos.iter xO m d) = Zpos m * 2 ^ Zpos d.
Proof.
  induction d as [| d IH] using Pos.peano_ind.
  - cbn. lia.
  - rewrite Pos.iter_succ, Pos2Z.inj_xO, IH, Pos2Z.inj_succ, Z.pow_succ_r by lia. lia.
Qed.

Lemma shl_align_value (m : positive) (e e' : Z) :
  e' <= e -> Zpos (fst (shl_align m e e')) = Zpos m * 2 ^ (e - e').
Proof.
  intro H. unfold shl_align.
  destruct (e' - e) as [| n | n] eqn:En; cbn [fst]; try lia.
  - replace (e - e') with 0 by lia. lia.
  - rewrite iter_xO. f_equal. f_equal. lia.
Qed.

(** The mantissa of a valid double has at most [prec] bits, and exactly
    [prec] bits above the least exponent. *)
Lemma bounded_digits (m : positive) (e : Z) :
  bounded prec emax m e = true ->
  emin <= e /\ Zpos (digits2_pos m) <= prec
  /\ (emin < e -> Zpos (digits2_pos m) = prec).
Proof.
  unfold bounded, canonical_mantissa. intro H.
  apply andb_true_iff in H. destruct H as [H _]. apply Z.eqb_eq in H.
  unfold SpecFloat.fexp in H. lia.
Qed.

Lemma aligned_lt (mx my : positive) (ex ey : Z) :
  bounded prec emax mx ex = true -> bounded prec emax my ey = true ->
  ey < ex ->
  Zpos my * 2 ^ (ey - Z.min ex ey) < Zpos mx * 2 ^ (ex - Z.min ex ey).
Proof.
  intros Hx Hy Hlt.
  apply bounded_digits in Hx, Hy.
  destruct Hx as (Hex & _ & Hdx), Hy as (Hey & Hdy & _).
  specialize (Hdx ltac:(lia)).
  pose proof (digits2_pos_bounds mx) as Bx. pose proof (digits2_pos_bounds my) as By.
  rewrite Hdx in Bx.
  replace (Z.min ex ey) with ey by lia. replace (ey - ey) with 0 by lia.
  rewrite Z.pow_0_r, Z.mul_1_r.
  assert (Hp : 2 ^ Zpos (digits2_pos my) <= 2 ^ prec) by (apply Z.pow_le_mono_r; lia).
  assert (H2 : 2 <= 2 ^ (ex - ey)).
  { change 2 with (2 ^ 1) at 1. apply Z.pow_le_mono_r; lia. }
  assert (Hprec : 2 ^ prec = 2 * 2 ^ (prec - 1)).
  { replace prec with (Z.succ (prec - 1)) at 1 by lia.
    apply Z.pow_succ_r. unfold FloatOps.prec. lia. }
  nia.
Qed.

(** The sign of a difference is that of the comparison: the difference of
    two doubles is above 0 exactly when the first is above the second. *)
Lemma SFsub_positive (x y : spec_float) :
  valid_binary prec emax x = true -> valid_binary prec emax y = true ->
  SFltb (S754_zero false) (SFsub prec emax x y) = SFltb y x.
Proof.
  intros Vx Vy.
  destruct x as [sx | sx | | sx mx ex], y as [sy | sy | | sy my ey];
    try reflexivity;
    try (destruct sx; try destruct sy; reflexivity);
    try (destruct sy; reflexivity).
  cbn [valid_binary] in Vx, Vy. cbn [SFsub].
  pose proof (bounded_digits _ _ Vx) as (Hex & _ & _).
  pose proof (bounded_digits _ _ Vy) as (Hey & _ & _).
  set (ez := Z.min ex ey).
  assert (Hez : emin <= ez) by (unfold ez; lia).
  rewrite !shl_align_value by (unfold ez; lia).
  set (X := Zpos mx * 2 ^ (ex - ez)). set (Y := Zpos my * 2 ^ (ey - ez)).
  assert (HX : 0 < X) by (unfold X; apply Z.mul_pos_pos; [lia | apply Z.pow_pos_nonneg; unfold ez; lia]).
  assert (HY : 0 < Y) by (unfold Y; apply Z.mul_pos_pos; [lia | apply Z.pow_pos_nonneg; unfold ez; lia]).
  assert (Hcmp : (ey < ex -> Y < X) /\ (ex < ey -> X < Y)
                 /\ (ex = ey -> X = Zpos mx /\ Y = Zpos my)).
  { split; [| split].
    - intro H. apply aligned_lt; assumption.
    - intro H. unfold X, Y, ez. rewrite Z.min_comm. apply aligned_lt; assumption.
    - intro H. unfold X, Y, ez. subst ey. rewrite Z.min_id, Z.sub_diag. lia. }
  destruct Hcmp as (Hc1 & Hc2 & Hc3).
  assert (Hsign : forall D : Z,
             SFltb (S754_zero false) (binary_normalize prec emax D ez false)
             = (0 <? D)).
  { intros [| q | q]; cbn [binary_normalize].
    - reflexivity.
    - rewrite (SFltb_zero_signed false) by (apply binary_round_signed; exact Hez).
      reflexivity.
    - rewrite (SFltb_zero_signed true) by (apply binary_round_signed; exact Hez).
      reflexivity. }
  rewrite Hsign.
  remember (cond_Zopp sx X - cond_Zopp sy Y) as D eqn:HD.
  unfold SFltb, SFcompare.
  destruct sx, sy; unfold cond_Zopp in HD;
    try (destruct (Z.ltb_spec 0 D); (reflexivity || lia)).
  - destruct (Z.compare_spec ey ex) as [E | E | E].
    + destruct (Hc3 (eq_sym E)) as [HXm HYm].
      change (Pos.compare_cont Eq my mx) with (Pos.compare my mx).
      destruct (Pos.compare_spec my mx); destruct (Z.ltb_spec 0 D);
        (reflexivity || lia).
    + specialize (Hc1 E). destruct (Z.ltb_spec 0 D); (reflexivity || lia).
    + specialize (Hc2 E). destruct (Z.ltb_spec 0 D); (reflexivity || lia).
  - destruct (Z.compare_spec ey ex) as [E | E | E].
    + destruct (Hc3 (eq_sym E)) as [HXm HYm].
      change (Pos.compare_cont Eq my mx) with (Pos.compare my mx).
      destruct (Pos.compare_spec my mx); destruct (Z.ltb_spec 0 D);
        (reflexivity || lia).
    + specialize (Hc1 E). destruct (Z.ltb_spec 0 D); (reflexivity || lia).
    + specialize (Hc2 E). destruct (Z.ltb_spec 0 D); (reflexivity || lia).
Qed.

Lemma sub_positive (a b : PrimFloat.float) :
  PrimFloat.ltb PrimFloat.zero (PrimFloat.sub a b) = PrimFloat.ltb b a.
Proof.
  rewrite !FloatAxioms.ltb_spec, FloatAxioms.sub_spec.
  change (FloatOps.Prim2SF PrimFloat.zero) with (S754_zero false).
  apply SFsub_positive; apply FloatAxioms.Prim2SF_valid.
Qed.

End Subtraction.

(** ** Aggregation *)

(** The numeric values are those of the members whose field resolves to
    a number, in member order. *)
Lemma numbers_In (vals : list value) (x : Double.number) :
  In x (numbers vals) <-> In (VNum x) vals.
Proof.
  induction vals as [| v rest IH]; cbn; [tauto |].
  destruct v; cbn; rewrite IH; split; intros H;
    try (right; exact H); try (destruct H as [H | H]; [discriminate | exact H]).
  - destruct H as [-> | H]; auto.
  - destruct H as [H | H]; [inversion H |]; auto.
Qed.


Lemma numbers_length_le (vals : list value) :
  (List.length (numbers vals) <= List.length vals)%nat.
Proof.
  induction vals as [| v rest IH]; cbn; [lia |].
  destruct v; cbn; lia.
Qed.

Lemma numbers_nil_iff (vals : list value) :
  numbers vals = [] <-> forall v, In v vals -> isNumber v = false.
Proof.
  induction vals as [| v rest IH]; cbn.
  - split; [intros _ ? [] | reflexivity].
  - destruct v; cbn;
      try (rewrite IH; split;
           [ intros H w [<- | Hin]; [reflexivity | apply H, Hin]
           | intros H w Hin; apply H; right; exact Hin ]).
    split; [discriminate |]. intro H.
    specialize (H _ (or_introl eq_refl)). discriminate.
Qed.

Lemma mapM_length (A B : Type) (f : A -> result B) (l : list A) (out : list B) :
  mapM f l = Ok out -> List.length out = List.length l.
Proof.
  intro H. apply mapM_Ok_Forall2 in H.
  induction H; cbn; [reflexivity | f_equal; assumption].
Qed.

Section Aggregates.

Variable host : Host.

Local Abbreviation step := (aggregateStep host).
Local Abbreviation valuesOf := (fieldValues host).

Lemma knownKind_false (kind : string) :
  knownKind kind = false ->
  String.eqb kind "sum" = false /\ String.eqb kind "avg" = false
  /\ String.eqb kind "min" = false /\ String.eqb kind "max" = false
  /\ String.eqb kind "count" = false.
Proof.
  unfold knownKind. cbn [existsb]. intro H.
  repeat (apply orb_false_iff in H; destruct H as [? H]). auto.
Qed.

Lemma fieldValues_Ok_inv field members values :
  valuesOf field members = Ok values ->
  exists resolved,
    mapM (fun member => getNestedValue host member field) members = Ok resolved
    /\ values = numbers resolved.
Proof.
  unfold fieldValues. intro H. apply bind_Ok_inv in H.
  destruct H as (resolved & Hr & H). inversion H. eauto.
Qed.

Lemma fieldValues_length field members values :
  valuesOf field members = Ok values ->
  (List.length values <= List.length members)%nat.
Proof.
  intro H. apply fieldValues_Ok_inv in H. destruct H as (resolved & Hr & ->).
  rewrite <- (mapM_length _ _ _ _ _ Hr). apply numbers_length_le.
Qed.

Lemma fieldValues_Throw_inv field members e :
  valuesOf field members = Throw e ->
  exists member, In member members /\ getNestedValue host member field = Throw e.
Proof.
  unfold fieldValues. intro H. apply bind_Throw_inv in H.
  destruct H as [H | (? & _ & H)]; [| discriminate].
  apply mapM_Throw_inv in H. exact H.
Qed.

(** A member with a number for the field gives a value. *)
Lemma fieldValues_In field members values member x :
  valuesOf field members = Ok values ->
  In member members -> getNestedValue host member field = Ok (VNum x) ->
  In x values.
Proof.
  intros H Hin Hx. apply fieldValues_Ok_inv in H. destruct H as (resolved & Hr & ->).
  apply numbers_In.
  destruct (mapM_Ok_all _ _ _ _ _ Hr member Hin) as (y & Hy & E).
  rewrite Hx in E. inversion E; subst y. exact Hy.
Qed.


Lemma aggregateStep_outcome members acc field kind values :
  valuesOf field members = Ok values ->
  stepOutcome host acc field kind values (step members acc (field, kind)).
Proof.
  intro H. unfold aggregateStep. rewrite H. cbn [bind].
  destruct values as [| v vs] eqn:Ev; [constructor; reflexivity |].
  rewrite <- Ev in *. assert (Hne : values <> []) by (rewrite Ev; discriminate).
  clear Ev v vs.
  destruct (String.eqb kind "sum") eqn:E1.
  { apply String.eqb_eq in E1; subst kind.
    apply outcome_value; [exact Hne | reflexivity | discriminate |].
    constructor. exact Hne. }
  destruct (String.eqb kind "avg") eqn:E2.
  { apply String.eqb_eq in E2; subst kind.
    apply outcome_value; [exact Hne | reflexivity | discriminate |].
    constructor. exact Hne. }
  destruct (String.eqb kind "min") eqn:E3.
  { apply String.eqb_eq in E3; subst kind.
    destruct (spreadFits host (List.length values)) eqn:Es.
    - apply outcome_value; [exact Hne | reflexivity | intros _; exact Es |].
      constructor; [exact Hne | |]; apply (Math_min_spec values Hne).
    - apply outcome_stack; [exact Hne | reflexivity | exact Es]. }
  destruct (String.eqb kind "max") eqn:E4.
  { apply String.eqb_eq in E4; subst kind.
    destruct (spreadFits host (List.length values)) eqn:Es.
    - apply outcome_value; [exact Hne | reflexivity | intros _; exact Es |].
      constructor; [exact Hne | |]; apply (Math_max_spec values Hne).
    - apply outcome_stack; [exact Hne | reflexivity | exact Es]. }
  destruct (String.eqb kind "count") eqn:E5.
  { apply String.eqb_eq in E5; subst kind.
    apply outcome_value; [exact Hne | reflexivity | discriminate |].
    constructor. exact Hne. }
  apply outcome_unknown; [exact Hne |].
  unfold knownKind. cbn [existsb]. rewrite E1, E2, E3, E4, E5. reflexivity.
Qed.

(** What a step that returns has stored: the statistic of the kind over
    the numeric values of the field. *)
Lemma aggregateStep_Ok_inv members acc field kind acc' :
  step members acc (field, kind) = Ok acc' ->
  exists values v,
    valuesOf field members = Ok values
    /\ (acc' = assign acc field v \/ acc' = set acc field v)
    /\ statistic kind values v
    /\ (values = []
        \/ knownKind kind = true
           /\ (spreads kind = true -> spreadFits host (List.length values) = true)).
Proof.
  intro H. destruct (valuesOf field members) as [values | e] eqn:Hv.
  - pose proof (aggregateStep_outcome members acc field kind values Hv) as Ho.
    rewrite H in Ho. inversion Ho as [Hnil | v Hne Hk Hs Hstat | |]; subst.
    + exists [], VNull. split; [reflexivity |]. split; [right; reflexivity |].
      split; [constructor | left; reflexivity].
    + exists values, v. split; [reflexivity |]. split; [left; reflexivity |].
      split; [exact Hstat | right; split; assumption].
  - unfold aggregateStep in H. rewrite Hv in H. discriminate.
Qed.

Lemma aggregateStep_Ok_iff members acc field kind :
  (exists acc', step members acc (field, kind) = Ok acc')
  <-> exists values,
        valuesOf field members = Ok values
        /\ (values = []
            \/ knownKind kind = true
               /\ (spreads kind = true -> spreadFits host (List.length values) = true)).
Proof.
  split.
  - intros (acc' & H). apply aggregateStep_Ok_inv in H.
    destruct H as (values & v & Hv & _ & _ & Hc). eauto.
  - intros (values & Hv & Hc).
    pose proof (aggregateStep_outcome members acc field kind values Hv) as Ho.
    inversion Ho as [Hnil E | v Hne Hk Hs Hstat E | Hne Hs Hf E | Hne Hk E]; eauto.
    + exfalso. destruct Hc as [Hc | [_ Hc]]; [congruence |].
      rewrite (Hc Hs) in Hf. discriminate.
    + exfalso. destruct Hc as [Hc | [Hc _]]; congruence.
Qed.

Lemma aggregateStep_Throw_inv members acc field kind e :
  step members acc (field, kind) = Throw e ->
  valuesOf field members = Throw e
  \/ exists values,
       valuesOf field members = Ok values /\ values <> []
       /\ (spreads kind = true /\ spreadFits host (List.length values) = false
           /\ e = RangeError "Maximum call stack size exceeded"
           \/ knownKind kind = false /\ e = Error ("Unknown aggregation: " ++ kind)).
Proof.
  intro H. destruct (valuesOf field members) as [values | e'] eqn:Hv.
  - right. exists values. split; [reflexivity |].
    pose proof (aggregateStep_outcome members acc field kind values Hv) as Ho.
    rewrite H in Ho. inversion Ho; subst; auto 6.
  - left. unfold aggregateStep in H. rewrite Hv in H. cbn [bind] in H.
    inversion H. reflexivity.
Qed.


(** ** The object of a group *)

Lemma items_groupObject (identity aggs : object value) (members : list value) :
  items (groupObject identity aggs members) = members.
Proof.
  unfold items, groupObject.
  rewrite getOwn_set_other by discriminate. rewrite getOwn_set_same. reflexivity.
Qed.

Lemma aggregates_groupObject (identity aggs : object value) (members : list value) :
  aggregates (groupObject identity aggs members) = aggs.
Proof.
  unfold aggregates, groupObject.
  rewrite !getOwn_set_other by discriminate. rewrite getOwn_set_same. reflexivity.
Qed.

Lemma count_groupObject (identity aggs : object value) (members : list value) :
  count (groupObject identity aggs members)
  = VNum (Double.ofNat (List.length members)).
Proof. unfold count, groupObject. rewrite getOwn_set_same. reflexivity. Qed.

(** A property of [groupIdentity] is in the object of the group unless
    one of the three named properties takes its place. *)
Lemma getOwn_groupObject (identity aggs : object value) (members : list value)
      (name : string) :
  NoDup (map fst identity) ->
  isReservedName name = false ->
  getOwn (groupObject identity aggs members) name = getOwn identity name.
Proof.
  intros Hnd Hres. unfold isReservedName in Hres. cbn [existsb] in Hres.
  repeat (apply orb_false_iff in Hres; destruct Hres as [? Hres]).
  unfold groupObject.
  rewrite !getOwn_set_other
    by (intro E; subst name; cbn in *; discriminate).
  apply getOwn_entries. exact Hnd.
Qed.

Variable g : GroupBy.
Variable aggs : object string.

Lemma summarize_Ok_inv key members grp :
  summarize host g aggs (key, members) = Ok grp ->
  items grp = members
  /\ count grp = VNum (Double.ofNat (List.length members))
  /\ reduceM (step members) (entries aggs) [] = Ok (aggregates grp)
  /\ grp = groupObject (groupIdentity g key) (aggregates grp) members.
Proof.
  unfold summarize. intro H.
  apply bind_Ok_inv in H. destruct H as (a & Ha & H).
  inversion H; subst.
  rewrite items_groupObject, count_groupObject, aggregates_groupObject. auto.
Qed.

Lemma summarize_Throw_inv key members e :
  summarize host g aggs (key, members) = Throw e ->
  exists field kind a, In (field, kind) aggs
                       /\ step members a (field, kind) = Throw e.
Proof.
  unfold summarize. intro H. apply bind_Throw_inv in H.
  destruct H as [H | (? & _ & H)]; [| discriminate].
  apply reduceM_Throw_inv in H. destruct H as ([field kind] & a & Hin & Hthrow).
  exists field, kind, a. split; [apply entries_In; exact Hin | exact Hthrow].
Qed.

(** The map callback returns for a group exactly when each entry has its
    values resolved and, if there are any, a known kind whose statistic
    the call stack allows. *)
Lemma summarize_Ok_iff key members :
  (exists grp, summarize host g aggs (key, members) = Ok grp)
  <-> forall field kind, In (field, kind) aggs ->
        exists values,
          valuesOf field members = Ok values
          /\ (values = []
              \/ knownKind kind = true
                 /\ (spreads kind = true ->
                     spreadFits host (List.length values) = true)).
Proof.
  split.
  - intros (grp & H) field kind Hagg.
    apply summarize_Ok_inv in H. destruct H as (_ & _ & Hred & _).
    apply (proj2 (entries_In _ _)) in Hagg.
    destruct (reduceM_Ok_all _ _ _ _ _ _ Hred _ Hagg) as (a & a' & Hstep).
    apply (aggregateStep_Ok_iff members a field kind). eauto.
  - intro H. unfold summarize.
    destruct (reduceM_total _ _ (step members) (entries aggs) []) as (a & ->).
    + intros a [field kind] Hin. apply (proj1 (entries_In _ _)) in Hin.
      apply aggregateStep_Ok_iff. apply H. exact Hin.
    + cbn. eauto.
Qed.

End Aggregates.

(** ** The identity of a group *)

Lemma identityStep_NoDup (parts ks : list string) (st : object value * nat) :
  NoDup (map fst (fst st)) ->
  NoDup (map fst (fst (fold_left (identityStep parts) ks st))).
Proof.
  revert st; induction ks as [| k ks IH]; cbn [fold_left]; intros [acc i] H;
    [exact H |].
  apply IH. cbn [identityStep fst]. apply assign_NoDup. exact H.
Qed.

Lemma groupIdentity_NoDup (g : GroupBy) (key : string) :
  NoDup (map fst (groupIdentity g key)).
Proof. unfold groupIdentity. apply identityStep_NoDup. constructor. Qed.

(** ** Sorting the groups *)

Lemma insertBy_perm (A : Type) (cmp : A -> A -> Double.number) (x : A) (l : list A) :
  Permutation (insertBy cmp x l) (x :: l).
Proof.
  induction l as [| y rest IH]; cbn [insertBy]; [reflexivity |].
  destruct (PrimFloat.ltb PrimFloat.zero (cmp x y)); [| reflexivity].
  rewrite IH. apply perm_swap.
Qed.

Lemma sortWith_perm (A : Type) (cmp : A -> A -> Double.number) (l : list A) :
  Permutation (sortWith cmp l) l.
Proof.
  unfold sortWith. induction l as [| x rest IH]; cbn; [reflexivity |].
  rewrite insertBy_perm. apply perm_skip, IH.
Qed.

Lemma sortGroups_perm (sb : option SortBy) (result : list Group) :
  Permutation (sortGroups sb result) result.
Proof.
  unfold sortGroups. destruct sb as [sb |]; [| reflexivity].
  destruct (JsString.isEmpty (sortField sb)); [reflexivity | apply sortWith_perm].
Qed.

(** ** The whole call *)

Lemma concat_perm (A : Type) (l l' : list (list A)) :
  Permutation l l' -> Permutation (List.concat l) (List.concat l').
Proof.
  induction 1 as [| x l l' _ IH | x y l | l l' l'' _ IH1 _ IH2]; cbn.
  - reflexivity.
  - apply Permutation_app_head, IH.
  - rewrite !app_assoc. apply Permutation_app_tail, Permutation_app_comm.
  - etransitivity; eassumption.
Qed.

Lemma Forall2_In_l (A B : Type) (R : A -> B -> Prop) (l : list A) (l' : list B) (x : A) :
  Forall2 R l l' -> In x l -> exists y, In y l' /\ R x y.
Proof.
  induction 1 as [| a b l l' Hab _ IH]; cbn; [tauto |].
  intros [<- | Hin]; [eauto |]. destruct (IH Hin) as (y & ? & ?); eauto.
Qed.

Lemma Forall2_In_r (A B : Type) (R : A -> B -> Prop) (l : list A) (l' : list B) (y : B) :
  Forall2 R l l' -> In y l' -> exists x, In x l /\ R x y.
Proof.
  induction 1 as [| a b l l' Hab _ IH]; cbn; [tauto |].
  intros [<- | Hin]; [eauto |]. destruct (IH Hin) as (x & ? & ?); eauto.
Qed.

Lemma Forall2_map_eq (A B C : Type) (R : A -> B -> Prop) (f : A -> C) (h : B -> C)
      (l : list A) (l' : list B) :
  (forall a b, R a b -> h b = f a) -> Forall2 R l l' -> map h l' = map f l.
Proof.
  intro HR. induction 1 as [| a b l l' Hab _ IH]; cbn; [reflexivity |].
  rewrite IH, (HR _ _ Hab). reflexivity.
Qed.

Section Transform.

Variable host : Host.

Local Abbreviation keyOf := (createGroupKey host).
Local Abbreviation run := (transformData host).

Lemma transformData_Ok_inv arr opts gs :
  run arr opts = Ok gs ->
  exists elems g its groups rs,
    arr = VArr elems /\ groupBy opts = Some g
    /\ isFalsyGroupBy (Some g) = false
    /\ filteredItems (filterFn opts) elems = Ok its
    /\ groupItems host g its = Ok groups
    /\ mapM (summarize host g (aggregations opts)) (entries groups) = Ok rs
    /\ gs = sortGroups (sortBy opts) rs.
Proof.
  unfold transformData.
  destruct arr as [| | | | | elems | |]; try discriminate.
  destruct (groupBy opts) as [g |]; [| discriminate].
  destruct (isFalsyGroupBy (Some g)) eqn:Hf; [discriminate |].
  intro H. apply bind_Ok_inv in H. destruct H as (its & Hits & H).
  apply bind_Ok_inv in H. destruct H as (groups & Hg & H).
  apply bind_Ok_inv in H. destruct H as (rs & Hrs & H).
  inversion H; subst. exists elems, g, its, groups, rs. auto 10.
Qed.

(** The call as the map over the groups, once the arguments are checked,
    the filter has returned and the grouping loop has returned. *)
Lemma transformData_after_grouping elems opts g its groups :
  groupBy opts = Some g ->
  isFalsyGroupBy (Some g) = false ->
  filteredItems (filterFn opts) elems = Ok its ->
  groupItems host g its = Ok groups ->
  run (VArr elems) opts
  = (rs <- mapM (summarize host g (aggregations opts)) (entries groups) ;;
     Ok (sortGroups (sortBy opts) rs)).
Proof.
  intros Hg Hf Hits Hgroups. unfold transformData.
  rewrite Hg, Hf, Hits. cbn [bind]. rewrite Hgroups. reflexivity.
Qed.

(** The groups of a call that returns: each holds the records of one
    key, in input order, with their number and their aggregates; every
    record has the group of its key; and the groups together hold the
    filtered input, each record once. *)
Lemma transformData_groups elems opts g its gs :
  groupBy opts = Some g ->
  filteredItems (filterFn opts) elems = Ok its ->
  run (VArr elems) opts = Ok gs ->
  (forall grp, In grp gs ->
     exists k, items grp = bucket host g k its
               /\ items grp <> []
               /\ count grp = VNum (Double.ofNat (List.length (items grp)))
               /\ reduceM (aggregateStep host (items grp))
                          (entries (aggregations opts)) [] = Ok (aggregates grp)
               /\ grp = groupObject (groupIdentity g k) (aggregates grp) (items grp))
  /\ (forall it, In it its ->
        exists k grp, keyOf g it = Ok k /\ In grp gs
                      /\ items grp = bucket host g k its)
  /\ Permutation (List.concat (map items gs)) its.
Proof.
  intros Hg Hits H.
  apply transformData_Ok_inv in H.
  destruct H as (elems' & g' & its' & groups & rs & Harr & Hg' & _ & Hits'
                 & Hgroups & Hrs & ->).
  inversion Harr; subst elems'. rewrite Hg in Hg'; inversion Hg'; subst g'.
  rewrite Hits in Hits'; inversion Hits'; subst its'.
  pose proof (groupItems_grouped _ _ _ _ Hgroups) as G.
  apply mapM_Ok_Forall2 in Hrs.
  pose proof (sortGroups_perm (sortBy opts) rs) as Hperm.
  split; [| split].
  - intros grp Hin. apply (Permutation_in _ Hperm) in Hin.
    destruct (Forall2_In_r _ _ _ _ _ _ Hrs Hin) as ([k ms] & Hin' & Hsum).
    apply summarize_Ok_inv in Hsum. destruct Hsum as (Hi & Hc & Ha & Hobj).
    apply (proj1 (entries_In _ _)) in Hin'.
    apply (In_getOwn _ _ _ (grouped_keys _ _ _ _ G)) in Hin'.
    destruct (grouped_get_Some _ _ _ _ _ _ G Hin') as [Hb Hne].
    exists k. rewrite Hi. subst ms. auto 6.
  - intros it Hin.
    destruct (grouped_keyed _ _ _ _ G it Hin) as (k & Hk).
    assert (Hb : In it (bucket host g k its)) by (apply bucket_In; auto).
    pose proof (grouped_get _ _ _ _ G k) as Hget.
    destruct (bucket host g k its) as [| m ms] eqn:E; [contradiction |].
    apply getOwn_In in Hget. apply (proj2 (entries_In _ _)) in Hget.
    destruct (Forall2_In_l _ _ _ _ _ _ Hrs Hget) as (grp & Hgrp & Hsum).
    apply summarize_Ok_inv in Hsum. destruct Hsum as (Hi & _).
    exists k, grp. split; [exact Hk |]. split; [| rewrite E; exact Hi].
    apply (Permutation_in _ (Permutation_sym Hperm)). exact Hgrp.
  - assert (Hmap : map items rs = map snd (entries groups)).
    { eapply Forall2_map_eq; [| exact Hrs].
      intros [k ms] grp Hsum. apply summarize_Ok_inv in Hsum. apply Hsum. }
    rewrite (concat_perm _ _ _ (Permutation_map items Hperm)), Hmap.
    rewrite (concat_perm _ _ _ (Permutation_map snd (entries_perm groups))).
    apply (grouped_all _ _ _ _ G).
Qed.

(** Every record of the filtered input is in a group of a call that
    returns. *)
Lemma transformData_covers elems opts g its gs :
  groupBy opts = Some g ->
  filteredItems (filterFn opts) elems = Ok its ->
  run (VArr elems) opts = Ok gs ->
  forall r, In r its -> exists grp, In grp gs /\ In r (items grp).
Proof.
  intros Hg Hits Hrun r Hr.
  destruct (transformData_groups _ _ _ _ _ Hg Hits Hrun) as (_ & Hall & _).
  destruct (Hall r Hr) as (k & grp & Hk & Hin & Hitems).
  exists grp. split; [exact Hin |]. rewrite Hitems. apply bucket_In. auto.
Qed.

End Transform.

(** ** Group keys *)

Section Keys.

Variable host : Host.

Lemma keyPart_Ok_iff (r : value) (path part : string) :
  keyPart host r path = Ok part
  <-> exists v, getNestedValue host r path = Ok v /\ joinElement host v = Ok part.
Proof.
  unfold keyPart. split.
  - intro H. apply bind_Ok_inv in H. exact H.
  - intros (v & -> & H). exact H.
Qed.

Lemma Forall2_compose (A B C : Type) (R : A -> B -> Prop) (S : B -> C -> Prop)
      (l1 : list A) (l2 : list B) (l3 : list C) :
  Forall2 R l1 l2 -> Forall2 S l2 l3 ->
  Forall2 (fun a c => exists b, R a b /\ S b c) l1 l3.
Proof.
  intro H; revert l3; induction H as [| a b l1 l2 Hab _ IH]; intros l3 H3;
    inversion H3; subst; constructor; eauto.
Qed.

(** The group key is the [|]-join of the strings of the resolved values. *)
Lemma createGroupKey_Ok_inv (g : GroupBy) (r : value) (k : string) :
  createGroupKey host g r = Ok k ->
  exists parts,
    k = JsString.join "|" parts
    /\ Forall2 (fun path part =>
                  exists v, getNestedValue host r path = Ok v
                            /\ joinElement host v = Ok part)
               (groupKeys g) parts.
Proof.
  unfold createGroupKey. intro H.
  apply bind_Ok_inv in H. destruct H as (vals & Hvals & H).
  apply bind_Ok_inv in H. destruct H as (parts & Hparts & H).
  inversion H; subst k. exists parts. split; [reflexivity |].
  apply mapM_Ok_Forall2 in Hvals, Hparts.
  exact (Forall2_compose _ _ _ _ _ _ _ _ Hvals Hparts).
Qed.

Lemma createGroupKey_Single (p : string) (r : value) :
  createGroupKey host (Single p) r = keyPart host r p.
Proof.
  unfold createGroupKey, keyPart. cbn [groupKeys mapM].
  destruct (getNestedValue host r p) as [v | e]; cbn [bind mapM]; [| reflexivity].
  destruct (joinElement host v) as [s | e]; cbn [bind mapM]; reflexivity.
Qed.

Lemma createGroupKey_pair (p q : string) (r : value) (k : string) :
  createGroupKey host (Multiple [p; q]) r = Ok k ->
  exists sp sq, keyPart host r p = Ok sp /\ keyPart host r q = Ok sq
                /\ k = sp ++ "|" ++ sq.
Proof.
  intro H. apply createGroupKey_Ok_inv in H. destruct H as (parts & -> & H).
  cbn [groupKeys] in H.
  inversion H as [| ? sp ? rest Hp H1]; subst.
  inversion H1 as [| ? sq ? rest' Hq H2]; subst.
  inversion H2; subst.
  exists sp, sq. repeat split; try (apply keyPart_Ok_iff; assumption).
Qed.

Lemma noInheritedKey_spec (g : GroupBy) (its : list value) :
  noInheritedKey host g its = true
  <-> forall it, In it its ->
                 exists k, createGroupKey host g it = Ok k /\ isInherited k = false.
Proof.
  unfold noInheritedKey. rewrite forallb_forall.
  split; intros H it Hin; specialize (H it Hin).
  - destruct (createGroupKey host g it) as [k | e]; [| discriminate].
    exists k. split; [reflexivity | apply negb_true_iff; exact H].
  - destruct H as (k & -> & Hk). apply negb_true_iff. exact Hk.
Qed.

End Keys.

(** ** When the call returns *)

(** Once the filter has returned, the call returns exactly when no group
    key names a member of [Object.prototype] and, in each group, each
    aggregation field is resolved and has a known kind whose statistic
    the call stack allows wherever it has numeric values. *)
Lemma transformData_Ok_iff
      (host : Host) (elems : list value) (opts : Options) (g : GroupBy)
      (its : list value) :
  groupBy opts = Some g ->
  isFalsyGroupBy (Some g) = false ->
  filteredItems (filterFn opts) elems = Ok its ->
  ((exists gs, transformData host (VArr elems) opts = Ok gs)
   <-> noInheritedKey host g its = true
       /\ forall k field kind,
            bucket host g k its <> [] ->
            In (field, kind) (aggregations opts) ->
            exists values,
              fieldValues host field (bucket host g k its) = Ok values
              /\ (values = []
                  \/ knownKind kind = true
                     /\ (spreads kind = true ->
                         spreadFits host (List.length values) = true))).
Proof.
  intros Hg Hf Hits. split.
  - intros (gs & H). apply transformData_Ok_inv in H.
    destruct H as (elems' & g' & its' & groups & rs & Harr & Hg' & _ & Hits'
                   & Hgroups & Hrs & _).
    inversion Harr; subst elems'. rewrite Hg in Hg'; inversion Hg'; subst g'.
    rewrite Hits in Hits'; inversion Hits'; subst its'.
    pose proof (groupItems_grouped _ _ _ _ Hgroups) as G.
    split.
    + apply noInheritedKey_spec, groupItems_Ok_iff. eauto.
    + intros k field kind Hne Hagg.
      apply mapM_Ok_Forall2 in Hrs.
      pose proof (grouped_get _ _ _ _ G k) as Hget.
      destruct (bucket host g k its) as [| m ms] eqn:Eb; [congruence |].
      apply getOwn_In in Hget. apply (proj2 (entries_In _ _)) in Hget.
      destruct (Forall2_In_l _ _ _ _ _ _ Hrs Hget) as (grp & _ & Hsum).
      eapply (proj1 (summarize_Ok_iff _ _ _ _ _)); eauto.
  - intros (Hkeys & Hagg).
    pose proof (proj1 (noInheritedKey_spec _ _ _) Hkeys) as Hk.
    destruct (proj2 (groupItems_Ok_iff _ _ _) Hk) as (groups & Hgroups).
    rewrite (transformData_after_grouping _ _ _ _ _ _ Hg Hf Hits Hgroups).
    pose proof (groupItems_grouped _ _ _ _ Hgroups) as G.
    destruct (mapM_total _ _ (summarize host g (aggregations opts)) (entries groups))
      as (rs & ->).
    + intros [k ms] Hin. apply summarize_Ok_iff. intros field kind Hfk.
      apply (proj1 (entries_In _ _)) in Hin.
      apply (In_getOwn _ _ _ (grouped_keys _ _ _ _ G)) in Hin.
      destruct (grouped_get_Some _ _ _ _ _ _ G Hin) as [Hb Hne].
      subst ms. apply Hagg; assumption.
    + cbn. eauto.
Qed.

Lemma aggregatesComputed_spec
      (host : Host) (g : GroupBy) (aggs : object string) (its : list value) :
  aggregatesComputed host g aggs its = true
  <-> (forall item, In item its -> exists k, createGroupKey host g item = Ok k)
      /\ forall k field kind,
           bucket host g k its <> [] ->
           In (field, kind) aggs ->
           exists values,
             fieldValues host field (bucket host g k its) = Ok values
             /\ (values = []
                 \/ knownKind kind = true
                    /\ (spreads kind = true ->
                        spreadFits host (List.length values) = true)).
Proof.
  unfold aggregatesComputed. rewrite forallb_forall. split.
  - intro H. split.
    + intros item Hin. specialize (H item Hin).
      destruct (createGroupKey host g item) as [k | e]; [eauto | discriminate].
    + intros k field kind Hne Hagg.
      destruct (bucket host g k its) as [| m ms] eqn:Eb; [congruence |].
      assert (Hm : In m (bucket host g k its)) by (rewrite Eb; left; reflexivity).
      apply bucket_In in Hm. destruct Hm as [Hm Hk].
      specialize (H m Hm). rewrite Hk in H.
      rewrite forallb_forall in H. specialize (H (field, kind) Hagg).
      cbn [fst snd] in H. rewrite Eb in H.
      destruct (fieldValues host field (m :: ms)) as [[| v vs] | e];
        [eauto | | discriminate].
      exists (v :: vs). split; [reflexivity |]. right.
      apply andb_true_iff in H. destruct H as [Hkind Hs].
      split; [exact Hkind |]. intro Hsp. rewrite Hsp in Hs. exact Hs.
  - intros [Hkeys Hagg] item Hin.
    destruct (Hkeys item Hin) as (k & Hk). rewrite Hk.
    apply forallb_forall. intros [field kind] Hfk. cbn [fst snd].
    assert (Hne : bucket host g k its <> []).
    { intro E. assert (Hb : In item (bucket host g k its)) by (apply bucket_In; auto).
      rewrite E in Hb. contradiction. }
    destruct (Hagg k field kind Hne Hfk) as (values & -> & Hc).
    destruct values as [| v vs]; [reflexivity |].
    destruct Hc as [Hc | [Hkind Hs]]; [discriminate |].
    rewrite Hkind. cbn [andb].
    destruct (spreads kind); [cbn; apply Hs; reflexivity | reflexivity].
Qed.

(** [returns] is the condition under which the call returns. *)
Lemma returns_spec
      (host : Host) (elems : list value) (opts : Options) (g : GroupBy)
      (its : list value) :
  groupBy opts = Some g ->
  filteredItems (filterFn opts) elems = Ok its ->
  (returns host g opts its = true
   <-> exists gs, transformData host (VArr elems) opts = Ok gs).
Proof.
  intros Hg Hits. unfold returns. split.
  - intro H. apply andb_true_iff in H. destruct H as [H Hagg].
    apply andb_true_iff in H. destruct H as [Hf Hkeys].
    apply negb_true_iff in Hf.
    apply (transformData_Ok_iff host elems opts g its Hg Hf Hits).
    split; [exact Hkeys |]. apply aggregatesComputed_spec. exact Hagg.
  - intros (gs & H). pose proof H as Hinv. apply transformData_Ok_inv in Hinv.
    destruct Hinv as (_ & g' & _ & _ & _ & _ & Hg' & Hf & _).
    rewrite Hg in Hg'; inversion Hg'; subst g'.
    destruct (proj1 (transformData_Ok_iff host elems opts g its Hg Hf Hits))
      as [Hkeys Hagg]; [eauto |].
    rewrite Hf, Hkeys. cbn [negb andb].
    apply aggregatesComputed_spec. split; [| exact Hagg].
    intros item Hin.
    destruct (proj1 (noInheritedKey_spec _ _ _) Hkeys item Hin) as (k & Hk & _).
    eauto.
Qed.

(** C3, counterexample: a record whose category is the empty string and a
    record with no category resolve to different values, get the same
    group key and land in one group. *)
Lemma missing_field_shares_group :
  getNestedValue sampleHost emptyCategory "category" = Ok (VStr "")
  /\ getNestedValue sampleHost noCategory "category" = Ok VUndefined
  /\ createGroupKey sampleHost (Single "category") emptyCategory = Ok ""
  /\ createGroupKey sampleHost (Single "category") noCategory = Ok ""
  /\ transformData sampleHost (VArr [emptyCategory; noCategory])
                   (groupedBy (Single "category") [])
     = Ok [ [ ("category", VStr ""); ("aggregates", VObj []);
              ("items", VArr [emptyCategory; noCategory]);
              ("count", VNum (Double.ofNat 2)) ] ].
Proof. repeat split; reflexivity. Qed.

(** C3, as amended.  When the filter returns and the condition [returns]
    holds, the call returns, the group key of every record of the
    filtered input is computed, and two records are in one group exactly
    when their group keys are equal.  The group key is the [|]-join of
    the string forms of the resolved values, in which [undefined] and
    [null] contribute the empty string: there is no marker for a missing
    value. *)
Theorem same_group_iff_same_key
        (host : Host) (elems : list value) (opts : Options) (g : GroupBy)
        (its : list value) :
  groupBy opts = Some g ->
  filteredItems (filterFn opts) elems = Ok its ->
  returns host g opts its = true ->
  exists gs,
    transformData host (VArr elems) opts = Ok gs
    /\ (forall r, In r its -> exists k, createGroupKey host g r = Ok k)
    /\ (forall r1 r2 k1 k2, In r1 its -> In r2 its ->
          createGroupKey host g r1 = Ok k1 -> createGroupKey host g r2 = Ok k2 ->
          ((exists grp, In grp gs /\ In r1 (items grp) /\ In r2 (items grp))
           <-> k1 = k2))
    /\ (forall r k, createGroupKey host g r = Ok k ->
          exists parts,
            k = JsString.join "|" parts
            /\ Forall2 (fun path part =>
                          exists v, getNestedValue host r path = Ok v
                                    /\ joinElement host v = Ok part)
                       (groupKeys g) parts)
    /\ joinElement host VUndefined = Ok ""
    /\ joinElement host VNull = Ok "".
Proof.
  intros Hg Hits Hret.
  destruct (proj1 (returns_spec host elems opts g its Hg Hits) Hret) as (gs & Hrun).
  exists gs. split; [exact Hrun |].
  destruct (transformData_groups _ _ _ _ _ _ Hg Hits Hrun) as (Hgrp & Hall & _).
  split; [| split; [| split; [| split; reflexivity]]].
  - intros r Hr. destruct (Hall r Hr) as (k & _ & Hk & _). eauto.
  - intros r1 r2 k1 k2 H1 H2 Hk1 Hk2. split.
    + intros (grp & Hin & Hr1 & Hr2).
      destruct (Hgrp grp Hin) as (k & Hitems & _).
      rewrite Hitems in Hr1, Hr2.
      apply bucket_In in Hr1, Hr2. destruct Hr1 as [_ E1], Hr2 as [_ E2].
      congruence.
    + intros <-. destruct (Hall r1 H1) as (k & grp & Hk & Hin & Hitems).
      exists grp. split; [exact Hin |]. rewrite Hitems.
      split; apply bucket_In; split; congruence.
  - intros r k. apply createGroupKey_Ok_inv.
Qed.

Lemma same_group_iff_same_key_witness :
  let g := Single "category" in
  exists gs,
    transformData sampleHost (VArr bookings) (groupedBy g [("price", "sum")]) = Ok gs
    /\ (forall r, In r bookings -> exists k, createGroupKey sampleHost g r = Ok k)
    /\ (forall r1 r2 k1 k2, In r1 bookings -> In r2 bookings ->
          createGroupKey sampleHost g r1 = Ok k1 ->
          createGroupKey sampleHost g r2 = Ok k2 ->
          ((exists grp, In grp gs /\ In r1 (items grp) /\ In r2 (items grp))
           <-> k1 = k2))
    /\ (forall r k, createGroupKey sampleHost g r = Ok k ->
          exists parts,
            k = JsString.join "|" parts
            /\ Forall2 (fun path part =>
                          exists v, getNestedValue sampleHost r path = Ok v
                                    /\ joinElement sampleHost v = Ok part)
                       (groupKeys g) parts)
    /\ joinElement sampleHost VUndefined = Ok ""
    /\ joinElement sampleHost VNull = Ok "".
Proof.
  intro g.
  apply (same_group_iff_same_key sampleHost bookings
           (groupedBy g [("price", "sum")]) g bookings); reflexivity.
Defined.

(** ** Composite keys *)

Lemma append_delimiter_inj (a1 a2 b1 b2 : string) :
  contains "|" a1 = false -> contains "|" a2 = false ->
  (a1 ++ "|" ++ b1 = a2 ++ "|" ++ b2)%string -> a1 = a2.
Proof.
  revert a2; induction a1 as [| c a1 IH]; intros [| d a2]; cbn; intros H1 H2 E.
  - reflexivity.
  - inversion E; subst d. rewrite Ascii.eqb_refl in H2. discriminate.
  - inversion E; subst c. rewrite Ascii.eqb_refl in H1. discriminate.
  - inversion E; subst d. apply orb_false_iff in H1, H2.
    f_equal. apply IH; tauto.
Qed.

(** C5, counterexample: with the delimiter inside a value, the composite
    key puts two records of different categories in one group, which is
    inside no group of the grouping by category. *)
Lemma composite_key_collision :
  exists gsC gsS,
    transformData sampleHost (VArr [barInCategory; barInCity])
                  (groupedBy (Multiple ["category"; "location.city"]) []) = Ok gsC
    /\ transformData sampleHost (VArr [barInCategory; barInCity])
                     (groupedBy (Single "category") []) = Ok gsS
    /\ exists gc, In gc gsC
                  /\ forall g1, In g1 gsS -> ~ incl (items gc) (items g1).
Proof.
  eexists; eexists. split; [reflexivity |]. split; [reflexivity |].
  eexists; split; [left; reflexivity |].
  intros g1 [<- | [<- | []]] Hincl; cbn in Hincl.
  - destruct (Hincl barInCity) as [H | []]; [right; left; reflexivity | discriminate].
  - destruct (Hincl barInCategory) as [H | []]; [left; reflexivity | discriminate].
Qed.

(** C5, as amended.  When the filter returns, the condition [returns]
    holds for the grouping by the two fields and for the grouping by the
    first field, and no record has the delimiter [|] in the string of its
    first field, both calls return, every record is in a group of the
    first grouping, and every group of the first grouping is inside a
    group of the second. *)
Theorem composite_groups_refine
        (host : Host) (elems : list value) (opts : Options) (p q : string)
        (its : list value) :
  filteredItems (filterFn opts) elems = Ok its ->
  returns host (Multiple [p; q]) (withGroupBy (Multiple [p; q]) opts) its = true ->
  returns host (Single p) (withGroupBy (Single p) opts) its = true ->
  noDelimiter host p its = true ->
  exists gsC gsS,
    transformData host (VArr elems) (withGroupBy (Multiple [p; q]) opts) = Ok gsC
    /\ transformData host (VArr elems) (withGroupBy (Single p) opts) = Ok gsS
    /\ (forall r, In r its -> exists gc, In gc gsC /\ In r (items gc))
    /\ forall gc, In gc gsC -> exists g1, In g1 gsS /\ incl (items gc) (items g1).
Proof.
  intros Hits HretC HretS Hbar.
  destruct (proj1 (returns_spec host elems (withGroupBy (Multiple [p; q]) opts)
                     (Multiple [p; q]) its eq_refl Hits) HretC) as (gsC & HC).
  destruct (proj1 (returns_spec host elems (withGroupBy (Single p) opts)
                     (Single p) its eq_refl Hits) HretS) as (gsS & HS).
  exists gsC, gsS. split; [exact HC |]. split; [exact HS |].
  split.
  { apply (transformData_covers host elems (withGroupBy (Multiple [p; q]) opts)
             (Multiple [p; q]) its gsC eq_refl Hits HC). }
  destruct (transformData_groups host elems (withGroupBy (Multiple [p; q]) opts)
              (Multiple [p; q]) its gsC eq_refl Hits HC) as (HgrpC & _ & _).
  destruct (transformData_groups host elems (withGroupBy (Single p) opts)
              (Single p) its gsS eq_refl Hits HS) as (_ & HallS & _).
  intros gc Hgc. destruct (HgrpC gc Hgc) as (k & Hitems & Hne & _).
  destruct (items gc) as [| r0 rest] eqn:E; [congruence |].
  assert (Hr0 : In r0 (bucket host (Multiple [p; q]) k its))
    by (rewrite <- Hitems; left; reflexivity).
  apply bucket_In in Hr0. destruct Hr0 as [Hr0 Ek0].
  destruct (HallS r0 Hr0) as (k1 & g1 & Hk1 & Hg1 & Hitems1).
  exists g1. split; [exact Hg1 |].
  intros r Hr. rewrite Hitems in Hr. apply bucket_In in Hr.
  destruct Hr as [Hr Ek].
  rewrite Hitems1. apply bucket_In. split; [exact Hr |].
  apply createGroupKey_pair in Ek, Ek0.
  destruct Ek as (sp & sq & Hp & Hq & Ek), Ek0 as (sp0 & sq0 & Hp0 & Hq0 & Ek0).
  rewrite createGroupKey_Single in Hk1 |- *. rewrite Hp0 in Hk1. inversion Hk1; subst k1.
  rewrite Hp. f_equal.
  unfold noDelimiter in Hbar. rewrite forallb_forall in Hbar.
  pose proof (Hbar r Hr) as Hb. pose proof (Hbar r0 Hr0) as Hb0.
  rewrite Hp in Hb. rewrite Hp0 in Hb0.
  apply negb_true_iff in Hb, Hb0.
  apply (append_delimiter_inj sp sp0 sq sq0 Hb Hb0). congruence.
Qed.

Lemma composite_groups_refine_witness :
  let opts := groupedBy (Single "category") [("price", "min")] in
  exists gsC gsS,
    transformData sampleHost (VArr bookings)
                  (withGroupBy (Multiple ["category"; "location.city"]) opts) = Ok gsC
    /\ transformData sampleHost (VArr bookings)
                     (withGroupBy (Single "category") opts) = Ok gsS
    /\ (forall r, In r bookings -> exists gc, In gc gsC /\ In r (items gc))
    /\ forall gc, In gc gsC -> exists g1, In g1 gsS /\ incl (items gc) (items g1).
Proof.
  intro opts.
  apply (composite_groups_refine sampleHost bookings opts
           "category" "location.city" bookings); reflexivity.
Defined.

(** ** Partition *)

(** When the filter returns and the condition [returns] holds, the call
    returns and its groups hold the filtered input, each record once. *)
Theorem transformData_partition
        (host : Host) (elems : list value) (opts : Options) (g : GroupBy)
        (its : list value) :
  groupBy opts = Some g ->
  filteredItems (filterFn opts) elems = Ok its ->
  returns host g opts its = true ->
  exists gs,
    transformData host (VArr elems) opts = Ok gs
    /\ Permutation (List.concat (map items gs)) its.
Proof.
  intros Hg Hits Hret.
  destruct (proj1 (returns_spec host elems opts g its Hg Hits) Hret) as (gs & Hrun).
  exists gs. split; [exact Hrun |].
  apply (transformData_groups _ _ _ _ _ _ Hg Hits Hrun).
Qed.

(** C6 (code defect).  When the filter returns and one record of the
    filtered input has a group key that names a member of
    [Object.prototype], such as ["constructor"], the call throws and no
    record is in any group: the accumulator of the grouping loop inherits
    a member of that name and the loop takes it for the array of the
    group.  What is thrown is the [TypeError] of that loop, unless the
    computation of the group key of a record throws first; it is the
    [TypeError] when every group key is computed. *)
Theorem inherited_key_throws
        (host : Host) (elems : list value) (opts : Options) (g : GroupBy)
        (its : list value) (r : value) (k : string) :
  groupBy opts = Some g ->
  isFalsyGroupBy (Some g) = false ->
  filteredItems (filterFn opts) elems = Ok its ->
  In r its ->
  createGroupKey host g r = Ok k ->
  isInherited k = true ->
  exists e,
    transformData host (VArr elems) opts = Throw e
    /\ (e = TypeError "acc[key].push is not a function"
        \/ exists item, In item its /\ createGroupKey host g item = Throw e)
    /\ (keysComputed host g its = true ->
        e = TypeError "acc[key].push is not a function").
Proof.
  intros Hg Hf Hits Hr Hk Hinh. unfold transformData.
  rewrite Hg, Hf, Hits. cbn [bind].
  destruct (groupItems host g its) as [groups | e] eqn:E.
  - exfalso.
    assert (Hok : exists groups', groupItems host g its = Ok groups') by eauto.
    destruct (proj1 (groupItems_Ok_iff _ _ _) Hok r Hr) as (k' & Hk' & Hno).
    congruence.
  - cbn [bind]. exists e. split; [reflexivity |].
    apply groupItems_Throw_inv in E.
    destruct E as [(item & Hin & Hthrow) | [-> _]].
    + split; [right; eauto |]. intro Hkeys. exfalso.
      destruct (proj1 (keysComputed_spec _ _ _) Hkeys item Hin) as (k' & Hk').
      congruence.
    + split; [left; reflexivity | reflexivity].
Qed.

Lemma inherited_key_throws_witness :
  exists e,
    transformData sampleHost (VArr [categoryConstructor])
                  (groupedBy (Single "category") [("price", "sum")]) = Throw e
    /\ (e = TypeError "acc[key].push is not a function"
        \/ exists item,
             In item [categoryConstructor]
             /\ createGroupKey sampleHost (Single "category") item = Throw e)
    /\ (keysComputed sampleHost (Single "category") [categoryConstructor] = true ->
        e = TypeError "acc[key].push is not a function").
Proof.
  apply (inherited_key_throws sampleHost [categoryConstructor]
           (groupedBy (Single "category") [("price", "sum")]) (Single "category")
           [categoryConstructor] categoryConstructor "constructor").
  - reflexivity.
  - reflexivity.
  - reflexivity.
  - left; reflexivity.
  - reflexivity.
  - reflexivity.
Defined.

(** A path through a prototype is resolved: [toString.name] is the name
    of the function every record inherits, and grouping by it throws for
    the same reason. *)
Example inherited_path_throws :
  getNestedValue sampleHost booking1 "toString.name" = Ok (VStr "toString")
  /\ transformData sampleHost (VArr bookings) (groupedBy (Single "toString.name") [])
     = Throw (TypeError "acc[key].push is not a function").
Proof. split; reflexivity. Qed.

(** ** Unknown aggregation kinds *)

Lemma fieldsResolve_spec (host : Host) (aggs : object string) (its : list value) :
  fieldsResolve host aggs its = true
  <-> forall item field kind, In item its -> In (field, kind) aggs ->
                              exists v, getNestedValue host item field = Ok v.
Proof.
  unfold fieldsResolve. rewrite forallb_forall. split.
  - intros H item field kind Hin Hagg. specialize (H item Hin).
    rewrite forallb_forall in H. specialize (H (field, kind) Hagg). cbn [fst] in H.
    destruct (getNestedValue host item field) as [v | e]; [eauto | discriminate].
  - intros H item Hin. apply forallb_forall. intros [field kind] Hagg. cbn [fst].
    destruct (H item field kind Hin Hagg) as (v & ->). reflexivity.
Qed.

Lemma spreadsFit_spec (host : Host) (n m : nat) :
  spreadsFit host n = true -> (1 <= m <= n)%nat -> spreadFits host m = true.
Proof.
  unfold spreadsFit. rewrite forallb_forall. intros H Hm.
  apply H. apply in_seq. lia.
Qed.

Lemma bucket_length (host : Host) (g : GroupBy) (k : string) (its : list value) :
  (List.length (bucket host g k its) <= List.length its)%nat.
Proof. unfold bucket. apply filter_length_le. Qed.

(** C4, counterexample: with the kind ["median"] for the field
    ["price"], a call over a record with no price returns, with [null]
    for the field; over a record with a price it throws an [Error] whose
    message holds the kind and not the field. *)
Lemma unknown_kind_depends_on_data :
  transformData sampleHost (VArr [hotelWithoutPrice])
                (groupedBy (Single "category") [("price", "median")])
  = Ok [ [ ("category", VStr "Hotel"); ("aggregates", VObj [("price", VNull)]);
           ("items", VArr [hotelWithoutPrice]); ("count", VNum (Double.ofNat 1)) ] ]
  /\ transformData sampleHost (VArr [hotelWithPrice])
                   (groupedBy (Single "category") [("price", "median")])
     = Throw (Error "Unknown aggregation: median")
  /\ JsString.includes "Unknown aggregation: median" "price" = false.
Proof. repeat split; reflexivity. Qed.

(** C4, as amended.  When the grouping returns and some record of the
    filtered input has a number for a field whose kind is outside the
    five, the call throws.  When, besides, every field of the aggregations
    resolves on every record and the call stack holds the values of a
    group, what it throws is an [Error] whose message is
    [Unknown aggregation: ] followed by a kind of the options that is
    outside the five. *)
Theorem unknown_kind_throws
        (host : Host) (elems : list value) (opts : Options) (g : GroupBy)
        (its : list value) (r : value) (field kind : string) (x : Double.number) :
  groupBy opts = Some g ->
  isFalsyGroupBy (Some g) = false ->
  filteredItems (filterFn opts) elems = Ok its ->
  noInheritedKey host g its = true ->
  In r its ->
  In (field, kind) (aggregations opts) ->
  knownKind kind = false ->
  getNestedValue host r field = Ok (VNum x) ->
  exists e,
    transformData host (VArr elems) opts = Throw e
    /\ (fieldsResolve host (aggregations opts) its = true ->
        spreadsFit host (List.length its) = true ->
        exists field' kind',
          In (field', kind') (aggregations opts)
          /\ knownKind kind' = false
          /\ e = Error ("Unknown aggregation: " ++ kind')).
Proof.
  intros Hg Hf Hits Hkeys Hr Hagg Hkind Hnum.
  pose proof (proj1 (noInheritedKey_spec _ _ _) Hkeys) as Hk.
  destruct (proj2 (groupItems_Ok_iff _ _ _) Hk) as (groups & Hgroups).
  pose proof (groupItems_grouped _ _ _ _ Hgroups) as G.
  rewrite (transformData_after_grouping _ _ _ _ _ _ Hg Hf Hits Hgroups).
  destruct (mapM (summarize host g (aggregations opts)) (entries groups))
    as [rs | e] eqn:E; cbn [bind].
  - exfalso. apply mapM_Ok_Forall2 in E.
    destruct (Hk r Hr) as (k & Hkr & _).
    assert (Hb : In r (bucket host g k its)) by (apply bucket_In; auto).
    pose proof (grouped_get _ _ _ _ G k) as Hget.
    destruct (bucket host g k its) as [| m ms] eqn:Eb; [contradiction |].
    apply getOwn_In in Hget. apply (proj2 (entries_In _ _)) in Hget.
    destruct (Forall2_In_l _ _ _ _ _ _ E Hget) as (grp & _ & Hsum).
    assert (Hex : exists grp', summarize host g (aggregations opts) (k, m :: ms)
                               = Ok grp') by eauto.
    destruct (proj1 (summarize_Ok_iff _ _ _ _ _) Hex field kind Hagg)
      as (values & Hv & Hc).
    pose proof (fieldValues_In _ _ _ _ _ _ Hv Hb Hnum) as Hx.
    destruct Hc as [-> | [Hc _]]; [contradiction | congruence].
  - exists e. split; [reflexivity |]. intros Hres Hfit.
    apply mapM_Throw_inv in E. destruct E as ([k ms] & Hin & Hthrow).
    apply summarize_Throw_inv in Hthrow.
    destruct Hthrow as (field' & kind' & a & Hin' & Hstep).
    apply (proj1 (entries_In _ _)) in Hin.
    apply (In_getOwn _ _ _ (grouped_keys _ _ _ _ G)) in Hin.
    destruct (grouped_get_Some _ _ _ _ _ _ G Hin) as [Hms _].
    apply aggregateStep_Throw_inv in Hstep.
    destruct Hstep as [Hv | (values & Hv & Hne & [(Hs & Hfalse & _) | (Hunk & ->)])].
    + exfalso. apply fieldValues_Throw_inv in Hv.
      destruct Hv as (member & Hm & Hthrow).
      rewrite Hms in Hm. apply bucket_In in Hm.
      destruct (proj1 (fieldsResolve_spec _ _ _) Hres member field' kind'
                      (proj1 Hm) Hin') as (v & Hv).
      congruence.
    + exfalso.
      pose proof (fieldValues_length _ _ _ _ Hv) as Hlen.
      pose proof (bucket_length host g k its) as Hlen'. rewrite <- Hms in Hlen'.
      rewrite (spreadsFit_spec host (List.length its)) in Hfalse;
        [discriminate | exact Hfit |].
      destruct values; [congruence | cbn in *; lia].
    + eauto.
Qed.

Lemma unknown_kind_throws_witness :
  exists e,
    transformData sampleHost (VArr bookings)
                  (groupedBy (Single "category") [("price", "median")]) = Throw e
    /\ (fieldsResolve sampleHost [("price", "median")] bookings = true ->
        spreadsFit sampleHost (List.length bookings) = true ->
        exists field' kind',
          In (field', kind') [("price", "median")]
          /\ knownKind kind' = false
          /\ e = Error ("Unknown aggregation: " ++ kind')).
Proof.
  apply (unknown_kind_throws sampleHost bookings
           (groupedBy (Single "category") [("price", "median")]) (Single "category")
           bookings booking1 "price" "median" (Double.ofNat 120)).
  - reflexivity.
  - reflexivity.
  - reflexivity.
  - reflexivity.
  - left; reflexivity.
  - left; reflexivity.
  - reflexivity.
  - reflexivity.
Defined.

(** ** Aggregates *)




(** The first test of [dataTransform.js]: bookings by category with the
    sum of the prices and the average of the nights, by descending sum.
    No flight has nights: that aggregate is [null], and the average over
    the hotels divides by the three hotels that have them. *)
Example transformData_test_1 :
  option_map (map (fun grp => (getOwn grp "category", aggregates grp, count grp)))
    (match transformData sampleHost (VArr bookings) byPriceDescending with
     | Ok gs => Some gs
     | Throw _ => None
     end)
  = Some [ (Some (VStr "Flight"),
            [("price", VNum (Double.ofNat 750)); ("nights", VNull)],
            VNum (Double.ofNat 2));
           (Some (VStr "Hotel"),
            [("price", VNum (Double.ofNat 400)); ("nights", VNum (Double.ofNat 2))],
            VNum (Double.ofNat 3)) ].
Proof. reflexivity. Qed.

(** The total is a total of doubles: each addition is rounded, so that
    2^53 + 1 + 1 is 2^53. *)
Example sum_is_rounded :
  sumOf [twoTo53; one; one] = twoTo53.
Proof. reflexivity. Qed.

(** With a call stack that holds two arguments, the least of three values
    is not computed. *)
Example min_of_a_large_group :
  transformData smallStackHost (VArr bookings)
                (groupedBy (Single "category") [("price", "min")])
  = Throw (RangeError "Maximum call stack size exceeded").
Proof. reflexivity. Qed.

(** An exception of the filter callback is the exception of the call. *)
Example filter_exception_propagates :
  transformData sampleHost (VArr bookings)
                {| groupBy := Some (Single "category"); aggregations := [];
                   sortBy := None; filterFn := Some rejectDubai |}
  = Throw (Thrown "no Dubai").
Proof. reflexivity. Qed.

End DataTransformProofs.

(** * More properties of transformData *)

Module TransformProofs.

Import JsObject DataTransform DataTransformSpec TransformSamples.
Import StringProofs DataTransformProofs.
Local Open Scope string_scope.

#[local] Arguments isInherited : simpl never.

(** ** When the call returns and what it throws *)

Lemma filteredItems_In (f : option (value -> result bool)) (elems its : list value)
      (r : value) :
  filteredItems f elems = Ok its -> In r its ->
  In r elems /\ forall f', f = Some f' -> f' r = Ok true.
Proof.
  unfold filteredItems. destruct f as [f |]; intros H Hin.
  - apply filterM_Ok_inv in H. destruct H as [-> _].
    apply filter_In in Hin. destruct Hin as [Hin Hf].
    split; [exact Hin |]. intros f' E; inversion E; subst f'.
    destruct (f r) as [[] |]; (reflexivity || discriminate).
  - inversion H; subst. split; [exact Hin | discriminate].
Qed.

(** The call on an array returns exactly when the options name a
    [groupBy], the filter answers for every record, the group key of
    every record it keeps is computed and names no member of
    [Object.prototype], and in each group each aggregation field is
    resolved and, where it has numeric values, has a known kind whose
    statistic the call stack allows.  The condition [returns] decides
    it. *)
Theorem transformData_returns_iff
        (host : Host) (elems : list value) (opts : Options) :
  ((exists gs, transformData host (VArr elems) opts = Ok gs)
   <-> exists g its,
         groupBy opts = Some g
         /\ isFalsyGroupBy (Some g) = false
         /\ filteredItems (filterFn opts) elems = Ok its
         /\ noInheritedKey host g its = true
         /\ forall k field kind,
              bucket host g k its <> [] ->
              In (field, kind) (aggregations opts) ->
              exists values,
                fieldValues host field (bucket host g k its) = Ok values
                /\ (values = []
                    \/ knownKind kind = true
                       /\ (spreads kind = true ->
                           spreadFits host (List.length values) = true)))
  /\ ((exists gs, transformData host (VArr elems) opts = Ok gs)
      <-> exists g its,
            groupBy opts = Some g
            /\ filteredItems (filterFn opts) elems = Ok its
            /\ returns host g opts its = true).
Proof.
  split; split.
  - intros (gs & H). pose proof H as Hinv. apply transformData_Ok_inv in Hinv.
    destruct Hinv as (elems' & g & its & _ & _ & Harr & Hg & Hf & Hits & _).
    inversion Harr; subst elems'.
    exists g, its. split; [exact Hg |]. split; [exact Hf |]. split; [exact Hits |].
    apply (transformData_Ok_iff host elems opts g its Hg Hf Hits). eauto.
  - intros (g & its & Hg & Hf & Hits & H).
    apply (transformData_Ok_iff host elems opts g its Hg Hf Hits). exact H.
  - intros (gs & H). pose proof H as Hinv. apply transformData_Ok_inv in Hinv.
    destruct Hinv as (elems' & g & its & _ & _ & Harr & Hg & Hf & Hits & _).
    inversion Harr; subst elems'.
    exists g, its. split; [exact Hg |]. split; [exact Hits |].
    apply (returns_spec host elems opts g its Hg Hits). eauto.
  - intros (g & its & Hg & Hits & H).
    apply (returns_spec host elems opts g its Hg Hits). exact H.
Qed.

(** Every exception of the call has one of eight sources.  A first
    argument that is no array gives [First argument must be an array],
    whatever the options; an array with no [groupBy], or with the empty
    string for it, gives [options.groupBy is required].  Otherwise the
    exception is one the filter callback throws on a record; one that the
    read of a path or the string conversion of a value throws while the
    group key of a record is computed; the [TypeError] of the grouping
    loop; one that the read of an aggregation field throws; the
    [RangeError] of [Math.min] or [Math.max] on more values than the call
    stack holds; or [Unknown aggregation: ] followed by a kind of the
    options that is outside the five. *)
Theorem transformData_exceptions
        (host : Host) (arr : value) (opts : Options) (e : exn) :
  transformData host arr opts = Throw e ->
  if negb (isArray arr) then e = Error "First argument must be an array"
  else if isFalsyGroupBy (groupBy opts) then e = Error "options.groupBy is required"
  else (exists f r, filterFn opts = Some f /\ f r = Throw e)
       \/ (exists g r, groupBy opts = Some g /\ createGroupKey host g r = Throw e)
       \/ e = TypeError "acc[key].push is not a function"
       \/ (exists r field kind,
              In (field, kind) (aggregations opts)
              /\ getNestedValue host r field = Throw e)
       \/ (exists field kind n,
              In (field, kind) (aggregations opts) /\ spreads kind = true
              /\ spreadFits host n = false
              /\ e = RangeError "Maximum call stack size exceeded")
       \/ (exists field kind,
              In (field, kind) (aggregations opts) /\ knownKind kind = false
              /\ e = Error ("Unknown aggregation: " ++ kind)).
Proof.
  unfold transformData.
  destruct arr as [| | | | | elems | |]; cbn [isArray negb];
    try (intro H; inversion H; reflexivity).
  destruct (groupBy opts) as [g |]; cbn [isFalsyGroupBy];
    [| intro H; inversion H; reflexivity].
  change (match g with
          | Single key => JsString.isEmpty key
          | Multiple _ => false
          end) with (isFalsyGroupBy (Some g)).
  destruct (isFalsyGroupBy (Some g)); [intro H; inversion H; reflexivity |].
  intro H. apply bind_Throw_inv in H. destruct H as [H | (its & Hits & H)].
  { left. unfold filteredItems in H. destruct (filterFn opts) as [f |]; [| discriminate].
    apply filterM_Throw_inv in H. destruct H as (r & _ & Hr). eauto. }
  apply bind_Throw_inv in H. destruct H as [H | (groups & Hgroups & H)].
  { apply groupItems_Throw_inv in H.
    destruct H as [(item & _ & Hk) | [-> _]]; [right; left; eauto | auto]. }
  apply bind_Throw_inv in H. destruct H as [H | (? & _ & H)]; [| discriminate].
  apply mapM_Throw_inv in H. destruct H as ([k ms] & _ & Hthrow).
  apply summarize_Throw_inv in Hthrow.
  destruct Hthrow as (field & kind & a & Hin & Hstep).
  apply aggregateStep_Throw_inv in Hstep.
  destruct Hstep as [Hv | (values & Hv & Hne & [(Hs & Hfalse & ->) | (Hunk & ->)])].
  - apply fieldValues_Throw_inv in Hv. destruct Hv as (member & _ & Hm).
    right; right; right; left. eauto.
  - right; right; right; right; left. eauto 8.
  - right; right; right; right; right. eauto.
Qed.

Lemma transformData_exceptions_witness :
  let e := Error "Unknown aggregation: median" in
  (exists f r, @None (value -> result bool) = Some f /\ f r = Throw e)
  \/ (exists g r, Some (Single "category") = Some g
                  /\ createGroupKey sampleHost g r = Throw e)
  \/ e = TypeError "acc[key].push is not a function"
  \/ (exists r field kind,
         In (field, kind) [("price", "median")]
         /\ getNestedValue sampleHost r field = Throw e)
  \/ (exists field kind n,
         In (field, kind) [("price", "median")] /\ spreads kind = true
         /\ spreadFits sampleHost n = false
         /\ e = RangeError "Maximum call stack size exceeded")
  \/ (exists field kind,
         In (field, kind) [("price", "median")] /\ knownKind kind = false
         /\ e = Error ("Unknown aggregation: " ++ kind)).
Proof.
  exact (transformData_exceptions sampleHost (VArr bookings)
           (groupedBy (Single "category") [("price", "median")])
           (Error "Unknown aggregation: median") eq_refl).
Defined.

(** The string conversion of a group key throws for an object whose own
    [toString] is no function, and the call throws with it. *)
Example key_conversion_throws :
  transformData sampleHost (VArr [categoryWithToString])
                (groupedBy (Single "category") [])
  = Throw (TypeError "Cannot convert object to primitive value").
Proof. reflexivity. Qed.

(** ** The groups *)

(** Each group of a call that returns holds the records of the filtered
    input that have one group key, in input order; it is not empty, its
    [count] is the number of its records, and each of its records is a
    record of the input that the filter keeps. *)
Theorem group_items_in_input_order
        (host : Host) (elems : list value) (opts : Options)
        (g : GroupBy) (gs : list Group) (grp : Group) :
  groupBy opts = Some g ->
  transformData host (VArr elems) opts = Ok gs ->
  In grp gs ->
  exists its,
    filteredItems (filterFn opts) elems = Ok its
    /\ (exists k, items grp = filter (keyIs host g k) its)
    /\ items grp <> []
    /\ count grp = VNum (Double.ofNat (List.length (items grp)))
    /\ forall r, In r (items grp) ->
                 In r elems /\ forall f, filterFn opts = Some f -> f r = Ok true.
Proof.
  intros Hg Hrun Hin.
  pose proof Hrun as Hinv. apply transformData_Ok_inv in Hinv.
  destruct Hinv as (elems' & ? & its & ? & ? & Harr & _ & _ & Hits & _).
  inversion Harr; subst elems'.
  exists its. split; [exact Hits |].
  destruct (transformData_groups _ _ _ _ _ _ Hg Hits Hrun) as (Hgrp & _ & _).
  destruct (Hgrp grp Hin) as (k & Hitems & Hne & Hcount & _).
  split; [exists k; exact Hitems |]. split; [exact Hne |]. split; [exact Hcount |].
  intros r Hr. rewrite Hitems in Hr. apply bucket_In in Hr. destruct Hr as [Hr _].
  exact (filteredItems_In _ _ _ _ Hits Hr).
Qed.

Lemma group_items_in_input_order_witness :
  exists its,
    filteredItems (filterFn expensiveByCategory) bookings = Ok its
    /\ (exists k, items hotelsAbove100
                  = filter (keyIs sampleHost (Single "category") k) its)
    /\ items hotelsAbove100 <> []
    /\ count hotelsAbove100
       = VNum (Double.ofNat (List.length (items hotelsAbove100)))
    /\ forall r, In r (items hotelsAbove100) ->
                 In r bookings
                 /\ forall f, filterFn expensiveByCategory = Some f -> f r = Ok true.
Proof.
  eapply (group_items_in_input_order sampleHost bookings expensiveByCategory
            (Single "category")).
  - reflexivity.
  - reflexivity.
  - left. reflexivity.
Defined.

Lemma transformData_partition_witness :
  exists gs,
    transformData sampleHost (VArr bookings) expensiveByCategory = Ok gs
    /\ Permutation (List.concat (map items gs)) [booking1; booking2; booking4; booking5].
Proof.
  apply (transformData_partition sampleHost bookings expensiveByCategory
           (Single "category")); reflexivity.
Defined.

(** With a [groupBy], the call returns the empty array exactly when the
    filter returns and keeps no record: whatever the aggregations and the
    sort, no record gives no group and no error, and every record gives a
    group or an exception. *)
Theorem empty_result_iff
        (host : Host) (elems : list value) (opts : Options) (g : GroupBy) :
  groupBy opts = Some g ->
  isFalsyGroupBy (Some g) = false ->
  (transformData host (VArr elems) opts = Ok []
   <-> filteredItems (filterFn opts) elems = Ok []).
Proof.
  intros Hg Hf. split.
  - intro Hrun. pose proof Hrun as Hinv. apply transformData_Ok_inv in Hinv.
    destruct Hinv as (elems' & ? & its & ? & ? & Harr & _ & _ & Hits & _).
    inversion Harr; subst elems'.
    destruct (transformData_groups _ _ _ _ _ _ Hg Hits Hrun) as (_ & _ & Hperm).
    cbn in Hperm. apply Permutation_nil in Hperm. congruence.
  - intro Hnil. unfold transformData. rewrite Hg, Hf, Hnil. cbn.
    unfold sortGroups. destruct (sortBy opts) as [sb |]; [| reflexivity].
    destruct (JsString.isEmpty (sortField sb)); reflexivity.
Qed.

Lemma empty_result_iff_witness :
  transformData sampleHost (VArr [])
                (groupedBy (Single "category") [("price", "median")]) = Ok []
  <-> filteredItems (filterFn (groupedBy (Single "category") [("price", "median")])) []
      = Ok [].
Proof.
  apply (empty_result_iff sampleHost []
           (groupedBy (Single "category") [("price", "median")]) (Single "category"));
    reflexivity.
Defined.

(** ** Sorting by an aggregate *)

Section SortedInsertion.

Variable A : Type.
Variable cmp : A -> A -> Double.number.
Variable le : A -> A -> Prop.
Variable P : A -> Prop.

Hypothesis cmp_after :
  forall a b, P a -> P b -> PrimFloat.ltb PrimFloat.zero (cmp a b) = true -> le b a.
Hypothesis cmp_before :
  forall a b, P a -> P b -> PrimFloat.ltb PrimFloat.zero (cmp a b) = false -> le a b.
Hypothesis le_trans : forall a b c, le a b -> le b c -> le a c.

Lemma insertBy_HdRel (x a : A) (l : list A) :
  le a x -> HdRel le a l -> HdRel le a (insertBy cmp x l).
Proof.
  intros Hax Hal. destruct l as [| y rest]; cbn [insertBy].
  - constructor. exact Hax.
  - destruct (PrimFloat.ltb PrimFloat.zero (cmp x y)); constructor; [| exact Hax].
    inversion Hal; assumption.
Qed.

Lemma insertBy_Sorted (x : A) (l : list A) :
  Sorted le l -> Forall P (x :: l) -> Sorted le (insertBy cmp x l).
Proof.
  induction 1 as [| y rest Hs IH Hhd]; cbn [insertBy]; intro HP.
  - repeat constructor.
  - inversion HP as [| ? ? Px HP']; subst. inversion HP' as [| ? ? Py HP'']; subst.
    destruct (PrimFloat.ltb PrimFloat.zero (cmp x y)) eqn:E.
    + constructor; [apply IH; constructor; assumption |].
      apply insertBy_HdRel; [| exact Hhd]. apply cmp_after; assumption.
    + repeat constructor; try assumption. apply cmp_before; assumption.
Qed.

Lemma sortWith_StronglySorted (l : list A) :
  Forall P l -> StronglySorted le (sortWith cmp l).
Proof.
  intro HP. apply Sorted_StronglySorted; [exact le_trans |].
  unfold sortWith. induction l as [| x rest IH]; cbn [fold_right]; [constructor |].
  inversion HP as [| ? ? Px HP']; subst.
  apply insertBy_Sorted; [apply IH; exact HP' |].
  constructor; [exact Px |].
  apply (Forall_forall P). intros y Hy.
  apply (proj1 (Forall_forall P rest) HP').
  apply (Permutation_in _ (sortWith_perm _ cmp rest)). exact Hy.
Qed.

End SortedInsertion.

(** With a [sortBy] field, the groups come out ordered by the aggregate of
    that field, in which [null] and a missing aggregate count as 0:
    ascending when the order is ['asc'] or absent, descending for every
    other order.  This holds when no group has [NaN] for the aggregate;
    with a [NaN] the comparator is not an order. *)
Theorem groups_sorted_by_aggregate
        (host : Host) (arr : value) (opts : Options)
        (sb : SortBy) (gs : list Group) :
  transformData host arr opts = Ok gs ->
  sortBy opts = Some sb ->
  JsString.isEmpty (sortField sb) = false ->
  let valOf := aggregateOrZero (sortField sb) in
  forallb (fun grp => negb (Double.isNaN (valOf grp))) gs = true ->
  if isAscending sb
  then StronglySorted (fun a b => PrimFloat.leb (valOf a) (valOf b) = true) gs
  else StronglySorted (fun a b => PrimFloat.leb (valOf b) (valOf a) = true) gs.
Proof.
  intros Hrun Hsb Hfield valOf Hnan.
  apply transformData_Ok_inv in Hrun.
  destruct Hrun as (_ & _ & _ & _ & rs & _ & _ & _ & _ & _ & _ & ->).
  assert (HP : Forall (fun grp => PrimFloat.is_nan (valOf grp) = false) rs).
  { apply Forall_forall. intros grp Hin.
    rewrite forallb_forall in Hnan.
    apply negb_true_iff, Hnan.
    apply (Permutation_in _ (Permutation_sym (sortGroups_perm (sortBy opts) rs))).
    exact Hin. }
  clear Hnan. unfold sortGroups. rewrite Hsb, Hfield. fold valOf.
  assert (Hasc : StronglySorted (fun a b => PrimFloat.leb (valOf a) (valOf b) = true)
                    (sortWith (fun a b => PrimFloat.sub (valOf a) (valOf b)) rs)).
  { apply (sortWith_StronglySorted _ _ _
             (fun grp => PrimFloat.is_nan (valOf grp) = false)); [| | | exact HP].
    - intros a b _ _ H. rewrite sub_positive in H. apply ltb_leb, H.
    - intros a b Pa Pb H. rewrite sub_positive in H. apply leb_total; assumption.
    - intros a b c. apply leb_trans. }
  assert (Hdesc : StronglySorted (fun a b => PrimFloat.leb (valOf b) (valOf a) = true)
                     (sortWith (fun a b => PrimFloat.sub (valOf b) (valOf a)) rs)).
  { apply (sortWith_StronglySorted _ _ _
             (fun grp => PrimFloat.is_nan (valOf grp) = false)); [| | | exact HP].
    - intros a b _ _ H. rewrite sub_positive in H. apply ltb_leb, H.
    - intros a b Pa Pb H. rewrite sub_positive in H. apply leb_total; assumption.
    - intros a b c H1 H2. eapply leb_trans; eassumption. }
  unfold isAscending. destruct (sortOrder sb) as [o |]; [| exact Hasc].
  destruct (String.eqb o "asc"); [exact Hasc | exact Hdesc].
Qed.

Lemma groups_sorted_by_aggregate_witness :
  exists gs,
    transformData sampleHost (VArr bookings) byPriceDescending = Ok gs
    /\ StronglySorted
         (fun a b => PrimFloat.leb (aggregateOrZero "price" b)
                                   (aggregateOrZero "price" a) = true) gs.
Proof.
  eexists. split; [reflexivity |].
  exact (groups_sorted_by_aggregate sampleHost (VArr bookings) byPriceDescending
           {| sortField := "price"; sortOrder := Some "desc" |} _
           eq_refl eq_refl eq_refl eq_refl).
Defined.

(** A [sortBy] only reorders the groups: the call without it returns the
    same groups. *)
Theorem sortBy_only_reorders
        (host : Host) (arr : value) (opts : Options) (gs : list Group) :
  transformData host arr opts = Ok gs ->
  exists gs0,
    transformData host arr (withoutSortBy opts) = Ok gs0
    /\ Permutation gs gs0.
Proof.
  intro Hrun. apply transformData_Ok_inv in Hrun.
  destruct Hrun as (elems & g & its & groups & rs & -> & Hg & Hf & Hits
                    & Hgroups & Hrs & ->).
  exists rs. split; [| apply sortGroups_perm].
  rewrite (transformData_after_grouping host elems (withoutSortBy opts) g its groups
             Hg Hf Hits Hgroups).
  cbn [withoutSortBy aggregations sortBy]. rewrite Hrs. reflexivity.
Qed.

Lemma sortBy_only_reorders_witness :
  exists gs0,
    transformData sampleHost (VArr bookings) (withoutSortBy byPriceDescending)
    = Ok gs0
    /\ Permutation
         (match transformData sampleHost (VArr bookings) byPriceDescending with
          | Ok gs => gs
          | Throw _ => []
          end) gs0.
Proof.
  exact (sortBy_only_reorders sampleHost (VArr bookings) byPriceDescending
           _ eq_refl).
Defined.

(** ** Paths *)

Lemma getProp_nullish (host : Host) (v : value) (key : string) :
  isNullish v = true -> getProp host v key = Ok VUndefined.
Proof. destruct v; cbn; (discriminate || reflexivity). Qed.

Lemma resolve_from_undefined (host : Host) (segments : list string) :
  reduceM (getProp host) segments VUndefined = Ok VUndefined.
Proof. induction segments as [| k rest IH]; cbn; [reflexivity | exact IH]. Qed.

(** Resolving [p.q] is resolving [q] on what [p] resolves to; an
    exception of a read on the way is the exception of the whole. *)
Theorem getNestedValue_append (host : Host) (obj : value) (p q : string) :
  getNestedValue host obj (p ++ "." ++ q)
  = (v <- getNestedValue host obj p ;; getNestedValue host v q).
Proof.
  unfold getNestedValue. cbn [append].
  rewrite split_append, reduceM_app. reflexivity.
Qed.

(** When a path resolves to [undefined] or [null], every longer path
    through it resolves to [undefined]: the resolution of a missing branch
    does not throw. *)
Theorem getNestedValue_missing_branch
        (host : Host) (obj : value) (p q : string) (v : value) :
  getNestedValue host obj p = Ok v ->
  isNullish v = true ->
  getNestedValue host obj (p ++ "." ++ q) = Ok VUndefined.
Proof.
  intros Hp H. unfold getNestedValue in *. cbn [append].
  rewrite split_append, reduceM_app, Hp. cbn [bind].
  pose proof (split_not_nil "." q) as Hne.
  destruct (JsString.split "." q) as [| k rest]; [congruence |].
  cbn [reduceM]. rewrite (getProp_nullish _ _ _ H). cbn [bind].
  apply resolve_from_undefined.
Qed.

Lemma getNestedValue_missing_branch_witness :
  getNestedValue sampleHost booking2 ("nights" ++ "." ++ "count") = Ok VUndefined.
Proof.
  apply (getNestedValue_missing_branch sampleHost booking2 "nights" "count" VUndefined);
    reflexivity.
Defined.

(** ** The identity of a group *)

Lemma Forall2_nth_error (A B : Type) (R : A -> B -> Prop) (l : list A) (l' : list B)
      (j : nat) (a : A) :
  Forall2 R l l' -> nth_error l j = Some a ->
  exists b, nth_error l' j = Some b /\ R a b.
Proof.
  intro H; revert j; induction H as [| x y l l' Hxy _ IH]; intros [| j] Hj;
    cbn in *; try discriminate.
  - inversion Hj; subst. eauto.
  - apply IH, Hj.
Qed.

Lemma identity_fold (parts : list string) (ks : list string) :
  NoDup (map lastSegment ks) ->
  forall (acc : object value) (i0 : nat),
    (forall j k, nth_error ks j = Some k -> lastSegment k <> "__proto__" ->
       getOwn (fst (fold_left (identityStep parts) ks (acc, i0))) (lastSegment k)
       = Some (match nth_error parts (i0 + j) with
               | Some s => VStr s
               | None => VUndefined
               end))
    /\ (forall name, ~ In name (map lastSegment ks) ->
          getOwn (fst (fold_left (identityStep parts) ks (acc, i0))) name
          = getOwn acc name).
Proof.
  induction ks as [| k0 ks IH]; cbn [map fold_left]; intros Hnd acc i0.
  - split; [intros [| j] k H; discriminate | reflexivity].
  - inversion Hnd as [| ? ? Hnotin Hnd']; subst.
    cbn [identityStep].
    destruct (IH Hnd' (assign acc (lastSegment k0)
                              (match nth_error parts i0 with
                               | Some s => VStr s
                               | None => VUndefined
                               end)) (S i0)) as [IH1 IH2].
    split.
    + intros [| j] k H Hp; cbn in H.
      * inversion H; subst k. rewrite (IH2 _ Hnotin), getOwn_assign_same by exact Hp.
        rewrite Nat.add_0_r. reflexivity.
      * rewrite (IH1 j k H Hp). replace (S i0 + j)%nat with (i0 + S j)%nat by lia.
        reflexivity.
    + intros name Hno. rewrite IH2 by (intro; apply Hno; right; assumption).
      apply getOwn_assign_other. intro E. apply Hno. left. exact E.
Qed.

(** The object of a group gives, under the last segment of each [groupBy]
    path, the string that path contributes to the key of the records of
    the group (the empty string for an absent value), when the last
    segments differ from each other, the segment is none of
    [aggregates], [items], [count] and [__proto__], and the strings hold
    no delimiter. *)
Theorem group_identity_values
        (host : Host) (elems : list value) (opts : Options)
        (g : GroupBy) (gs : list Group) (grp : Group) (r : value) (path : string) :
  groupBy opts = Some g ->
  transformData host (VArr elems) opts = Ok gs ->
  In grp gs ->
  In r (items grp) ->
  In path (groupKeys g) ->
  NoDup (map lastSegment (groupKeys g)) ->
  isReservedName (lastSegment path) = false ->
  noDelimiterInKey host g r = true ->
  exists part,
    keyPart host r path = Ok part
    /\ getOwn grp (lastSegment path) = Some (VStr part).
Proof.
  intros Hg Hrun Hgrp Hr Hpath Hnd Hres Hbar.
  pose proof Hrun as Hinv. apply transformData_Ok_inv in Hinv.
  destruct Hinv as (elems' & ? & its & ? & ? & Harr & _ & _ & Hits & _).
  inversion Harr; subst elems'.
  destruct (transformData_groups _ _ _ _ _ _ Hg Hits Hrun) as (Hgroups & _ & _).
  destruct (Hgroups grp Hgrp) as (k & Hitems & _ & _ & _ & Hobj).
  rewrite Hitems in Hr. apply bucket_In in Hr. destruct Hr as [_ Hk].
  apply createGroupKey_Ok_inv in Hk. destruct Hk as (parts & Hkparts & Hparts).
  destruct (In_nth_error _ _ Hpath) as (j & Hj).
  destruct (Forall2_nth_error _ _ _ _ _ _ _ Hparts Hj) as (part & Hpart & Hv).
  exists part. split; [apply keyPart_Ok_iff; exact Hv |].
  assert (Hclean : forallb (fun s => negb (contains "|" s)) parts = true).
  { apply forallb_forall. intros s Hs.
    destruct (In_nth_error _ _ Hs) as (i & Hi).
    assert (Hpi : exists path', nth_error (groupKeys g) i = Some path'
                                /\ keyPart host r path' = Ok s).
    { clear - Hparts Hi. revert i Hi.
      induction Hparts as [| a b l l' Hab _ IH]; intros [| i] Hi; cbn in *;
        try discriminate.
      - inversion Hi; subst. exists a. split; [reflexivity |].
        apply keyPart_Ok_iff. exact Hab.
      - apply IH, Hi. }
    destruct Hpi as (path' & Hpath' & Hs').
    unfold noDelimiterInKey in Hbar. rewrite forallb_forall in Hbar.
    specialize (Hbar path' (nth_error_In _ _ Hpath')). rewrite Hs' in Hbar.
    exact Hbar. }
  assert (Hsplit : JsString.split "|" k = parts).
  { rewrite Hkparts. apply split_join; [| exact Hclean].
    intro E. subst parts. destruct j; discriminate. }
  assert (Hproto : lastSegment path <> "__proto__").
  { intro E. rewrite E in Hres. discriminate. }
  rewrite Hobj, getOwn_groupObject by (exact Hres || apply groupIdentity_NoDup).
  unfold groupIdentity. rewrite Hsplit.
  destruct (identity_fold parts (groupKeys g) Hnd [] 0) as [Hfold _].
  pose proof (Hfold j path Hj Hproto) as E. cbn [Nat.add] in E.
  rewrite Hpart in E. exact E.
Qed.

Lemma group_identity_values_witness :
  exists part,
    keyPart sampleHost booking3 "location.city" = Ok part
    /\ getOwn hotelsInBangkok (lastSegment "location.city") = Some (VStr part).
Proof.
  eapply (group_identity_values sampleHost bookings byCategoryAndCity
            (Multiple ["category"; "location.city"]) _ hotelsInBangkok
            booking3 "location.city").
  - reflexivity.
  - reflexivity.
  - left. reflexivity.
  - right. left. reflexivity.
  - right. left. reflexivity.
  - cbn. repeat constructor; cbn; intuition discriminate.
  - reflexivity.
  - reflexivity.
Defined.

(** Grouping on a field named [count]: the object of the group holds the
    number of its records under that name, not the value grouped on. *)
Example identity_is_overwritten :
  option_map (map (fun grp => getOwn grp "count"))
    (match transformData sampleHost (VArr [withCount twoTo53])
                         (groupedBy (Single "count") []) with
     | Ok gs => Some gs
     | Throw _ => None
     end)
  = Some [Some (VNum (Double.ofNat 1))].
Proof. reflexivity. Qed.

End TransformProofs.

Module DashboardStateProofs.

Import JsDate Dashboard DashboardSamples DashboardState.
Import DashboardProofs.
Local Open Scope string_scope.

(** ** Overlap of two date ranges *)

Lemma ge_le (a b : Date) : ge a b = le b a.
Proof. destruct a, b; reflexivity. Qed.

(** [rangesOverlap] does not depend on the order of its arguments; two
    ranges of valid dates overlap exactly when each starts no later than
    the other ends, so ranges that touch at an end point overlap; a range
    with an invalid start overlaps nothing. *)
Theorem rangesOverlap_symmetric_closed (a b : DateRange) (s1 e1 s2 e2 : Z) :
  rangesOverlap a b = rangesOverlap b a
  /\ (rangesOverlap {| start := Some s1; end_ := Some e1 |}
                    {| start := Some s2; end_ := Some e2 |} = true
      <-> (s1 <= e2 /\ s2 <= e1)%Z)
  /\ rangesOverlap {| start := None; end_ := end_ a |} b = false.
Proof.
  split; [| split].
  - unfold rangesOverlap. rewrite !ge_le. apply andb_comm.
  - unfold rangesOverlap. cbn. rewrite andb_true_iff, !Z.leb_le. reflexivity.
  - reflexivity.
Qed.

(** ** The date criterion with one text or none *)

(** With only the check-in text, the date criterion holds exactly when the
    text parses and its range overlaps the availability; the same with
    only the check-out text; with neither text it holds. *)
Theorem dateRangeMatches_one_supplied
        (LocalTZA : Z -> bool -> Z) (text : string) (hotelRange : DateRange) :
  text <> "" ->
  (dateRangeMatches LocalTZA {| checkIn := text; checkOut := "" |} hotelRange = true
   <-> exists range, parsePartialDate LocalTZA text = Some range
                     /\ rangesOverlap range hotelRange = true)
  /\ (dateRangeMatches LocalTZA {| checkIn := ""; checkOut := text |} hotelRange = true
      <-> exists range, parsePartialDate LocalTZA text = Some range
                        /\ rangesOverlap range hotelRange = true)
  /\ dateRangeMatches LocalTZA {| checkIn := ""; checkOut := "" |} hotelRange = true.
Proof.
  intro Hne. apply isEmpty_false_iff in Hne.
  unfold dateRangeMatches. cbn [checkIn checkOut JsString.isEmpty negb].
  rewrite Hne. cbn [negb].
  split; [| split; [| reflexivity]];
    (destruct (parsePartialDate LocalTZA text) as [range |];
     [ split; [intro H; exists range; auto | intros (r & E & H); inversion E; subst; exact H]
     | split; [discriminate | intros (r & E & _); discriminate] ]).
Qed.

Lemma dateRangeMatches_one_supplied_witness :
  (dateRangeMatches utc {| checkIn := "2025-02"; checkOut := "" |}
     {| start := Some 1736899200000; end_ := Some 1737331200000 |} = true
   <-> exists range, parsePartialDate utc "2025-02" = Some range
                     /\ rangesOverlap range
                          {| start := Some 1736899200000; end_ := Some 1737331200000 |}
                        = true)
  /\ (dateRangeMatches utc {| checkIn := ""; checkOut := "2025-02" |}
        {| start := Some 1736899200000; end_ := Some 1737331200000 |} = true
      <-> exists range, parsePartialDate utc "2025-02" = Some range
                        /\ rangesOverlap range
                             {| start := Some 1736899200000; end_ := Some 1737331200000 |}
                           = true)
  /\ dateRangeMatches utc {| checkIn := ""; checkOut := "" |}
       {| start := Some 1736899200000; end_ := Some 1737331200000 |} = true.
Proof.
  apply (dateRangeMatches_one_supplied utc "2025-02"). discriminate.
Defined.

(** A text with a month and a day that are not zero is a single instant,
    so the same such text for check-in and check-out is an empty request:
    the date criterion rejects every record, whatever its availability. *)
Theorem same_day_request_rejected
        (LocalTZA : Z -> bool -> Z) (text : string) (hotelRange : DateRange) :
  truthy (segment (JsString.split "-" text) 1) = true ->
  truthy (segment (JsString.split "-" text) 2) = true ->
  dateRangeMatches LocalTZA {| checkIn := text; checkOut := text |} hotelRange = false.
Proof.
  intros Hm Hd. unfold dateRangeMatches. cbn [checkIn checkOut].
  destruct (JsString.isEmpty text) eqn:He.
  { rewrite (split_empty_input _ He) in Hm. discriminate. }
  cbn [negb].
  destruct (parsePartialDate LocalTZA text) as [range |] eqn:E; [| reflexivity].
  assert (Hse : start range = end_ range).
  { unfold parsePartialDate in E. rewrite He, Hm, Hd in E.
    destruct (segment (JsString.split "-" text) 0) as [y |]; [| discriminate].
    destruct ((y =? 0) || (y <? 1900))%Z; [discriminate |].
    cbn [andb] in E. inversion E. reflexivity. }
  destruct (ge (start range) (end_ range)) eqn:Hge; [reflexivity |].
  unfold rangesOverlap. cbn [start end_].
  rewrite Hse in Hge |- *.
  destruct (end_ range) as [t |]; [| reflexivity].
  cbn in Hge. apply Z.leb_gt in Hge. lia.
Qed.

Lemma same_day_request_rejected_witness :
  dateRangeMatches utc {| checkIn := "2025-01-16"; checkOut := "2025-01-16" |}
    {| start := Some 1736899200000; end_ := Some 1737331200000 |} = false.
Proof.
  apply (same_day_request_rejected utc "2025-01-16"); reflexivity.
Defined.

(** ** The filter *)

Lemma lt_true_iff (a b : Q) : JsNumber.lt a b = true <-> (a < b)%Q.
Proof.
  unfold JsNumber.lt. split.
  - intro H. apply (proj2 (Qlt_alt a b)).
    destruct (a ?= b)%Q; [discriminate | reflexivity | discriminate].
  - intro H. pose proof (proj1 (Qlt_alt a b) H) as E. rewrite E. reflexivity.
Qed.

Lemma lt_false_iff (a b : Q) : JsNumber.lt a b = false <-> (b <= a)%Q.
Proof.
  split.
  - intro H. apply Qnot_lt_le. intro Hlt. apply lt_true_iff in Hlt. congruence.
  - intro H. destruct (JsNumber.lt a b) eqn:E; [| reflexivity].
    apply lt_true_iff in E. exfalso. exact (Qlt_not_le _ _ E H).
Qed.

Lemma toLowerCase_isEmpty (s : string) :
  JsString.isEmpty (JsString.toLowerCase s) = JsString.isEmpty s.
Proof. destruct s; reflexivity. Qed.

Lemma includes_In (arr : list string) (x : string) :
  JsArray.includes arr x = true <-> In x arr.
Proof.
  unfold JsArray.includes. rewrite existsb_exists. split.
  - intros (y & Hin & E). apply String.eqb_eq in E. subst y. exact Hin.
  - intro Hin. exists x. split; [exact Hin | apply String.eqb_refl].
Qed.

Lemma every_includes (required have : list string) :
  JsArray.every (fun a => JsArray.includes have a) required = true
  <-> forall a, In a required -> In a have.
Proof.
  unfold JsArray.every. rewrite forallb_forall.
  split; intros H a Hin; apply includes_In, H, Hin.
Qed.

Lemma amenities_guard (required have : list string) :
  negb (Nat.eqb (List.length required) 0)
  && negb (JsArray.every (fun a => JsArray.includes have a) required) = false
  <-> forall a, In a required -> In a have.
Proof.
  rewrite <- every_includes. destruct required as [| r rest]; cbn [List.length Nat.eqb negb andb].
  - split; reflexivity.
  - rewrite negb_false_iff. reflexivity.
Qed.

Lemma hotelFilter_criteria
        (LocalTZA : Z -> bool -> Z) (Date_parse : string -> Date)
        (filters : FilterState) (hotel : Hotel) :
  hotelFilter LocalTZA Date_parse filters hotel = true
  <-> (search filters = ""
       \/ JsString.includes (JsString.toLowerCase (name hotel))
                             (JsString.toLowerCase (search filters)) = true
       \/ JsString.includes (JsString.toLowerCase (city hotel))
                             (JsString.toLowerCase (search filters)) = true)
      /\ (fst (priceRange filters) <= price hotel
          /\ price hotel <= snd (priceRange filters))%Q
      /\ (forall a, In a (filterAmenities filters) -> In a (amenities hotel))
      /\ (minRating filters <= rating hotel)%Q
      /\ dateRangeMatches LocalTZA (dateRange filters)
            {| start := Date_parse (checkIn (availability hotel));
               end_ := Date_parse (checkOut (availability hotel)) |} = true.
Proof.
  unfold hotelFilter. rewrite toLowerCase_isEmpty.
  destruct (negb (JsString.isEmpty (search filters))
            && negb (JsString.includes (JsString.toLowerCase (name hotel))
                                       (JsString.toLowerCase (search filters)))
            && negb (JsString.includes (JsString.toLowerCase (city hotel))
                                       (JsString.toLowerCase (search filters)))) eqn:Hs.
  { split; [discriminate |]. intros (H & _). exfalso.
    apply andb_true_iff in Hs. destruct Hs as [Hs Hc].
    apply andb_true_iff in Hs. destruct Hs as [He Hn].
    apply negb_true_iff in He, Hn, Hc.
    destruct H as [H | [H | H]]; [| congruence | congruence].
    rewrite H in He. discriminate. }
  assert (Hsearch : search filters = ""
                    \/ JsString.includes (JsString.toLowerCase (name hotel))
                                          (JsString.toLowerCase (search filters)) = true
                    \/ JsString.includes (JsString.toLowerCase (city hotel))
                                          (JsString.toLowerCase (search filters)) = true).
  { destruct (search filters) eqn:E; [left; reflexivity |]. cbn [JsString.isEmpty negb andb] in Hs.
    apply andb_false_iff in Hs. destruct Hs as [H | H]; apply negb_false_iff in H; auto. }
  destruct (JsNumber.lt (price hotel) (fst (priceRange filters))
            || JsNumber.gt (price hotel) (snd (priceRange filters))) eqn:Hp.
  { split; [discriminate |]. intros (_ & [H1 H2] & _). exfalso.
    apply orb_true_iff in Hp. destruct Hp as [Hp | Hp]; apply lt_true_iff in Hp.
    - exact (Qlt_not_le _ _ Hp H1).
    - exact (Qlt_not_le _ _ Hp H2). }
  apply orb_false_iff in Hp. destruct Hp as [Hp1 Hp2].
  apply lt_false_iff in Hp1. unfold JsNumber.gt in Hp2. apply lt_false_iff in Hp2.
  destruct (negb (Nat.eqb (List.length (filterAmenities filters)) 0)
            && negb (JsArray.every (fun a => JsArray.includes (amenities hotel) a)
                                   (filterAmenities filters))) eqn:Ha.
  { split; [discriminate |]. intros (_ & _ & H & _). exfalso.
    pose proof (proj2 (amenities_guard _ _) H) as E. congruence. }
  pose proof (proj1 (amenities_guard _ _) Ha) as Ha'.
  destruct (JsNumber.lt (rating hotel) (minRating filters)) eqn:Hr.
  { split; [discriminate |]. intros (_ & _ & _ & H & _). exfalso.
    apply lt_true_iff in Hr. exact (Qlt_not_le _ _ Hr H). }
  apply lt_false_iff in Hr.
  split; [intro H; auto 10 | intros (_ & _ & _ & _ & H); exact H].
Qed.

(** The filter keeps a hotel exactly when the five criteria hold together:
    the search text is empty or its lower case is inside the lower case of
    the name or of the city; the price is within the range, bounds
    included; every required amenity is among those of the hotel; the
    rating is at least the minimum; and the date criterion holds on the
    availability of the hotel. *)
Theorem hotelFilter_iff
        (LocalTZA : Z -> bool -> Z) (Date_parse : string -> Date)
        (filters : FilterState) (hotel : Hotel) :
  hotelFilter LocalTZA Date_parse filters hotel = true
  <-> (search filters = ""
       \/ JsString.includes (JsString.toLowerCase (name hotel))
                             (JsString.toLowerCase (search filters)) = true
       \/ JsString.includes (JsString.toLowerCase (city hotel))
                             (JsString.toLowerCase (search filters)) = true)
      /\ (fst (priceRange filters) <= price hotel
          /\ price hotel <= snd (priceRange filters))%Q
      /\ (forall a, In a (filterAmenities filters) -> In a (amenities hotel))
      /\ (minRating filters <= rating hotel)%Q
      /\ dateRangeMatches LocalTZA (dateRange filters)
            {| start := Date_parse (checkIn (availability hotel));
               end_ := Date_parse (checkOut (availability hotel)) |} = true.
Proof. apply hotelFilter_criteria. Qed.

Lemma lowerChar_idempotent (c : ascii) :
  JsString.lowerChar (JsString.lowerChar c) = JsString.lowerChar c.
Proof.
  destruct c as [[] [] [] [] [] [] [] []]; vm_compute; reflexivity.
Qed.

Lemma toLowerCase_idempotent (s : string) :
  JsString.toLowerCase (JsString.toLowerCase s) = JsString.toLowerCase s.
Proof.
  induction s as [| c rest IH]; cbn; [reflexivity |].
  rewrite lowerChar_idempotent, IH. reflexivity.
Qed.

(** The search does not depend on the case of the search text: the text
    and its lower case keep the same hotels. *)
Theorem search_ignores_case
        (LocalTZA : Z -> bool -> Z) (Date_parse : string -> Date)
        (text : string) (filters : FilterState) (hotel : Hotel) :
  hotelFilter LocalTZA Date_parse (setSearch (JsString.toLowerCase text) filters) hotel
  = hotelFilter LocalTZA Date_parse (setSearch text filters) hotel.
Proof.
  unfold hotelFilter, setSearch.
  cbn [search priceRange filterAmenities minRating dateRange].
  rewrite toLowerCase_idempotent. reflexivity.
Qed.

(** After [Clear All] the filter keeps every hotel whose price is from 0 to
    300 and whose rating is not negative, whatever its availability, and
    no filter counts as active. *)
Theorem cleared_filters_keep
        (LocalTZA : Z -> bool -> Z) (Date_parse : string -> Date) (hotel : Hotel) :
  (hotelFilter LocalTZA Date_parse defaultFilters hotel = true
   <-> (0 <= price hotel /\ price hotel <= 300 /\ 0 <= rating hotel)%Q)
  /\ activeFilterCount defaultFilters = 0%Z.
Proof.
  split; [| reflexivity].
  rewrite hotelFilter_criteria.
  cbn [defaultFilters search priceRange filterAmenities minRating dateRange fst snd].
  split.
  - intros (_ & [H1 H2] & _ & H3 & _). auto.
  - intros (H1 & H2 & H3). repeat split; auto. intros a [].
Qed.

(** ** Selecting amenities *)

Lemma filter_neq_In (amenity b : string) (l : list string) :
  In b (filter (fun a => negb (String.eqb a amenity)) l) <-> In b l /\ b <> amenity.
Proof.
  rewrite filter_In, negb_true_iff, String.eqb_neq. reflexivity.
Qed.

(** A click on an amenity flips whether it is required and leaves the
    other amenities as they were; a list with no repetition stays so. *)
Theorem amenity_toggle_flips (amenity b : string) (prev : FilterState) :
  NoDup (filterAmenities prev) ->
  let next := handleAmenityToggle amenity prev in
  (In amenity (filterAmenities next) <-> ~ In amenity (filterAmenities prev))
  /\ (b <> amenity -> (In b (filterAmenities next) <-> In b (filterAmenities prev)))
  /\ NoDup (filterAmenities next).
Proof.
  intros Hnd next. unfold next, handleAmenityToggle. cbn [filterAmenities].
  destruct (JsArray.includes (filterAmenities prev) amenity) eqn:E.
  - apply includes_In in E. split; [| split].
    + rewrite filter_neq_In. tauto.
    + intro Hb. rewrite filter_neq_In. tauto.
    + apply NoDup_filter. exact Hnd.
  - assert (Hno : ~ In amenity (filterAmenities prev)).
    { intro H. apply includes_In in H. congruence. }
    split; [| split].
    + rewrite in_app_iff. cbn. tauto.
    + intro Hb. rewrite in_app_iff. cbn. split; [| tauto].
      intros [H | [H | []]]; [exact H | congruence].
    + apply (Permutation_NoDup (l := amenity :: filterAmenities prev)).
      * apply Permutation_cons_append.
      * constructor; assumption.
Qed.

Lemma amenity_toggle_flips_witness :
  let prev := setSearch "" {| search := ""; priceRange := (0%Q, 300%Q);
                              filterAmenities := ["Pool"; "Spa"]; minRating := 0%Q;
                              dateRange := {| checkIn := ""; checkOut := "" |} |} in
  let next := handleAmenityToggle "Pool" prev in
  (In "Pool" (filterAmenities next) <-> ~ In "Pool" (filterAmenities prev))
  /\ ("Spa" <> "Pool" -> (In "Spa" (filterAmenities next) <-> In "Spa" (filterAmenities prev)))
  /\ NoDup (filterAmenities next).
Proof.
  apply (amenity_toggle_flips "Pool" "Spa").
  cbn. repeat constructor; cbn; intuition discriminate.
Defined.

(** Selecting an amenity that was not required keeps exactly the hotels
    that were kept and have the amenity. *)
Theorem amenity_selection_narrows
        (LocalTZA : Z -> bool -> Z) (Date_parse : string -> Date)
        (amenity : string) (prev : FilterState) (hotel : Hotel) :
  ~ In amenity (filterAmenities prev) ->
  (hotelFilter LocalTZA Date_parse (handleAmenityToggle amenity prev) hotel = true
   <-> hotelFilter LocalTZA Date_parse prev hotel = true
       /\ In amenity (amenities hotel)).
Proof.
  intro Hno. rewrite !hotelFilter_criteria.
  unfold handleAmenityToggle.
  cbn [search priceRange filterAmenities minRating dateRange].
  destruct (JsArray.includes (filterAmenities prev) amenity) eqn:E.
  { apply includes_In in E. contradiction. }
  split.
  - intros (H1 & H2 & H3 & H4 & H5). split.
    + repeat split; try tauto. intros a Ha. apply H3, in_app_iff. left. exact Ha.
    + apply H3, in_app_iff. right. left. reflexivity.
  - intros ((H1 & H2 & H3 & H4 & H5) & Ha). repeat split; try tauto.
    intros a Hin. apply in_app_iff in Hin. destruct Hin as [Hin | [<- | []]]; auto.
Qed.

Lemma amenity_selection_narrows_witness :
  hotelFilter utc isoDate (handleAmenityToggle "Spa" noFilter)
              (hotel 5 "Tropical Resort" "Phuket" 200 (49 # 10)
                     ["WiFi"; "Pool"; "Beach"; "Spa"] "2025-01-08" "2025-01-22") = true
  <-> hotelFilter utc isoDate noFilter
        (hotel 5 "Tropical Resort" "Phuket" 200 (49 # 10)
               ["WiFi"; "Pool"; "Beach"; "Spa"] "2025-01-08" "2025-01-22") = true
      /\ In "Spa" (amenities (hotel 5 "Tropical Resort" "Phuket" 200 (49 # 10)
                                    ["WiFi"; "Pool"; "Beach"; "Spa"]
                                    "2025-01-08" "2025-01-22")).
Proof.
  apply (amenity_selection_narrows utc isoDate "Spa" noFilter). intros [].
Defined.

(** ** The sort state *)

(** After a click on a header the primary field is that header and the
    secondary key, when there is one, is the former primary key and names
    another field; a first click on a header sorts ascending; a second
    click on the same header reverses the order and drops the secondary
    key; from then on the clicks alternate between two states. *)
Theorem handleSort_cycle (clicked : HotelField) (prev : SortConfig) :
  let next := handleSort clicked prev in
  field next = clicked
  /\ (forall sf so, secondary next = Some (sf, so) ->
        sf <> clicked /\ sf = field prev /\ so = order prev)
  /\ (field prev <> clicked -> order next = asc)
  /\ secondary (handleSort clicked next) = None
  /\ order (handleSort clicked next) <> order next
  /\ handleSort clicked (handleSort clicked (handleSort clicked next))
     = handleSort clicked next.
Proof.
  destruct prev as [pf po ps]. unfold handleSort. cbn [field order secondary].
  split; [reflexivity |]. split; [| split; [| split; [| split]]].
  - intros sf so H. destruct pf, clicked; cbn in H; inversion H; subst;
      repeat split; discriminate.
  - intro Hne. destruct pf, clicked; cbn; try reflexivity; congruence.
  - destruct clicked; reflexivity.
  - destruct pf, clicked, po; cbn; discriminate.
  - destruct pf, clicked, po; reflexivity.
Qed.

(** ** The badge and the URL *)

(** The count of active filters is from 0 to 5, and it is 0 exactly when
    the effect writes no parameter to the URL. *)
Theorem activeFilterCount_zero_iff
        (Number_toString : Q -> string) (filters : FilterState) :
  (0 <= activeFilterCount filters <= 5)%Z
  /\ (activeFilterCount filters = 0%Z <-> urlParams Number_toString filters = []).
Proof.
  unfold activeFilterCount, urlParams.
  destruct (negb (JsString.isEmpty (search filters)));
    destruct (JsNumber.gt (fst (priceRange filters)) 0);
    destruct (JsNumber.lt (snd (priceRange filters)) 300);
    destruct (negb (Nat.eqb (List.length (filterAmenities filters)) 0));
    destruct (JsNumber.gt (minRating filters) 0);
    destruct (negb (JsString.isEmpty (checkIn (dateRange filters))));
    destruct (negb (JsString.isEmpty (checkOut (dateRange filters))));
    cbn; (split; [lia | split; (discriminate || reflexivity)]).
Qed.

Section UrlRoundTrip.

Variable Number_toString : Q -> string.
Variable Number_ofString : string -> option Q.

Local Abbreviation written := (urlParams Number_toString).

(** What [get] reads from the parameters the effect has written. *)
Lemma urlParams_get (filters : FilterState) :
  paramGet (written filters) "search"
  = (if negb (JsString.isEmpty (search filters)) then Some (search filters) else None)
  /\ paramGet (written filters) "minPrice"
     = (if JsNumber.gt (fst (priceRange filters)) 0
        then Some (Number_toString (fst (priceRange filters))) else None)
  /\ paramGet (written filters) "maxPrice"
     = (if JsNumber.lt (snd (priceRange filters)) 300
        then Some (Number_toString (snd (priceRange filters))) else None)
  /\ paramGet (written filters) "amenities"
     = (if negb (Nat.eqb (List.length (filterAmenities filters)) 0)
        then Some (JsString.join "," (filterAmenities filters)) else None)
  /\ paramGet (written filters) "minRating"
     = (if JsNumber.gt (minRating filters) 0
        then Some (Number_toString (minRating filters)) else None)
  /\ paramGet (written filters) "checkIn"
     = (if negb (JsString.isEmpty (checkIn (dateRange filters)))
        then Some (checkIn (dateRange filters)) else None)
  /\ paramGet (written filters) "checkOut"
     = (if negb (JsString.isEmpty (checkOut (dateRange filters)))
        then Some (checkOut (dateRange filters)) else None).
Proof.
  unfold urlParams, paramGet.
  destruct (negb (JsString.isEmpty (search filters)));
    destruct (JsNumber.gt (fst (priceRange filters)) 0);
    destruct (JsNumber.lt (snd (priceRange filters)) 300);
    destruct (negb (Nat.eqb (List.length (filterAmenities filters)) 0));
    destruct (JsNumber.gt (minRating filters) 0);
    destruct (negb (JsString.isEmpty (checkIn (dateRange filters))));
    destruct (negb (JsString.isEmpty (checkOut (dateRange filters))));
    cbn; repeat split; reflexivity.
Qed.

Lemma stringOrEmpty_written (s : string) :
  stringOrEmpty (if negb (JsString.isEmpty s) then Some s else None) = s.
Proof. destruct s; reflexivity. Qed.

Lemma Qeq_bool_false (q : Q) : ~ (q == 0)%Q -> Qeq_bool q 0 = false.
Proof.
  intro H. destruct (Qeq_bool q 0) eqn:E; [| reflexivity].
  apply Qeq_bool_iff in E. contradiction.
Qed.

Lemma filter_nonempty_all (l : list string) :
  forallb (fun a => negb (JsString.isEmpty a)) l = true ->
  filter (fun a => negb (JsString.isEmpty a)) l = l.
Proof.
  induction l as [| x rest IH]; cbn; [reflexivity |].
  intro H. apply andb_true_iff in H. destruct H as [Hx Hrest].
  rewrite Hx, (IH Hrest). reflexivity.
Qed.

Lemma getInitialFilters_from_url (params : list (string * string))
      (stored : option FilterState) :
  params <> [] ->
  getInitialFilters Number_ofString params stored
  = {| search := stringOrEmpty (paramGet params "search");
       priceRange := (numberOr Number_ofString 0 (paramGet params "minPrice"),
                      numberOr Number_ofString 300 (paramGet params "maxPrice"));
       filterAmenities :=
         match paramGet params "amenities" with
         | Some s => filter (fun a => negb (JsString.isEmpty a)) (JsString.split "," s)
         | None => []
         end;
       minRating := numberOr Number_ofString 0 (paramGet params "minRating");
       dateRange := {| checkIn := stringOrEmpty (paramGet params "checkIn");
                       checkOut := stringOrEmpty (paramGet params "checkOut") |} |}.
Proof. destruct params; [congruence | reflexivity]. Qed.

(** The filters written to the URL are read back from it: the search text,
    the dates and the required amenities as they were, when no amenity is
    empty or holds a comma; the minimum price and the minimum rating when
    they are not negative; the maximum price when it is at most 300 and
    not 0.  This needs some filter to be active (else the URL is empty and
    the stored item is read) and the host to read back the numbers it
    prints. *)
Theorem url_round_trip (filters : FilterState) (stored : option FilterState) :
  written filters <> [] ->
  forallb (fun a => negb (JsString.isEmpty a)) (filterAmenities filters) = true ->
  forallb (fun a => negb (DataTransformSpec.contains "," a)) (filterAmenities filters)
  = true ->
  (0 <= fst (priceRange filters))%Q ->
  (snd (priceRange filters) <= 300)%Q ->
  ~ (snd (priceRange filters) == 0)%Q ->
  (0 <= minRating filters)%Q ->
  Number_ofString (Number_toString (fst (priceRange filters)))
  = Some (fst (priceRange filters)) ->
  Number_ofString (Number_toString (snd (priceRange filters)))
  = Some (snd (priceRange filters)) ->
  Number_ofString (Number_toString (minRating filters)) = Some (minRating filters) ->
  let restored := getInitialFilters Number_ofString (written filters) stored in
  search restored = search filters
  /\ filterAmenities restored = filterAmenities filters
  /\ checkIn (dateRange restored) = checkIn (dateRange filters)
  /\ checkOut (dateRange restored) = checkOut (dateRange filters)
  /\ (fst (priceRange restored) == fst (priceRange filters))%Q
  /\ (snd (priceRange restored) == snd (priceRange filters))%Q
  /\ (minRating restored == minRating filters)%Q.
Proof.
  intros Hactive Hnonempty Hcomma Hmin Hmax Hmax0 Hrating Nmin Nmax Nrating restored.
  destruct (urlParams_get filters) as (Gs & Gmin & Gmax & Ga & Gr & Gin & Gout).
  unfold restored. rewrite (getInitialFilters_from_url _ stored Hactive).
  cbn [search priceRange filterAmenities minRating dateRange checkIn checkOut fst snd].
  rewrite Gs, Gmin, Gmax, Ga, Gr, Gin, Gout, !stringOrEmpty_written.
  split; [reflexivity |]. split; [| split; [reflexivity |]; split; [reflexivity |]].
  - destruct (filterAmenities filters) as [| a l] eqn:Ea; [reflexivity |].
    cbn [List.length Nat.eqb negb].
    rewrite StringProofs.split_join; [| discriminate | exact Hcomma].
    apply filter_nonempty_all. exact Hnonempty.
  - split; [| split].
    + unfold numberOr.
      destruct (JsNumber.gt (fst (priceRange filters)) 0) eqn:G.
      * rewrite Nmin. apply lt_true_iff in G.
        rewrite Qeq_bool_false; [reflexivity |].
        intro H. rewrite H in G. exact (Qlt_irrefl _ G).
      * apply lt_false_iff in G. apply Qle_antisym; assumption.
    + unfold numberOr.
      destruct (JsNumber.lt (snd (priceRange filters)) 300) eqn:G.
      * rewrite Nmax, (Qeq_bool_false _ Hmax0). reflexivity.
      * apply lt_false_iff in G. apply Qle_antisym; assumption.
    + unfold numberOr.
      destruct (JsNumber.gt (minRating filters) 0) eqn:G.
      * rewrite Nrating. apply lt_true_iff in G.
        rewrite Qeq_bool_false; [reflexivity |].
        intro H. rewrite H in G. exact (Qlt_irrefl _ G).
      * apply lt_false_iff in G. apply Qle_antisym; assumption.
Qed.

(** A maximum price of 0 is not read back: the URL holds it, and
    [Number(...) || 300] takes the 0 for missing and gives 300. *)
Theorem url_max_price_zero (filters : FilterState) (stored : option FilterState) :
  (snd (priceRange filters) == 0)%Q ->
  Number_ofString (Number_toString (snd (priceRange filters)))
  = Some (snd (priceRange filters)) ->
  paramGet (written filters) "maxPrice"
  = Some (Number_toString (snd (priceRange filters)))
  /\ snd (priceRange (getInitialFilters Number_ofString (written filters) stored))
     = 300%Q.
Proof.
  intros Hzero Nmax.
  destruct (urlParams_get filters) as (_ & _ & Gmax & _).
  assert (Hlt : JsNumber.lt (snd (priceRange filters)) 300 = true).
  { apply lt_true_iff. rewrite Hzero. reflexivity. }
  rewrite Hlt in Gmax. split; [exact Gmax |].
  rewrite getInitialFilters_from_url.
  2:{ intro E. unfold paramGet in Gmax. rewrite E in Gmax. discriminate. }
  cbn [priceRange snd]. rewrite Gmax. unfold numberOr.
  rewrite Nmax. apply Qeq_bool_iff in Hzero. rewrite Hzero. reflexivity.
Qed.

End UrlRoundTrip.

Lemma url_round_trip_witness :
  let restored :=
    getInitialFilters wholeNumberOfString
      (urlParams wholeNumberToString busyFilters) None in
  search restored = search busyFilters
  /\ filterAmenities restored = filterAmenities busyFilters
  /\ checkIn (dateRange restored) = checkIn (dateRange busyFilters)
  /\ checkOut (dateRange restored) = checkOut (dateRange busyFilters)
  /\ (fst (priceRange restored) == fst (priceRange busyFilters))%Q
  /\ (snd (priceRange restored) == snd (priceRange busyFilters))%Q
  /\ (minRating restored == minRating busyFilters)%Q.
Proof.
  apply (url_round_trip wholeNumberToString wholeNumberOfString
           busyFilters None); try reflexivity; try discriminate.
Defined.

Lemma url_max_price_zero_witness :
  paramGet (urlParams wholeNumberToString freeOnly) "maxPrice"
  = Some (wholeNumberToString (snd (priceRange freeOnly)))
  /\ snd (priceRange (getInitialFilters wholeNumberOfString
                        (urlParams wholeNumberToString freeOnly) None))
     = 300%Q.
Proof.
  apply (url_max_price_zero wholeNumberToString wholeNumberOfString
           freeOnly None); reflexivity.
Defined.

(** ** Pages *)

Lemma firstn_min_length (A : Type) (n : nat) (l : list A) :
  firstn (Nat.min n (List.length l)) l = firstn n l.
Proof.
  destruct (Nat.le_ge_cases n (List.length l)) as [H | H].
  - rewrite Nat.min_l by exact H. reflexivity.
  - rewrite Nat.min_r by exact H. rewrite firstn_all, firstn_all2 by exact H.
    reflexivity.
Qed.

Lemma firstn_add (A : Type) (a b : nat) (l : list A) :
  firstn (a + b) l = (firstn a l ++ firstn b (skipn a l))%list.
Proof.
  revert l; induction a as [| a IH]; intro l; [reflexivity |].
  destruct l as [| x rest]; cbn.
  - rewrite firstn_nil. reflexivity.
  - rewrite IH. reflexivity.
Qed.

(** A page from 1 on holds the records after those of the pages before
    it, up to the page size. *)
Lemma paginate_from_one (A : Type) (records : list A) (pageSize currentPage : Z) :
  (0 < pageSize)%Z -> (1 <= currentPage)%Z ->
  paginate pageSize currentPage records
  = firstn (Z.to_nat pageSize)
           (skipn (Z.to_nat ((currentPage - 1) * pageSize)) records).
Proof.
  intros Hp Hc. unfold paginate, JsArray.slice, JsArray.clampIndex.
  assert (Hs : (0 <= (currentPage - 1) * pageSize)%Z) by nia.
  destruct (Z.ltb_spec ((currentPage - 1) * pageSize) 0); [lia |].
  destruct (Z.ltb_spec (currentPage * pageSize) 0); [nia |].
  destruct (Z.le_gt_cases (Z.of_nat (List.length records))
                          ((currentPage - 1) * pageSize)) as [Hout | Hin].
  - rewrite (Z.min_r ((currentPage - 1) * pageSize)) by exact Hout.
    rewrite !skipn_all2 by lia. rewrite !firstn_nil. reflexivity.
  - rewrite (Z.min_l ((currentPage - 1) * pageSize)) by lia.
    rewrite <- (firstn_min_length _ (Z.to_nat pageSize)).
    f_equal. rewrite length_skipn. lia.
Qed.

Lemma page_not_empty (A : Type) (records : list A) (pageSize currentPage : Z) :
  (0 < pageSize)%Z ->
  (1 <= currentPage <= totalPagesOf pageSize records)%Z ->
  paginate pageSize currentPage records <> [].
Proof.
  intros Hp [H1 H2].
  rewrite paginate_from_one by assumption.
  rewrite totalPagesOf_div in H2 by exact Hp.
  set (len := Z.of_nat (List.length records)) in *.
  pose proof (Z.div_mod (- len) pageSize ltac:(lia)) as Hdm.
  pose proof (Z.mod_pos_bound (- len) pageSize Hp) as Hmod.
  assert (Hlt : ((currentPage - 1) * pageSize < len)%Z) by nia.
  assert (Hs : (0 <= (currentPage - 1) * pageSize)%Z) by nia.
  intro E. apply (f_equal (@List.length A)) in E.
  rewrite length_firstn, length_skipn in E. cbn in E. unfold len in Hlt. lia.
Qed.

(** A page in the range from 1 to [totalPages] holds the records after
    those of the pages before it; it is not empty and has at most
    [pageSize] records, and exactly [pageSize] when it is not the last. *)
Theorem page_in_range (A : Type) (records : list A) (pageSize currentPage : Z) :
  (0 < pageSize)%Z ->
  (1 <= currentPage <= totalPagesOf pageSize records)%Z ->
  let page := paginate pageSize currentPage records in
  page = firstn (Z.to_nat pageSize)
                (skipn (Z.to_nat ((currentPage - 1) * pageSize)) records)
  /\ page <> []
  /\ (Z.of_nat (List.length page) <= pageSize)%Z
  /\ ((currentPage < totalPagesOf pageSize records)%Z ->
      Z.of_nat (List.length page) = pageSize).
Proof.
  intros Hp Hr page.
  assert (E : page = firstn (Z.to_nat pageSize)
                       (skipn (Z.to_nat ((currentPage - 1) * pageSize)) records))
    by (apply paginate_from_one; lia).
  split; [exact E |]. split; [apply page_not_empty; assumption |].
  rewrite E, length_firstn, length_skipn. split; [lia |].
  intro Hlast. rewrite totalPagesOf_div in Hlast by exact Hp.
  set (len := Z.of_nat (List.length records)) in *.
  pose proof (Z.div_mod (- len) pageSize ltac:(lia)) as Hdm.
  pose proof (Z.mod_pos_bound (- len) pageSize Hp) as Hmod.
  assert (Hfull : (currentPage * pageSize <= len)%Z) by nia.
  unfold len in Hfull. nia.
Qed.

Lemma page_in_range_witness :
  let page := paginate 10 3 twentyThree in
  page = firstn (Z.to_nat 10) (skipn (Z.to_nat ((3 - 1) * 10)) twentyThree)
  /\ page <> []
  /\ (Z.of_nat (List.length page) <= 10)%Z
  /\ ((3 < totalPagesOf 10 twentyThree)%Z -> Z.of_nat (List.length page) = 10%Z).
Proof.
  apply (page_in_range Z twentyThree 10 3).
  - lia.
  - vm_compute. split; discriminate.
Defined.

Lemma pages_concat (A : Type) (records : list A) (size n : nat) :
  List.concat (map (fun p => firstn size (skipn ((p - 1) * size) records)) (seq 1 n))
  = firstn (n * size) records.
Proof.
  induction n as [| n IH]; [reflexivity |].
  rewrite seq_S, map_app, concat_app, IH. cbn [map List.concat].
  rewrite app_nil_r. replace (1 + n - 1)%nat with n by lia.
  replace (S n * size)%nat with (n * size + size)%nat by lia.
  rewrite firstn_add. reflexivity.
Qed.

(** The pages from 1 to [totalPages], one after the other, are the whole
    list: every record is on one page, in order. *)
Theorem pages_cover_records (A : Type) (records : list A) (pageSize : Z) :
  (0 < pageSize)%Z ->
  List.concat (map (fun p => paginate pageSize (Z.of_nat p) records)
                   (seq 1 (Z.to_nat (totalPagesOf pageSize records))))
  = records.
Proof.
  intro Hp.
  rewrite (map_ext_in _ (fun p => firstn (Z.to_nat pageSize)
                                    (skipn ((p - 1) * Z.to_nat pageSize) records))).
  - rewrite pages_concat. apply firstn_all2.
    rewrite totalPagesOf_div by exact Hp.
    set (len := Z.of_nat (List.length records)).
    pose proof (Z.div_mod (- len) pageSize ltac:(lia)) as Hdm.
    pose proof (Z.mod_pos_bound (- len) pageSize Hp) as Hmod.
    assert (H : (len <= - (- len / pageSize) * pageSize)%Z) by nia.
    assert (H0 : (0 <= - (- len / pageSize))%Z) by (unfold len in *; nia).
    unfold len in H. nia.
  - intros p Hin. apply in_seq in Hin.
    rewrite paginate_from_one by lia.
    f_equal. f_equal. nia.
Qed.

Lemma pages_cover_records_witness :
  List.concat (map (fun p => paginate 10 (Z.of_nat p) twentyThree)
                   (seq 1 (Z.to_nat (totalPagesOf 10 twentyThree))))
  = twentyThree.
Proof. apply (pages_cover_records Z twentyThree 10). lia. Defined.

(** From a page in the range, the two page buttons lead to a page in the
    range, whose slice is not empty; [Previous] stays on page 1 and [Next]
    stays on the last page. *)
Theorem page_buttons_stay_in_range
        (A : Type) (records : list A) (pageSize currentPage : Z) :
  (0 < pageSize)%Z ->
  (1 <= currentPage <= totalPagesOf pageSize records)%Z ->
  let pages := totalPagesOf pageSize records in
  (1 <= previousPage currentPage <= pages)%Z
  /\ (1 <= nextPage pages currentPage <= pages)%Z
  /\ paginate pageSize (previousPage currentPage) records <> []
  /\ paginate pageSize (nextPage pages currentPage) records <> []
  /\ previousPage 1 = 1%Z
  /\ nextPage pages pages = pages.
Proof.
  intros Hp Hr pages. unfold previousPage, nextPage. fold pages in Hr.
  assert (H1 : (1 <= Z.max 1 (currentPage - 1) <= pages)%Z) by lia.
  assert (H2 : (1 <= Z.min pages (currentPage + 1) <= pages)%Z) by lia.
  split; [exact H1 |]. split; [exact H2 |].
  split; [apply page_not_empty; assumption |].
  split; [apply page_not_empty; assumption |].
  split; lia.
Qed.

Lemma page_buttons_stay_in_range_witness :
  let pages := totalPagesOf 10 twentyThree in
  (1 <= previousPage 3 <= pages)%Z
  /\ (1 <= nextPage pages 3 <= pages)%Z
  /\ paginate 10 (previousPage 3) twentyThree <> []
  /\ paginate 10 (nextPage pages 3) twentyThree <> []
  /\ previousPage 1 = 1%Z
  /\ nextPage pages pages = pages.
Proof.
  apply (page_buttons_stay_in_range Z twentyThree 10 3).
  - lia.
  - vm_compute. split; discriminate.
Defined.

(** ** The amenity buttons *)

Lemma distinct_In (x : string) (arr : list string) : In x (distinct arr) <-> In x arr.
Proof.
  induction arr as [| y rest IH]; cbn; [tauto |].
  rewrite filter_neq_In, IH.
  destruct (string_dec y x) as [-> | Hne]; [tauto |].
  split; [tauto |]. intros [H | H]; [tauto |]. right. split; [exact H | congruence].
Qed.

Lemma distinct_NoDup (arr : list string) : NoDup (distinct arr).
Proof.
  induction arr as [| y rest IH]; cbn; constructor.
  - rewrite filter_neq_In. tauto.
  - apply NoDup_filter. exact IH.
Qed.

Lemma insertSorted_perm (x : string) (l : list string) :
  Permutation (insertSorted x l) (x :: l).
Proof.
  induction l as [| y rest IH]; cbn; [reflexivity |].
  destruct (JsString.gt x y); [| reflexivity].
  rewrite IH. apply perm_swap.
Qed.

Lemma sortStrings_perm (arr : list string) : Permutation (sortStrings arr) arr.
Proof.
  unfold sortStrings. induction arr as [| x rest IH]; cbn; [reflexivity |].
  rewrite insertSorted_perm. apply perm_skip, IH.
Qed.

(** [a] is not after [b] in the order of the code units. *)
Lemma not_gt_iff (a b : string) :
  JsString.gt a b = false <-> a = b \/ String_as_OT.lt a b.
Proof.
  unfold JsString.gt. change (String.compare a b) with (String_as_OT.cmp a b).
  destruct (String_as_OT.cmp a b) eqn:E.
  - apply String_as_OT.cmp_eq in E. split; [auto | reflexivity].
  - apply String_as_OT.cmp_lt in E. split; [auto | reflexivity].
  - split; [discriminate |]. intros [H | H].
    + apply String_as_OT.cmp_eq in H. congruence.
    + apply String_as_OT.cmp_lt in H. congruence.
Qed.

Lemma not_gt_trans (a b c : string) :
  JsString.gt a b = false -> JsString.gt b c = false -> JsString.gt a c = false.
Proof.
  rewrite !not_gt_iff. intros [-> | H1] [-> | H2]; auto.
  right. eapply String_as_OT.lt_trans; eassumption.
Qed.

Lemma gt_not_gt (a b : string) : JsString.gt a b = true -> JsString.gt b a = false.
Proof.
  unfold JsString.gt. rewrite (String.compare_antisym a b).
  destruct (String.compare b a); cbn; congruence.
Qed.

Lemma insertSorted_Sorted (x : string) (l : list string) :
  Sorted (fun a b => JsString.gt a b = false) l ->
  Sorted (fun a b => JsString.gt a b = false) (insertSorted x l).
Proof.
  induction 1 as [| y rest Hs IH Hhd]; cbn.
  - repeat constructor.
  - destruct (JsString.gt x y) eqn:E.
    + constructor; [exact IH |].
      apply gt_not_gt in E.
      destruct rest as [| z rest']; cbn.
      * constructor. exact E.
      * destruct (JsString.gt x z); constructor; [| exact E].
        inversion Hhd; assumption.
    + repeat constructor; assumption.
Qed.

(** The amenity buttons: every amenity of some hotel, each once, in
    ascending order of the code units. *)
Theorem allAmenities_sorted_distinct (HOTELS : list Hotel) :
  (forall a, In a (allAmenities HOTELS)
             <-> exists h, In h HOTELS /\ In a (amenities h))
  /\ NoDup (allAmenities HOTELS)
  /\ StronglySorted (fun a b => JsString.gt a b = false) (allAmenities HOTELS).
Proof.
  unfold allAmenities. split; [| split].
  - intro a. split.
    + intro H. apply (Permutation_in _ (sortStrings_perm _)) in H.
      apply distinct_In, in_flat_map in H. exact H.
    + intro H. apply (Permutation_in _ (Permutation_sym (sortStrings_perm _))).
      apply distinct_In, in_flat_map. exact H.
  - apply (Permutation_NoDup (Permutation_sym (sortStrings_perm _))).
    apply distinct_NoDup.
  - apply Sorted_StronglySorted.
    + intros a b c. apply not_gt_trans.
    + unfold sortStrings.
      induction (distinct (flat_map amenities HOTELS)) as [| x rest IH]; cbn;
        [constructor | apply insertSorted_Sorted, IH].
Qed.

Example allAmenities_of_sample :
  allAmenities HOTELS = ["Beach"; "Gym"; "Pool"; "Spa"; "WiFi"].
Proof. reflexivity. Qed.

(** ** The length of a partial date *)

Lemma DayFromYear_next (y : Z) :
  (DayFromYear (y + 1) - DayFromYear y = 365 + (if InLeapYear y then 1 else 0))%Z.
Proof.
  unfold DayFromYear, InLeapYear.
  destruct (y mod 4 =? 0)%Z eqn:E4; destruct (y mod 100 =? 0)%Z eqn:E100;
    destruct (y mod 400 =? 0)%Z eqn:E400; cbn [negb andb orb];
    rewrite ?Z.eqb_eq, ?Z.eqb_neq in *; Z.div_mod_to_equations; lia.
Qed.

Lemma DayFromYear_mono (a b : Z) : (a <= b -> DayFromYear a <= DayFromYear b)%Z.
Proof. intro H. unfold DayFromYear. Z.div_mod_to_equations. lia. Qed.

(** [YearFromDay] gives the year whose days hold the day. *)
Lemma YearFromDay_spec (y d : Z) :
  (DayFromYear y <= d < DayFromYear (y + 1))%Z -> YearFromDay d = y.
Proof.
  intro H. unfold YearFromDay.
  pose proof (DayFromYear_next y) as Hn.
  assert (Hb : (0 <= (if InLeapYear y then 1 else 0) <= 1)%Z)
    by (destruct (InLeapYear y); lia).
  set (y0 := (1970 + d * 400 / 146097)%Z).
  assert (Hy0 : (y - 1 <= y0 <= y + 1)%Z).
  { unfold y0. unfold DayFromYear in *. Z.div_mod_to_equations. lia. }
  destruct (Z.leb_spec (DayFromYear (y0 + 1)) d).
  - assert (y0 + 1 <= y)%Z.
    { destruct (Z.le_gt_cases (y0 + 1) y); [assumption |].
      pose proof (DayFromYear_mono (y + 1) (y0 + 1) ltac:(lia)). lia. }
    lia.
  - destruct (Z.leb_spec (DayFromYear y0) d).
    + assert (y0 <= y)%Z.
      { destruct (Z.le_gt_cases y0 y); [assumption |].
        pose proof (DayFromYear_mono (y + 1) y0 ltac:(lia)). lia. }
      assert (y <= y0)%Z.
      { destruct (Z.le_gt_cases y y0); [assumption |].
        pose proof (DayFromYear_mono (y0 + 1) y ltac:(lia)). lia. }
      lia.
    + assert (y <= y0 - 1)%Z.
      { destruct (Z.le_gt_cases y (y0 - 1)); [assumption |].
        pose proof (DayFromYear_mono y0 y ltac:(lia)). lia. }
      lia.
Qed.

Lemma MakeDay_day_zero (y m : Z) :
  (1 <= m <= 12)%Z ->
  (MakeDay y m 0 - DayFromYear y
   = (if m =? 12 then 365 + (if InLeapYear y then 1 else 0)
      else daysBeforeMonth (InLeapYear y) m) - 1)%Z.
Proof.
  intro Hm. pose proof (DayFromYear_next y) as Hn.
  assert (Hc : m = 1 \/ m = 2 \/ m = 3 \/ m = 4 \/ m = 5 \/ m = 6 \/ m = 7
               \/ m = 8 \/ m = 9 \/ m = 10 \/ m = 11 \/ m = 12) by lia.
  unfold MakeDay.
  destruct Hc as [-> | [-> | [-> | [-> | [-> | [-> | [-> | [-> | [-> | [-> | [-> | ->]]]]]]]]]]];
    cbn -[DayFromYear InLeapYear]; rewrite ?Z.add_0_r; destruct (InLeapYear y); lia.
Qed.

(** Day 0 of month index [m] is the last day of month [m] counted from 1:
    [getDate] gives the number of days of that month. *)
Lemma DateFromTime_day_zero (y m : Z) :
  (1 <= m <= 12)%Z ->
  DateFromTime (MakeDate (MakeDay y m 0) 0) = daysInMonth y m.
Proof.
  intro Hm. unfold DateFromTime, MakeDate, msPerDay.
  rewrite Z.add_0_r, Z.div_mul by lia.
  pose proof (DayFromYear_next y) as Hn.
  pose proof (MakeDay_day_zero y m Hm) as Hoff.
  assert (Hc : m = 1 \/ m = 2 \/ m = 3 \/ m = 4 \/ m = 5 \/ m = 6 \/ m = 7
               \/ m = 8 \/ m = 9 \/ m = 10 \/ m = 11 \/ m = 12) by lia.
  assert (Hy : YearFromDay (MakeDay y m 0) = y).
  { apply YearFromDay_spec.
    destruct Hc as [-> | [-> | [-> | [-> | [-> | [-> | [-> | [-> | [-> | [-> | [-> | ->]]]]]]]]]]];
      cbn -[DayFromYear InLeapYear MakeDay] in Hoff; destruct (InLeapYear y); lia. }
  rewrite Hy, Hoff. unfold daysInMonth.
  destruct Hc as [-> | [-> | [-> | [-> | [-> | [-> | [-> | [-> | [-> | [-> | [-> | ->]]]]]]]]]]];
    destruct (InLeapYear y); reflexivity.
Qed.

Lemma TimeClip_Some (t x : Z) : TimeClip t = Some x -> x = t.
Proof.
  unfold TimeClip. destruct (Z.abs t <=? 8640000000000000)%Z; [| discriminate].
  intro H; inversion H; reflexivity.
Qed.

(** On a year from 1900 on, [new Date] reads its fields as a local time
    and gives the instant of that local time. *)
Lemma newDate_local (LocalTZA : Z -> bool -> Z) (y month date h mi sec : Z) :
  (1900 <= y)%Z ->
  newDate LocalTZA y month date h mi sec
  = TimeClip (UTC LocalTZA (MakeDate (MakeDay y month date) (MakeTime h mi sec 0))).
Proof.
  intros Hy. unfold newDate.
  destruct ((0 <=? y) && (y <=? 99))%Z eqn:E; [| reflexivity].
  apply andb_true_iff in E. destruct E as [_ E]. apply Z.leb_le in E. lia.
Qed.

Lemma DayFromYear_bounds (y : Z) :
  (1900 <= y <= 275000 -> -25568 <= DayFromYear y <= 99723000)%Z.
Proof. intro H. unfold DayFromYear. Z.div_mod_to_equations. lia. Qed.

Lemma daysBeforeMonth_bounds (leap : bool) (m : Z) :
  (0 <= daysBeforeMonth leap m <= 335)%Z.
Proof.
  unfold daysBeforeMonth.
  destruct leap; destruct m as [| p | p]; try lia;
    repeat (destruct p as [p | p |]; try lia).
Qed.

(** A local time of a year from 1900 to 275000 has a valid date when the
    offset of the host is at most a day. *)
Lemma TimeClip_local (LocalTZA : Z -> bool -> Z) (y m d time : Z) :
  (1900 <= y <= 275000)%Z -> (0 <= m <= 11)%Z -> (1 <= d <= 31)%Z ->
  (0 <= time < msPerDay)%Z ->
  let local := MakeDate (MakeDay y m d) time in
  (Z.abs (LocalTZA local false) <= msPerDay)%Z ->
  TimeClip (UTC LocalTZA local) = Some (UTC LocalTZA local).
Proof.
  intros Hy Hm Hd Ht local Hoff. unfold TimeClip.
  destruct (Z.leb_spec (Z.abs (UTC LocalTZA local)) 8640000000000000); [reflexivity |].
  exfalso. unfold UTC in *. fold local in H.
  assert (Hday : (-25568 <= MakeDay y m d <= 99723000 + 335 + 31)%Z).
  { unfold MakeDay. rewrite (Z.div_small m 12), (Z.mod_small m 12), Z.add_0_r by lia.
    pose proof (DayFromYear_bounds y Hy).
    pose proof (daysBeforeMonth_bounds (InLeapYear y) m). lia. }
  unfold local, MakeDate, msPerDay in *. lia.
Qed.

(** The days of a month, and the last second of its last day. *)
Lemma month_length (y m : Z) :
  (1 <= m <= 12)%Z ->
  (MakeDate (MakeDay y (m - 1) (daysInMonth y m)) (MakeTime 23 59 59 0)
   - MakeDate (MakeDay y (m - 1) 1) 0
   = daysInMonth y m * msPerDay - 1000)%Z.
Proof.
  intro Hm. unfold MakeDate, MakeDay, MakeTime, msPerDay. lia.
Qed.

(** A text of a year from 1900 on and a month from 1 to 12, with no day,
    gives the range from the first instant of the first day of the month,
    in local time, to the last second of its last day, on a host that
    reads the midnight of that last day back on the same day.  In local
    time the range has the days of the month in the calendar, 28 to 31
    with the leap years, less one second; between its two instants there
    is that time less the change of the offset of the host from the first
    to the last.  Both dates are valid up to the year 275000 when the
    offsets are at most a day. *)
Theorem month_text_covers_month
        (LocalTZA : Z -> bool -> Z) (text : string) (y m : Z) :
  segment (JsString.split "-" text) 0 = Some y ->
  (1900 <= y)%Z ->
  segment (JsString.split "-" text) 1 = Some m ->
  (1 <= m <= 12)%Z ->
  truthy (segment (JsString.split "-" text) 2) = false ->
  keepsDay LocalTZA (MakeDate (MakeDay y m 0) 0) = true ->
  let first := MakeDate (MakeDay y (m - 1) 1) 0 in
  let last := MakeDate (MakeDay y (m - 1) (daysInMonth y m)) (MakeTime 23 59 59 0) in
  parsePartialDate LocalTZA text
  = Some {| start := TimeClip (UTC LocalTZA first);
            end_ := TimeClip (UTC LocalTZA last) |}
  /\ (last - first = daysInMonth y m * msPerDay - 1000)%Z
  /\ (UTC LocalTZA last - UTC LocalTZA first
      = daysInMonth y m * msPerDay - 1000
        - (LocalTZA last false - LocalTZA first false))%Z
  /\ ((y <= 275000)%Z ->
      (Z.abs (LocalTZA first false) <= msPerDay)%Z ->
      (Z.abs (LocalTZA last false) <= msPerDay)%Z ->
      parsePartialDate LocalTZA text
      = Some {| start := Some (UTC LocalTZA first);
                end_ := Some (UTC LocalTZA last) |}).
Proof.
  intros Hy Hy1900 Hmo Hm Hd Hkeeps first last.
  assert (Ht : truthy (segment (JsString.split "-" text) 1) = true)
    by (rewrite Hmo; destruct m; (reflexivity || lia)).
  assert (Hparse : parsePartialDate LocalTZA text
                   = Some {| start := TimeClip (UTC LocalTZA first);
                             end_ := TimeClip (UTC LocalTZA last) |}).
  { rewrite (DashboardProofs.parsePartialDate_month LocalTZA text y Hy Hy1900 Ht Hd).
    rewrite Hmo. cbn [num].
    rewrite !(newDate_local LocalTZA y) by exact Hy1900.
    unfold keepsDay in Hkeeps. change (MakeTime 0 0 0 0) with 0%Z.
    destruct (TimeClip (UTC LocalTZA (MakeDate (MakeDay y m 0) 0))) as [t0 |];
      [| discriminate].
    cbn [getDate option_map].
    apply andb_true_iff in Hkeeps. destruct Hkeeps as [H0 H1].
    apply Z.leb_le in H0. apply Z.ltb_lt in H1.
    assert (Hdiv : (LocalTime LocalTZA t0 / msPerDay
                    = MakeDate (MakeDay y m 0) 0 / msPerDay)%Z).
    { unfold MakeDate, msPerDay in *. rewrite Z.add_0_r in *.
      rewrite Z.div_mul by lia. symmetry.
      apply (Z.div_unique _ _ _ (LocalTime LocalTZA t0 - MakeDay y m 0 * 86400000));
        lia. }
    assert (Hday : DateFromTime (LocalTime LocalTZA t0) = daysInMonth y m).
    { rewrite <- (DateFromTime_day_zero y m Hm).
      unfold DateFromTime. rewrite Hdiv. reflexivity. }
    rewrite Hday, (newDate_local LocalTZA y) by exact Hy1900. reflexivity. }
  split; [exact Hparse |].
  split; [apply month_length; exact Hm |].
  split; [unfold UTC; pose proof (month_length y m Hm); fold first last in H; lia |].
  intros Hmax Hfirst Hlast. rewrite Hparse.
  assert (Hdays : (28 <= daysInMonth y m <= 31)%Z).
  { unfold daysInMonth.
    destruct m as [| p | p]; try lia;
      repeat (destruct p as [p | p |]; try lia); destruct (InLeapYear y); lia. }
  unfold first, last.
  rewrite (TimeClip_local LocalTZA y (m - 1) 1 0), (TimeClip_local LocalTZA y (m - 1)
             (daysInMonth y m) (MakeTime 23 59 59 0));
    try assumption; try reflexivity; unfold MakeTime, msPerDay; lia.
Qed.

Lemma month_text_covers_month_witness :
  let first := MakeDate (MakeDay 2025 (3 - 1) 1) 0 in
  let last := MakeDate (MakeDay 2025 (3 - 1) (daysInMonth 2025 3)) (MakeTime 23 59 59 0) in
  parsePartialDate newYork2025 "2025-03"
  = Some {| start := TimeClip (UTC newYork2025 first);
            end_ := TimeClip (UTC newYork2025 last) |}
  /\ (last - first = daysInMonth 2025 3 * msPerDay - 1000)%Z
  /\ (UTC newYork2025 last - UTC newYork2025 first
      = daysInMonth 2025 3 * msPerDay - 1000
        - (newYork2025 last false - newYork2025 first false))%Z
  /\ ((2025 <= 275000)%Z ->
      (Z.abs (newYork2025 first false) <= msPerDay)%Z ->
      (Z.abs (newYork2025 last false) <= msPerDay)%Z ->
      parsePartialDate newYork2025 "2025-03"
      = Some {| start := Some (UTC newYork2025 first);
                end_ := Some (UTC newYork2025 last) |}).
Proof.
  apply (month_text_covers_month newYork2025 "2025-03" 2025 3);
    (reflexivity || lia).
Defined.

(** In New York the month of March 2025 holds the change to summer time:
    its range is 31 days less one hour and one second, from
    2025-03-01T05:00:00Z to 2025-04-01T03:59:59Z. *)
Example march_in_New_York :
  parsePartialDate newYork2025 "2025-03"
  = Some {| start := Some 1740805200000%Z; end_ := Some 1743479999000%Z |}
  /\ (1743479999000 - 1740805200000 = 31 * msPerDay - 3600000 - 1000)%Z.
Proof. split; reflexivity. Qed.

Lemma year_length (y : Z) :
  (MakeDate (MakeDay y 11 31) (MakeTime 23 59 59 0) - MakeDate (MakeDay y 0 1) 0
   = (if InLeapYear y then 366 else 365) * msPerDay - 1000)%Z.
Proof.
  unfold MakeDate, MakeDay, MakeTime, msPerDay.
  cbn -[DayFromYear InLeapYear]. rewrite !Z.add_0_r.
  destruct (InLeapYear y); lia.
Qed.

(** A text of a year from 1900 on alone gives the range from the first
    instant of January 1, in local time, to the last second of December
    31.  In local time the range has 365 days, or 366 in a leap year,
    less one second; between its two instants there is that time less
    the change of the offset of the host from the first to the last.
    Both dates are valid up to the year 275000 when the offsets are at
    most a day. *)
Theorem year_text_covers_year
        (LocalTZA : Z -> bool -> Z) (text : string) (y : Z) :
  segment (JsString.split "-" text) 0 = Some y ->
  (1900 <= y)%Z ->
  truthy (segment (JsString.split "-" text) 1) = false ->
  let first := MakeDate (MakeDay y 0 1) 0 in
  let last := MakeDate (MakeDay y 11 31) (MakeTime 23 59 59 0) in
  parsePartialDate LocalTZA text
  = Some {| start := TimeClip (UTC LocalTZA first);
            end_ := TimeClip (UTC LocalTZA last) |}
  /\ (last - first = (if InLeapYear y then 366 else 365) * msPerDay - 1000)%Z
  /\ (UTC LocalTZA last - UTC LocalTZA first
      = (if InLeapYear y then 366 else 365) * msPerDay - 1000
        - (LocalTZA last false - LocalTZA first false))%Z
  /\ ((y <= 275000)%Z ->
      (Z.abs (LocalTZA first false) <= msPerDay)%Z ->
      (Z.abs (LocalTZA last false) <= msPerDay)%Z ->
      parsePartialDate LocalTZA text
      = Some {| start := Some (UTC LocalTZA first);
                end_ := Some (UTC LocalTZA last) |}).
Proof.
  intros Hy Hy1900 Hmo first last.
  assert (Hparse : parsePartialDate LocalTZA text
                   = Some {| start := TimeClip (UTC LocalTZA first);
                             end_ := TimeClip (UTC LocalTZA last) |}).
  { rewrite (DashboardProofs.parsePartialDate_year LocalTZA text y Hy Hy1900 Hmo).
    rewrite !(newDate_local LocalTZA y) by exact Hy1900. reflexivity. }
  split; [exact Hparse |].
  split; [apply year_length |].
  split; [unfold UTC; pose proof (year_length y); fold first last in H; lia |].
  intros Hmax Hfirst Hlast. rewrite Hparse. unfold first, last.
  rewrite (TimeClip_local LocalTZA y 0 1 0),
    (TimeClip_local LocalTZA y 11 31 (MakeTime 23 59 59 0));
    try assumption; try reflexivity; unfold MakeTime, msPerDay; lia.
Qed.

Lemma year_text_covers_year_witness :
  let first := MakeDate (MakeDay 2025 0 1) 0 in
  let last := MakeDate (MakeDay 2025 11 31) (MakeTime 23 59 59 0) in
  parsePartialDate newYork2025 "2025"
  = Some {| start := TimeClip (UTC newYork2025 first);
            end_ := TimeClip (UTC newYork2025 last) |}
  /\ (last - first = (if InLeapYear 2025 then 366 else 365) * msPerDay - 1000)%Z
  /\ (UTC newYork2025 last - UTC newYork2025 first
      = (if InLeapYear 2025 then 366 else 365) * msPerDay - 1000
        - (newYork2025 last false - newYork2025 first false))%Z
  /\ ((2025 <= 275000)%Z ->
      (Z.abs (newYork2025 first false) <= msPerDay)%Z ->
      (Z.abs (newYork2025 last false) <= msPerDay)%Z ->
      parsePartialDate newYork2025 "2025"
      = Some {| start := Some (UTC newYork2025 first);
                end_ := Some (UTC newYork2025 last) |}).
Proof.
  apply (year_text_covers_year newYork2025 "2025" 2025); (reflexivity || lia).
Defined.

End DashboardStateProofs.
